(** * gif_tools: a shallow embedding of [gif_creator.py] and [gif_looper.py]

    The two scripts are thin orchestration code over the Python standard
    library, moviepy and Pillow.  The embedding keeps the control flow of the
    scripts (validation loops, the [try]/[except] blocks, the clean-up code)
    and makes everything the scripts delegate explicit:

    - Python values the scripts compute with ([str], [int], [float]) are
      modelled in [Module Py]: strings as [string], integers as [Z], floats as
      IEEE-754 binary64 values through the standard library's [SpecFloat];
    - the file system and the media libraries are a [world] record: what
      exists, what a file decodes to, and which external call raises;
    - effects are a state-and-exception monad whose state carries a
      chronological trace of the external calls that have returned (a call
      that raises leaves no event).

    Progress output ([print] of sizes, durations, totals) has no influence on
    control flow and is not modelled; the warnings and the error lines are
    events of the trace.  Argument parsing is [argparse]'s: the [main]
    functions start from the parsed arguments. *)

From Stdlib Require Import ZArith List String Ascii Bool Lia.
From Stdlib Require Import Sorting.Sorted Sorting.Permutation.
From Stdlib Require Import Floats.SpecFloat.
Import ListNotations.

Local Open Scope string_scope.
Local Open Scope Z_scope.

(* ================================================================== *)
(** * Python values *)
(* ================================================================== *)

Module Py.

(** ** Exceptions and results *)

(** The exception classes the scripts raise or may receive.  [SystemExit]
    derives from [BaseException] only: an [except Exception] clause does not
    catch it. *)
Inductive exn_class :=
| FileNotFoundError
| ValueError
| ZeroDivisionError
| OverflowError
| EOFError
| OSError
| UnboundLocalError
| Exception
| SystemExit.

Record exn := mkExn { exn_cls : exn_class; exn_msg : string }.

Definition exn_class_eqb (a b : exn_class) : bool :=
  match a, b with
  | FileNotFoundError, FileNotFoundError
  | ValueError, ValueError
  | ZeroDivisionError, ZeroDivisionError
  | OverflowError, OverflowError
  | EOFError, EOFError
  | OSError, OSError
  | UnboundLocalError, UnboundLocalError
  | Exception, Exception
  | SystemExit, SystemExit => true
  | _, _ => false
  end.

(** [isinstance(e, Exception)]: every class above but [SystemExit]. *)
Definition is_Exception (e : exn) : bool :=
  negb (exn_class_eqb (exn_cls e) SystemExit).

Inductive result (A : Type) :=
| Ok (a : A)
| Raise (e : exn).
Arguments Ok {A} a.
Arguments Raise {A} e.

Definition rbind {A B} (r : result A) (k : A -> result B) : result B :=
  match r with
  | Ok a => k a
  | Raise e => Raise e
  end.

(** ** Strings *)

(** [str.lower] on the ASCII letters; every other byte is left as it is. *)
Definition lower_ascii (c : ascii) : ascii :=
  let n := nat_of_ascii c in
  if (Nat.leb 65 n && Nat.leb n 90)%bool then ascii_of_nat (n + 32) else c.

Fixpoint lower (s : string) : string :=
  match s with
  | EmptyString => EmptyString
  | String c s' => String (lower_ascii c) (lower s')
  end.

(** [s.endswith(suffix)]: some tail of [s] is [suffix]. *)
Fixpoint endswith (s suffix : string) : bool :=
  if String.eqb s suffix then true
  else match s with
       | EmptyString => false
       | String _ s' => endswith s' suffix
       end.

(** [c in s] for a one-character [c]. *)
Fixpoint contains_char (c : ascii) (s : string) : bool :=
  match s with
  | EmptyString => false
  | String d s' => (Ascii.eqb c d || contains_char c s')%bool
  end.

(** [sorted(l)] on a list of strings.  Python compares [str] by code point,
    which on UTF-8 bytes is [String.leb]; the order is total and equal keys
    are equal strings, so the result does not depend on the algorithm.  *)
Fixpoint insert_sorted (x : string) (l : list string) : list string :=
  match l with
  | [] => [x]
  | y :: l' => if String.leb x y then x :: l else y :: insert_sorted x l'
  end.

Fixpoint sorted (l : list string) : list string :=
  match l with
  | [] => []
  | x :: l' => insert_sorted x (sorted l')
  end.

(** The order [sorted] sorts by. *)
Definition le_str (x y : string) : Prop := String.leb x y = true.

(** ** Floats *)

(** A Python [float] is an IEEE-754 binary64 value: [SpecFloat] at precision
    53 with [emax = 1024].  Arithmetic rounds to nearest, ties to even. *)
Definition prec : Z := 53.
Definition emax : Z := 1024.
Definition float := spec_float.

(** An integer seen as an unrounded binary value [m * 2^0]. *)
Definition exact_of_int (n : Z) : float :=
  match n with
  | Z0 => S754_zero false
  | Zpos m => S754_finite false m 0
  | Zneg m => S754_finite true m 0
  end.

Definition finite_or_overflow (msg : string) (x : float) : result float :=
  match x with
  | S754_infinity _ => Raise (mkExn OverflowError msg)
  | _ => Ok x
  end.

(** [float(n)], the conversion applied to the [int] operand of a mixed
    [int * float] product: correctly rounded, [OverflowError] when the
    integer is too large. *)
Definition float_of_int (n : Z) : result float :=
  finite_or_overflow "int too large to convert to float"
    (binary_normalize prec emax n 0 false).

(** [a / b] on two [int]s: the correctly rounded quotient. *)
Definition int_truediv (a b : Z) : result float :=
  if b =? 0 then Raise (mkExn ZeroDivisionError "division by zero")
  else finite_or_overflow "integer division result too large for a float"
         (SFdiv prec emax (exact_of_int a) (exact_of_int b)).

Definition float_mul (x y : float) : float := SFmul prec emax x y.

(** [int(x)]: truncation toward zero. *)
Definition int_of_float (x : float) : result Z :=
  match x with
  | S754_zero _ => Ok 0
  | S754_nan =>
      Raise (mkExn ValueError "cannot convert float NaN to integer")
  | S754_infinity _ =>
      Raise (mkExn OverflowError "cannot convert float infinity to integer")
  | S754_finite s m e =>
      let a := if 0 <=? e then Zpos m * 2 ^ e else Zpos m / 2 ^ (- e) in
      Ok (if s then - a else a)
  end.

(** The value of a float literal [n/d] written in decimal: the double
    nearest to the quotient. *)
Definition float_literal (n d : Z) : float :=
  SFdiv prec emax (exact_of_int n) (exact_of_int d).


(** ** [os.path] *)

(** [genericpath._splitext], the body of [os.path.splitext] on every
    platform.  [is_sep] tells the separators of the platform (['/'] for
    [posixpath]; ['\'] and ['/'] for [ntpath]).  The extension starts at the
    last dot of the path, provided that dot lies in the last component and
    is preceded there by a character that is not a dot. *)
Section Splitext.
Variable is_sep : ascii -> bool.

(** Index just after the last separator ([sepIndex + 1]; 0 when there is
    none). *)
Fixpoint after_last_sep (p : string) (i : nat) (acc : nat) : nat :=
  match p with
  | EmptyString => acc
  | String c p' => after_last_sep p' (S i) (if is_sep c then S i else acc)
  end.

(** [p.rfind('.')], [None] for -1. *)
Fixpoint rfind_dot (p : string) (i : nat) (acc : option nat) : option nat :=
  match p with
  | EmptyString => acc
  | String c p' =>
      rfind_dot p' (S i) (if Ascii.eqb c "."%char then Some i else acc)
  end.

(** The [while filenameIndex < dotIndex] loop: is there a character other
    than a dot in [p[filenameIndex:dotIndex]]? *)
Fixpoint has_non_dot (p : string) (from upto : nat) : bool :=
  match p with
  | EmptyString => false
  | String c p' =>
      match upto with
      | O => false
      | S upto' =>
          match from with
          | O => (negb (Ascii.eqb c "."%char) || has_non_dot p' O upto')%bool
          | S from' => has_non_dot p' from' upto'
          end
      end
  end.

Definition splitext (p : string) : string * string :=
  let filenameIndex := after_last_sep p 0%nat 0%nat in
  match rfind_dot p 0%nat None with
  | Some dotIndex =>
      if (Nat.leb filenameIndex dotIndex
          && has_non_dot p filenameIndex dotIndex)%bool
      then (substring 0 dotIndex p,
            substring dotIndex (String.length p - dotIndex) p)
      else (p, EmptyString)
  | None => (p, EmptyString)
  end.

End Splitext.

Definition posix_sep (c : ascii) : bool := Ascii.eqb c "/"%char.
Definition nt_sep (c : ascii) : bool :=
  (Ascii.eqb c "\"%char || Ascii.eqb c "/"%char)%bool.

(** [posixpath.dirname]: everything up to the last slash, without trailing
    slashes unless the head consists of slashes only. *)
Fixpoint rstrip_slash_rev (r : list ascii) : list ascii :=
  match r with
  | c :: r' => if posix_sep c then rstrip_slash_rev r' else r
  | [] => []
  end.

Definition dirname (p : string) : string :=
  let head := substring 0 (after_last_sep posix_sep p 0%nat 0%nat) p in
  let chars := list_ascii_of_string head in
  if forallb posix_sep chars then head
  else string_of_list_ascii (rev (rstrip_slash_rev (rev chars))).

(** [posixpath.join(a, b)] for a relative [b]. *)
Definition join (a b : string) : string :=
  if String.eqb a "" then b
  else if endswith a "/" then a ++ b
  else a ++ "/" ++ b.

(** ** A state and exception monad

    [S] is the state an operation threads; a raised exception keeps the state
    reached so far, as a Python handler sees it. *)
Definition M (S A : Type) : Type := S -> result A * S.

Definition ret {S A} (a : A) : M S A := fun s => (Ok a, s).

Definition raise {S A} (e : exn) : M S A := fun s => (Raise e, s).

Definition bind {S A B} (m : M S A) (k : A -> M S B) : M S B :=
  fun s =>
    match m s with
    | (Ok a, s') => k a s'
    | (Raise e, s') => (Raise e, s')
    end.

(** [try: body except Exception as e: handler(e)]. *)
Definition try_except {S A} (body : M S A) (handler : exn -> M S A) : M S A :=
  fun s =>
    match body s with
    | (Ok a, s') => (Ok a, s')
    | (Raise e, s') => if is_Exception e then handler e s' else (Raise e, s')
    end.

(** [try: body except: pass]. *)
Definition try_pass {S} (body : M S unit) : M S unit :=
  fun s =>
    match body s with
    | (Ok _, s') => (Ok tt, s')
    | (Raise _, s') => (Ok tt, s')
    end.

Definition lift {S A} (r : result A) : M S A := fun s => (r, s).

Definition get {S} : M S S := fun s => (Ok s, s).
Definition modify {S} (f : S -> S) : M S unit := fun s => (Ok tt, f s).

(** [for x in l: body(x)]. *)
Fixpoint for_each {S A} (l : list A) (body : A -> M S unit) : M S unit :=
  match l with
  | [] => ret tt
  | x :: l' => bind (body x) (fun _ => for_each l' body)
  end.

End Py.

Notation "x <- m ;; k" := (Py.bind m (fun x => k))
  (at level 61, m at next level, right associativity).
Notation "m ;;; k" := (Py.bind m (fun _ => k))
  (at level 61, right associativity).

(* ================================================================== *)
(** * gif_creator.py *)
(* ================================================================== *)

Module GifCreator.
Import Py.

(** ** The world outside the script *)

(** A clip object of moviepy, identified by a handle that is fresh for each
    object the library creates. *)
Definition handle := nat.
Definition size := (Z * Z)%type.

Record clip := mkClip { clip_handle : handle; clip_size : size }.

(** The library and system calls of [convert_mp4_to_gif] that may raise. *)
Inductive call :=
| CallVideoFileClip (path : string)
| CallResized (h : handle)
| CallConcatenate
| CallWriteGif
| CallClose (h : handle)
| CallGetsize.

Record world := mkWorld {
  path_exists : string -> bool;          (* os.path.exists *)
  video_size : string -> size;           (* clip.size of the decoded file *)
  glob : string -> list string;          (* glob.glob, in enumeration order *)
  raises : call -> option exn            (* the calls that fail, and how *)
}.

(** What the script does to the outside, in the order it does it.  A library
    call is an event once it has returned: a call that raises leaves none. *)
Inductive event :=
| WarnNotFound (path : string)
| WarnNotMp4 (path : string)
| WarnNoMatch (pattern : string)
| WarnNoMp4Inputs
| Opened (h : handle) (path : string)
| Resized (src dst : handle) (target : size)
| Concatenated (h : handle) (parts : list handle)
| WroteGif (h : handle) (output_path : string) (fps loop : Z)
| Closed (h : handle)
| PrintedError (msg : string)
| PrintedDependencyHint.

(** The state threaded through a run: the handle supply, the trace, and the
    two locals of [convert_mp4_to_gif] that outlive a loop iteration
    ([video_clips] is read by the [except] handler). *)
Record state := mkState {
  next_handle : handle;
  trace : list event;
  video_clips : list clip;
  target_size : option size
}.

Definition initial : state := mkState 0%nat [] [] None.

Definition emit (e : event) : M state unit :=
  modify (fun s => mkState (next_handle s) (trace s ++ [e])
                           (video_clips s) (target_size s)).

Definition fresh : M state handle :=
  fun s => (Ok (next_handle s),
            mkState (S (next_handle s)) (trace s)
                    (video_clips s) (target_size s)).

Definition set_video_clips (l : list clip) : M state unit :=
  modify (fun s => mkState (next_handle s) (trace s) l (target_size s)).

Definition append_clip (c : clip) : M state unit :=
  modify (fun s => mkState (next_handle s) (trace s)
                           (video_clips s ++ [c]) (target_size s)).

Definition set_target_size (t : size) : M state unit :=
  modify (fun s => mkState (next_handle s) (trace s) (video_clips s) (Some t)).

(** An external call: raises what the world says, or goes on. *)
Definition external (w : world) (c : call) : M state unit :=
  match raises w c with
  | Some e => raise e
  | None => ret tt
  end.

(** [VideoFileClip(path)] *)
Definition VideoFileClip (w : world) (path : string) : M state clip :=
  external w (CallVideoFileClip path) ;;;
  h <- fresh ;;
  emit (Opened h path) ;;;
  ret (mkClip h (video_size w path)).

(** [clip.resized(target)]: a new clip object of the target size. *)
Definition resized (w : world) (c : clip) (target : size) : M state clip :=
  external w (CallResized (clip_handle c)) ;;;
  h <- fresh ;;
  emit (Resized (clip_handle c) h target) ;;;
  ret (mkClip h target).

(** [concatenate_videoclips(clips, method="compose")] *)
Definition concatenate_videoclips (w : world) (clips : list clip) : M state clip :=
  external w CallConcatenate ;;;
  h <- fresh ;;
  emit (Concatenated h (map clip_handle clips)) ;;;
  ret (mkClip h (match clips with c :: _ => clip_size c | [] => (0, 0) end)).

(** [clip.write_gif(output_path, fps=fps, loop=loop)] *)
Definition write_gif (w : world) (c : clip) (output_path : string) (fps loop : Z)
  : M state unit :=
  external w CallWriteGif ;;;
  emit (WroteGif (clip_handle c) output_path fps loop).

(** [clip.close()] *)
Definition close (w : world) (c : clip) : M state unit :=
  external w (CallClose (clip_handle c)) ;;;
  emit (Closed (clip_handle c)).

(** [os.path.getsize(output_path)], used for reporting only. *)
Definition getsize (w : world) : M state unit := external w CallGetsize.

(** ** convert_mp4_to_gif *)

(** Lines 44-52: the input filter. *)
Fixpoint validate (w : world) (input_paths valid_paths : list string)
  : M state (list string) :=
  match input_paths with
  | [] => ret valid_paths
  | path :: rest =>
      if negb (path_exists w path) then
        emit (WarnNotFound path) ;;; validate w rest valid_paths
      else if negb (endswith (lower path) ".mp4") then
        emit (WarnNotMp4 path) ;;; validate w rest valid_paths
      else validate w rest (valid_paths ++ [path])
  end.

(** Lines 58-65: the default output path ([os.path] of a POSIX system). *)
Definition default_output_path (valid_paths : list string) : string :=
  match valid_paths with
  | [p] => fst (splitext posix_sep p) ++ ".gif"
  | p :: _ => join (dirname p) "combined_video.gif"
  | [] => ""
  end.

(** Lines 68-80: the quality presets. *)
Record settings := mkSettings { s_fps : Z; s_resize_factor : float }.

Definition quality_settings : list (string * settings) :=
  [ ("low",    mkSettings 8  (float_literal 5 10));
    ("medium", mkSettings 10 (float_literal 7 10));
    ("high",   mkSettings 15 (float_literal 10 10)) ].

Fixpoint dict_get {V} (k : string) (d : list (string * V)) : option V :=
  match d with
  | [] => None
  | (k', v) :: d' => if String.eqb k k' then Some v else dict_get k d'
  end.

Definition resolve_quality (quality : string) (fps : Z) : Z * float :=
  match dict_get quality quality_settings with
  | Some st => (if fps =? 10 then s_fps st else fps, s_resize_factor st)
  | None => (fps, float_literal 7 10)
  end.

(** Lines 102-112: the target geometry. *)
Definition truthy (width : option Z) : option Z :=
  match width with
  | Some x => if x =? 0 then None else Some x
  | None => None
  end.

Definition make_even (n : Z) : Z := if n mod 2 =? 0 then n else n - 1.

Definition compute_target (width : option Z) (original_size : size)
  (resize_factor : float) : result size :=
  let '(ow, oh) := original_size in
  rbind
    (match truthy width with
     | Some x =>
         rbind (int_truediv x ow) (fun q =>
         rbind (float_of_int oh) (fun fh =>
         rbind (int_of_float (float_mul q fh)) (fun new_height =>
         Ok (x, new_height))))
     | None =>
         rbind (float_of_int ow) (fun fw =>
         rbind (int_of_float (float_mul fw resize_factor)) (fun new_width =>
         rbind (float_of_int oh) (fun fh =>
         rbind (int_of_float (float_mul fh resize_factor)) (fun new_height =>
         Ok (new_width, new_height)))))
     end)
    (fun '(new_width, new_height) =>
       Ok (make_even new_width, make_even new_height)).

(** The two sequence types line 118 compares.  [clip.size] is the list
    [[w, h]] that moviepy's reader holds; [target_size] is the tuple built
    at line 112.  Python's [==] never finds a list equal to a tuple,
    whatever they hold. *)
Inductive py_seq :=
| PyList (items : list Z)
| PyTuple (items : list Z).

Definition py_seq_eqb (a b : py_seq) : bool :=
  match a, b with
  | PyList x, PyList y | PyTuple x, PyTuple y =>
      if list_eq_dec Z.eq_dec x y then true else false
  | _, _ => false
  end.

(** [clip.size], as the list it is, and a size as the tuple of line 112. *)
Definition size_list (sz : size) : py_seq := PyList [fst sz; snd sz].
Definition size_tuple (sz : size) : py_seq := PyTuple [fst sz; snd sz].

(** Lines 89-122: the loading loop, [i] counting from 1.  The test of line
    118 is on a list and a tuple, so it holds for every clip: each clip is
    resized, also one that has the target size already. *)
Fixpoint load_clips (w : world) (width : option Z) (resize_factor : float)
  (i : nat) (paths : list string) : M state unit :=
  match paths with
  | [] => ret tt
  | path :: rest =>
      c <- VideoFileClip w path ;;
      let original_size := clip_size c in
      (if Nat.eqb i 1 then
         t <- lift (compute_target width original_size resize_factor) ;;
         set_target_size t
       else ret tt) ;;;
      s <- get ;;
      match target_size s with
      | None => raise (mkExn UnboundLocalError "target_size")
      | Some target =>
          (if negb (py_seq_eqb (size_list original_size)
                               (size_tuple target)) then
             clip_resized <- resized w c target ;;
             append_clip clip_resized
           else append_clip c) ;;;
          load_clips w width resize_factor (S i) rest
      end
  end.

(** Lines 126-157: concatenation, encoding and clean-up, on the clips the
    loop has collected. *)
Definition encode_and_close (w : world) (clips : list clip)
  (output_path : string) (fps : Z) : M state string :=
  final_video <- match clips with
                 | [c] => ret c
                 | _ => concatenate_videoclips w clips
                 end ;;
  write_gif w final_video output_path fps 0 ;;;
  for_each clips (close w) ;;;
  (if Nat.ltb 1 (List.length clips) then close w final_video else ret tt) ;;;
  getsize w ;;;
  ret output_path.

(** Lines 82-166: the [try] block and its handler. *)
Definition convert_body (w : world) (valid_paths : list string)
  (output_path : string) (fps : Z) (width : option Z) (resize_factor : float)
  : M state string :=
  set_video_clips [] ;;;
  load_clips w width resize_factor 1 valid_paths ;;;
  s <- get ;;
  encode_and_close w (video_clips s) output_path fps.

Definition convert_handler (w : world) (e : exn) : M state string :=
  s <- get ;;
  for_each (video_clips s) (fun c => try_pass (close w c)) ;;;
  raise (mkExn Exception ("Error converting MP4(s) to GIF: " ++ exn_msg e)).

Definition convert_mp4_to_gif (w : world) (input_paths : list string)
  (output_path : option string) (fps : Z) (width : option Z) (quality : string)
  : M state string :=
  valid_paths <- validate w input_paths [] ;;
  match valid_paths with
  | [] => raise (mkExn FileNotFoundError "No valid MP4 files found")
  | _ :: _ =>
      let output_path := match output_path with
                         | Some o => o
                         | None => default_output_path valid_paths
                         end in
      let '(fps, resize_factor) := resolve_quality quality fps in
      try_except
        (convert_body w valid_paths output_path fps width resize_factor)
        (convert_handler w)
  end.

(** ** main *)

Record args := mkArgs {
  inputs : list string;
  output : option string;
  arg_fps : Z;
  arg_width : option Z;
  arg_quality : string
}.

(** Lines 215-224: glob expansion. *)
Fixpoint expand_inputs (w : world) (patterns expanded_inputs : list string)
  : M state (list string) :=
  match patterns with
  | [] => ret expanded_inputs
  | pattern :: rest =>
      if (contains_char "*" pattern || contains_char "?" pattern)%bool then
        match glob w pattern with
        | [] => emit (WarnNoMatch pattern) ;;;
                expand_inputs w rest expanded_inputs
        | matches =>
            expand_inputs w rest (expanded_inputs ++ sorted matches)
        end
      else expand_inputs w rest (expanded_inputs ++ [pattern])
  end.

Definition sys_exit {A} (code : string) : M state A :=
  raise (mkExn SystemExit code).

(** Lines 213-272, after argument parsing. *)
Definition main_body (w : world) (a : args) : M state unit :=
  try_except
    (expanded_inputs <- expand_inputs w (inputs a) [] ;;
     match expanded_inputs with
     | [] => sys_exit "1"
     | _ :: _ =>
         (if forallb (fun f => negb (endswith (lower f) ".mp4")) expanded_inputs
          then emit WarnNoMp4Inputs else ret tt) ;;;
         output_file <- convert_mp4_to_gif w expanded_inputs (output a)
                          (arg_fps a) (arg_width a) (arg_quality a) ;;
         getsize w
     end)
    (fun e =>
       emit (PrintedError (exn_msg e)) ;;;
       (if exn_class_eqb (exn_cls e) FileNotFoundError then ret tt
        else emit PrintedDependencyHint) ;;;
       sys_exit "1").

(** The exit status of the process. *)
Definition main (w : world) (a : args) : Z * state :=
  match main_body w a initial with
  | (Ok _, s) => (0, s)
  | (Raise _, s) => (1, s)
  end.

(** ** Vocabulary of the specification *)

(** A valid input, in the words of the specification: it exists and has the
    expected video extension. *)
Definition valid_input (w : world) (path : string) : bool :=
  (path_exists w path && endswith (lower path) ".mp4")%bool.

(** The warning owed to a path that is skipped. *)
Definition skip_warning (w : world) (path : string) : list event :=
  if negb (path_exists w path) then [WarnNotFound path]
  else if negb (endswith (lower path) ".mp4") then [WarnNotMp4 path]
  else [].

(** What one command-line input contributes to the processing list. *)
Definition has_glob_char (pattern : string) : bool :=
  (contains_char "*" pattern || contains_char "?" pattern)%bool.

Definition expansion (w : world) (pattern : string) : list string :=
  if has_glob_char pattern then sorted (glob w pattern) else [pattern].

Definition no_match_warning (w : world) (pattern : string) : list event :=
  if has_glob_char pattern then
    match glob w pattern with
    | [] => [WarnNoMatch pattern]
    | _ => []
    end
  else [].

(** A state with more events in its trace. *)
Definition add_events (s : state) (evs : list event) : state :=
  mkState (next_handle s) (trace s ++ evs) (video_clips s) (target_size s).

(** Reading a trace: the files that were opened, the clip handles that were
    created, those that were closed, and those still open at the end. *)
Definition opened_path (e : event) : list string :=
  match e with
  | Opened _ path => [path]
  | _ => []
  end.

Definition created_handle (e : event) : list handle :=
  match e with
  | Opened h _ => [h]
  | Resized _ h _ => [h]
  | Concatenated h _ => [h]
  | _ => []
  end.

Definition closed_handle (e : event) : list handle :=
  match e with
  | Closed h => [h]
  | _ => []
  end.

Definition opened_paths (tr : list event) : list string :=
  flat_map opened_path tr.

Definition created_handles (tr : list event) : list handle :=
  flat_map created_handle tr.

Definition closed_handles (tr : list event) : list handle :=
  flat_map closed_handle tr.

Definition left_open (tr : list event) : list handle :=
  filter (fun h => negb (existsb (Nat.eqb h) (closed_handles tr)))
         (created_handles tr).

(** The handle of the concatenated clip, when there is one. *)
Definition concatenated_handle (e : event) : list handle :=
  match e with
  | Concatenated h _ => [h]
  | _ => []
  end.

(** ** Vocabulary of the run lemmas *)

Local Open Scope list_scope.

(** The events of the loading loop: files opened and clips resized. *)
Definition load_event (e : event) : Prop :=
  match e with
  | Opened _ _ | Resized _ _ _ => True
  | _ => False
  end.

(** What a run of the loop from [s] to [s'] has done, whether it finished
    or raised: it appended [evs] to the trace and [new] to [video_clips],
    opened a prefix of [paths] in order, and every clip it appended has the
    size [t]. *)
Record progress (t : size) (paths : list string) (s s' : state)
  (evs : list event) (new : list clip) : Prop := mkProgress {
  pr_trace : trace s' = trace s ++ evs;
  pr_clips : video_clips s' = video_clips s ++ new;
  pr_events : Forall load_event evs;
  pr_opened : exists rest, paths = opened_paths evs ++ rest;
  pr_sizes : Forall (fun c => clip_size c = t) new
}.

(** A world in which no external call fails. *)
Definition cooperative (w : world) : Prop := forall c, raises w c = None.

(** The events of the part after the loop, for a given output path and
    frame rate: one concatenation, one encoding with these parameters and
    an infinite repeat count, and closes. *)
Definition finish_event (output_path : string) (fps : Z) (e : event) : Prop :=
  match e with
  | Concatenated _ _ | Closed _ => True
  | WroteGif _ o f l => o = output_path /\ f = fps /\ l = 0
  | _ => False
  end.

(** A step that only appends events satisfying [P] and leaves the locals
    alone. *)
Record appends (P : event -> Prop) (s s' : state) (evs : list event)
  : Prop := mkAppends {
  ap_trace : trace s' = trace s ++ evs;
  ap_clips : video_clips s' = video_clips s;
  ap_target : target_size s' = target_size s;
  ap_events : Forall P evs
}.

(** What the caller receives when the [try] block fails with [e]. *)
Definition conversion_failure (e : exn) : exn :=
  if is_Exception e
  then mkExn Exception ("Error converting MP4(s) to GIF: " ++ exn_msg e)%string
  else e.

(** The anatomy of a run of [convert_mp4_to_gif] on a non-empty list of
    valid paths: the events of the loading loop, then those of the encoding
    and clean-up, and the target size [t]. *)
Record conversion (w : world) (valid : list string) (first : string)
  (output_path : string) (fps : Z) (width : option Z) (rf : float)
  (s s' : state) (r : result string)
  (load_events finish_events : list event) (t : size) : Prop := mkConversion {
  cv_trace : trace s' = trace s ++ load_events ++ finish_events;
  cv_load : Forall load_event load_events;
  cv_opened : exists rest, valid = opened_paths load_events ++ rest;
  cv_sizes : Forall (fun c => clip_size c = t) (video_clips s');
  cv_target_once :
    video_clips s' <> [] ->
    compute_target width (video_size w first) rf = Ok t /\
    target_size s' = Some t;
  cv_finish : Forall (finish_event output_path fps) finish_events;
  cv_result :
    (r = Ok output_path /\ opened_paths load_events = valid /\
     List.length (video_clips s') = List.length valid) \/
    (exists e, r = Raise (conversion_failure e));
  cv_written :
    r = Ok output_path ->
    exists h, In (WroteGif h output_path fps 0) finish_events;
  cv_success :
    cooperative w ->
    (exists t', compute_target width (video_size w first) rf = Ok t') ->
    r = Ok output_path
}.

(** ** Example worlds *)

Definition upper_case_world : world :=
  mkWorld (fun _ => true) (fun _ => (640, 480)) (fun _ => []) (fun _ => None).

Definition mixed_inputs_world : world :=
  mkWorld (fun p => negb (String.eqb p "missing.mp4"))
          (fun _ => (640, 480)) (fun _ => []) (fun _ => None).

Definition unordered_glob_world : world :=
  mkWorld (fun _ => true) (fun _ => (640, 480))
          (fun _ => ["part2.mp4"; "part10.mp4"; "part1.mp4"]) (fun _ => None).

(** Two readable files of 640x480 pixels; the encoder fails (a full disk, an
    output directory that cannot be written). *)
Definition encoder_fails_world : world :=
  mkWorld (fun _ => true) (fun _ => (640, 480)) (fun _ => [])
          (fun c => match c with
                    | CallWriteGif => Some (mkExn OSError "No space left on device")
                    | _ => None
                    end).

Definition encoder_works_world : world :=
  mkWorld (fun _ => true) (fun _ => (640, 480)) (fun _ => []) (fun _ => None).

Definition two_sizes_world : world :=
  mkWorld (fun _ => true)
          (fun p => if String.eqb p "first.mp4" then (640, 480) else (1920, 1080))
          (fun _ => []) (fun _ => None).

(** ** What a run that succeeds has done *)

(** The loading loop on [paths], from the handle [h] on, when nothing fails:
    each file is opened and the clip is replaced by a resized copy.  The
    result is the events, the clips collected, and the next free handle. *)
Fixpoint loaded (target : size) (h : handle) (paths : list string)
  : list event * list clip * handle :=
  match paths with
  | [] => ([], [], h)
  | p :: rest =>
      let '(evs, clips, h') := loaded target (S (S h)) rest in
      (Opened h p :: Resized h (S h) target :: evs,
       mkClip (S h) target :: clips, h')
  end.

(** What follows the loop when nothing fails: a single clip is encoded as it
    is; several are concatenated first, under the handle [h]. *)
Definition finished (clips : list clip) (h : handle) (output_path : string)
  (fps : Z) : list event :=
  match clips with
  | [c] =>
      [WroteGif (clip_handle c) output_path fps 0; Closed (clip_handle c)]
  | _ =>
      Concatenated h (map clip_handle clips)
      :: WroteGif h output_path fps 0
      :: map Closed (map clip_handle clips)
         ++ (if Nat.ltb 1 (List.length clips) then [Closed h] else [])
  end.

(** The handles a trace resizes from. *)
Definition resized_source (e : event) : list handle :=
  match e with
  | Resized src _ _ => [src]
  | _ => []
  end.

Definition is_error_line (e : event) : bool :=
  match e with
  | PrintedError _ => true
  | _ => false
  end.

Definition is_hint (e : event) : bool :=
  match e with
  | PrintedDependencyHint => true
  | _ => false
  end.

(** Reading a trace: what was encoded, and what was concatenated. *)
Definition encoding (e : event) : list (handle * string * Z * Z) :=
  match e with
  | WroteGif h o f l => [(h, o, f, l)]
  | _ => []
  end.

Definition concatenation (e : event) : list (handle * list handle) :=
  match e with
  | Concatenated h parts => [(h, parts)]
  | _ => []
  end.

Definition encodings (tr : list event) := flat_map encoding tr.
Definition concatenations (tr : list event) := flat_map concatenation tr.
Definition resized_sources (tr : list event) := flat_map resized_source tr.

(** The handles of the clips opened from files. *)
Definition opened_handle (e : event) : list handle :=
  match e with
  | Opened h _ => [h]
  | _ => []
  end.

Definition opened_handles (tr : list event) := flat_map opened_handle tr.

(** In a trace, the clip [c] is a copy, resized to [target], of the clip
    that was opened for the file [path]. *)
Definition resized_copy_of (target : size) (tr : list event) (path : string)
  (c : handle) : Prop :=
  exists h, In (Opened h path) tr /\ In (Resized h c target) tr.

(** What [main] prints around the conversion: the warning of lines 231-233
    when no expanded input looks like an MP4 file, and the report of a
    failure (lines 265-272). *)
Definition no_mp4_warning (expanded : list string) : list event :=
  if forallb (fun f => negb (endswith (lower f) ".mp4")) expanded
  then [WarnNoMp4Inputs] else [].

Definition error_report (e : exn) : list event :=
  PrintedError (exn_msg e)
  :: (if exn_class_eqb (exn_cls e) FileNotFoundError then []
      else [PrintedDependencyHint]).

(** The lines of a failure report in a trace. *)
Definition reported (tr : list event) : list event :=
  filter (fun e => (is_error_line e || is_hint e)%bool) tr.

(** Does the last component of [stem] hold a character other than a dot?
    ([os.path.splitext] splits an extension off only then.) *)
Definition has_proper_name (stem : string) : bool :=
  has_non_dot stem (after_last_sep posix_sep stem 0%nat 0%nat)
              (String.length stem).

End GifCreator.

(* ================================================================== *)
(** * gif_looper.py *)
(* ================================================================== *)

Module GifLooper.
Import Py.

(** ** The world outside the script *)

(** The picture of a frame is opaque to the script; its [info] dictionary
    may or may not hold a ['duration'] entry. *)
Definition pixels := list Z.

Record frame := mkFrame {
  frame_pixels : pixels;
  frame_duration : option Z
}.

(** What the decoder finds at a position of the file: a frame, or a failure
    raised when the position is reached.  An [EOFError] there is how Pillow
    reports a sequence that ends early. *)
Inductive slot :=
| Decoded (f : frame)
| Broken (e : exn).

Record image := mkImage {
  img_format : string;
  img_loop : option Z;           (* info.get('loop'); 0 repeats forever *)
  img_slots : list slot
}.

Record world := mkWorld {
  os_sep : ascii -> bool;            (* the separators of os.path *)
  path_exists : string -> bool;      (* os.path.exists *)
  image_open : string -> result image;  (* Image.open *)
  save_raises : option exn;          (* Image.save failing *)
  getsize_raises : option exn        (* os.path.getsize failing *)
}.

Inductive event :=
| OpenedImage (path : string)
| WarnFormat (format : string)
| Saved (output_path : string) (first : pixels) (append_images : list pixels)
        (duration : list Z) (loop : Z) (optimize : bool)
| ClosedImage (path : string)
| PrintedError (msg : string).

Definition state := list event.

Definition emit (e : event) : M state unit :=
  modify (fun tr : state => (tr ++ [e])%list).

(** [with Image.open(path) as img: body(img)]: the image is closed when the
    block is left, whichever way. *)
Definition with_image_open {A} (w : world) (path : string)
  (body : image -> M state A) : M state A :=
  img <- lift (image_open w path) ;;
  emit (OpenedImage path) ;;;
  fun s =>
    match body img s with
    | (r, s') => (r, (s' ++ [ClosedImage path])%list)
    end.

(** ** make_gif_loop *)

(** Line 61: [img.info.get('duration', 100)]. *)
Definition duration_or_default (f : frame) : Z :=
  match frame_duration f with
  | Some d => d
  | None => 100
  end.

(** Lines 54-68: the [while True] loop over the frames.  It stops at the
    first position that raises; [EOFError] is the expected end. *)
Fixpoint read_frames (slots : list slot) (frames : list pixels)
  (durations : list Z) : result (list pixels * list Z) :=
  match slots with
  | [] => Ok (frames, durations)
  | Decoded f :: rest =>
      read_frames rest
        (frames ++ [frame_pixels f])
        (durations ++ [duration_or_default f])
  | Broken e :: _ =>
      if exn_class_eqb (exn_cls e) EOFError then Ok (frames, durations)
      else Raise e
  end.

(** Lines 39-41. *)
Definition default_output_path (w : world) (input_path : string) : string :=
  fst (splitext (os_sep w) input_path) ++ "_looped.gif".

(** Lines 45-88: the body of the [with] block. *)
Definition loop_body (w : world) (output_path : string) (img : image)
  : M state string :=
  (if negb (String.eqb (img_format img) "GIF")
   then emit (WarnFormat (img_format img)) else ret tt) ;;;
  fd <- lift (read_frames (img_slots img) [] []) ;;
  let '(frames, durations) := fd in
  match frames with
  | first :: others =>
      match save_raises w with
      | Some e => raise e
      | None => emit (Saved output_path first others durations 0 true)
      end ;;;
      match getsize_raises w with
      | Some e => raise e
      | None => ret output_path
      end
  | [] => raise (mkExn ValueError "No frames found in the input file")
  end.

Definition make_gif_loop (w : world) (input_path : string)
  (output_path : option string) : M state string :=
  if negb (path_exists w input_path) then
    raise (mkExn FileNotFoundError ("Input file not found: " ++ input_path))
  else
    let output_path := match output_path with
                       | Some o => o
                       | None => default_output_path w input_path
                       end in
    try_except
      (with_image_open w input_path (loop_body w output_path))
      (fun e => raise (mkExn Exception ("Error processing GIF: " ++ exn_msg e))).

(** ** main *)

(** Lines 118-130, after argument parsing. *)
Definition main_body (w : world) (input : string) (output : option string)
  : M state unit :=
  try_except
    (make_gif_loop w input output ;;; ret tt)
    (fun e => emit (PrintedError (exn_msg e)) ;;;
              raise (mkExn SystemExit "1")).

(** The exit status of the process. *)
Definition main (w : world) (input : string) (output : option string)
  : Z * state :=
  match main_body w input output [] with
  | (Ok _, s) => (0, s)
  | (Raise _, s) => (1, s)
  end.

(** ** The file a run leaves behind *)

(** [save] is Pillow's GIF writer ([GifImagePlugin]), called with
    [save_all=True], a list of durations and [loop=0].  What it stores is
    not what it is given:

    - [_write_multiple_frames] compares each frame with the last frame it
      kept; a frame with the same picture is not stored, and its duration
      is added to that of the frame kept;
    - [_write_local_header] stores a duration in hundredths of a second,
      [int(duration / 10)], as a 16-bit number ([o16] raises when it does
      not fit), in a graphic control extension; it writes no such extension
      for a frame whose stored delay is 0;
    - the repeat count goes into the NETSCAPE2.0 application extension.

    What a reader finds in that file: one frame per frame kept, with
    ['duration'] ten times the stored delay, and no ['duration'] entry
    where no extension was written; ['loop'] is the repeat count.

    Scope: the pictures are taken to be read back as they were stored (the
    reduction to a palette of 256 colours is not modelled), and the frames
    to carry no transparency and no disposal method, with which the
    extension is written even for a delay of 0. *)











(** Reading a trace: the files that were written. *)
Definition saved_path (e : event) : list string :=
  match e with
  | Saved out _ _ _ _ _ => [out]
  | _ => []
  end.

Definition saved_paths (tr : list event) : list string :=
  flat_map saved_path tr.

(** ** Vocabulary of the run lemmas *)

Local Open Scope list_scope.

Definition format_warning (img : image) : list event :=
  if negb (String.eqb (img_format img) "GIF")
  then [WarnFormat (img_format img)] else [].



(** ** Example worlds *)

Definition bare_frame (n : Z) : frame := mkFrame [n] None.



Definition empty_image : image := mkImage "GIF" None [].

Definition empty_world : world :=
  mkWorld posix_sep (fun _ => true) (fun _ => Ok empty_image) None None.

Definition looping_image : image :=
  mkImage "GIF" (Some 0)
    (map Decoded [mkFrame [1] (Some 40); mkFrame [2] None; mkFrame [3] (Some 70)]).


Definition posix_world : world :=
  mkWorld posix_sep (fun _ => true) (fun _ => Ok looping_image) None None.









(** No file at all. *)
Definition missing_world : world :=
  mkWorld posix_sep (fun _ => false) (fun _ => Ok looping_image) None None.

(** A file that delivers two frames and then cannot be read further. *)
Definition damaged_image : image :=
  mkImage "GIF" None
    (map Decoded [bare_frame 1; bare_frame 2]
     ++ [Broken (mkExn OSError "image file is truncated")]).

Definition damaged_world : world :=
  mkWorld posix_sep (fun _ => true) (fun _ => Ok damaged_image) None None.

(** What the caller receives when the [try] block fails with [e]. *)
Definition processing_failure (e : exn) : exn :=
  if is_Exception e
  then mkExn Exception ("Error processing GIF: " ++ exn_msg e)%string
  else e.

End GifLooper.

(* ================================================================== *)
(** * Facts about the Python values *)
(* ================================================================== *)

Module PyFacts.
Import Py.

(** ** Strings *)

Lemma endswith_unfold (s suffix : string) :
  endswith s suffix =
  if String.eqb s suffix then true
  else match s with
       | EmptyString => false
       | String _ s' => endswith s' suffix
       end.
Proof. destruct s; reflexivity. Qed.

Lemma endswith_refl (s : string) : endswith s s = true.
Proof. rewrite endswith_unfold, String.eqb_refl; reflexivity. Qed.

Lemma endswith_app (pre suffix : string) : endswith (pre ++ suffix) suffix = true.
Proof.
  induction pre as [|c pre IH].
  - apply endswith_refl.
  - rewrite endswith_unfold.
    destruct (String.eqb (String c pre ++ suffix) suffix); [reflexivity|exact IH].
Qed.

Lemma endswith_inv (s suffix : string) :
  endswith s suffix = true -> exists pre, s = pre ++ suffix.
Proof.
  induction s as [|c s IH]; rewrite endswith_unfold.
  - destruct (String.eqb "" suffix) eqn:E; [|discriminate].
    apply String.eqb_eq in E. intros _. exists "". subst. reflexivity.
  - destruct (String.eqb (String c s) suffix) eqn:E.
    + apply String.eqb_eq in E. intros _. exists "". subst. reflexivity.
    + intros H. destruct (IH H) as [pre ->]. exists (String c pre). reflexivity.
Qed.

(** ** Sorting *)

Lemma leb_false_leb (x y : string) : String.leb x y = false -> String.leb y x = true.
Proof.
  intros H. destruct (String.leb_total x y) as [E|E]; [congruence|exact E].
Qed.

Lemma insert_sorted_perm (x : string) (l : list string) :
  Permutation (x :: l) (insert_sorted x l).
Proof.
  induction l as [|y l IH]; simpl.
  - apply Permutation_refl.
  - destruct (String.leb x y).
    + apply Permutation_refl.
    + eapply perm_trans; [apply perm_swap|]. apply perm_skip, IH.
Qed.

Lemma sorted_perm (l : list string) : Permutation l (sorted l).
Proof.
  induction l as [|x l IH]; simpl.
  - apply perm_nil.
  - eapply perm_trans; [apply perm_skip, IH|apply insert_sorted_perm].
Qed.

Lemma insert_sorted_hd (x a : string) (l : list string) :
  le_str a x -> HdRel le_str a l -> HdRel le_str a (insert_sorted x l).
Proof.
  intros Hax Hl. destruct l as [|y l]; simpl.
  - constructor. exact Hax.
  - destruct (String.leb x y); constructor; [exact Hax|].
    inversion Hl; assumption.
Qed.

Lemma insert_sorted_sorted (x : string) (l : list string) :
  Sorted le_str l -> Sorted le_str (insert_sorted x l).
Proof.
  induction l as [|y l IH]; simpl; intros Hs.
  - repeat constructor.
  - destruct (String.leb x y) eqn:E.
    + constructor; [exact Hs|constructor; exact E].
    + inversion Hs as [|? ? Hs' Hhd]; subst.
      constructor; [apply IH; exact Hs'|].
      apply insert_sorted_hd; [apply leb_false_leb; exact E|exact Hhd].
Qed.

Lemma sorted_sorted (l : list string) : Sorted le_str (sorted l).
Proof.
  induction l as [|x l IH]; simpl.
  - constructor.
  - apply insert_sorted_sorted, IH.
Qed.

(** ** splitext *)

Lemma substring_split (n : nat) (p : string) :
  substring 0 n p ++ substring n (String.length p - n) p = p.
Proof.
  revert p. induction n as [|n IH]; intros p.
  - rewrite Nat.sub_0_r.
    induction p as [|d p IHp]; simpl; [reflexivity|].
    f_equal. destruct p; exact IHp.
  - destruct p as [|c p]; simpl; [reflexivity|].
    f_equal. apply IH.
Qed.

Lemma splitext_app (is_sep : ascii -> bool) (p : string) :
  fst (splitext is_sep p) ++ snd (splitext is_sep p) = p.
Proof.
  unfold splitext.
  destruct (rfind_dot p 0 None) as [dotIndex|]; simpl.
  - destruct (Nat.leb _ dotIndex && has_non_dot p _ dotIndex)%bool; simpl.
    + apply substring_split.
    + clear. induction p; simpl; congruence.
  - clear. induction p; simpl; congruence.
Qed.

(** ** The definitions at work *)

Example splitext_posix :
  splitext posix_sep "clips/part.1/anim.tar.gz" = ("clips/part.1/anim.tar", ".gz").
Proof. reflexivity. Qed.

Example splitext_hidden_file :
  splitext posix_sep "clips.d/.hidden" = ("clips.d/.hidden", "").
Proof. reflexivity. Qed.

Example splitext_nt :
  splitext nt_sep "C:\clips.d\anim" = ("C:\clips.d\anim", "").
Proof. reflexivity. Qed.

Example sorted_by_code_point :
  sorted ["b.mp4"; "a10.mp4"; "B.mp4"; "a2.mp4"]
  = ["B.mp4"; "a10.mp4"; "a2.mp4"; "b.mp4"].
Proof. reflexivity. Qed.

(** [640 * 0.7] is a tie that rounds up to 448.0, [90 * 0.7] rounds down
    to 62.99999999999999. *)
Example int_640_times_07 :
  rbind (float_of_int 640) (fun x => int_of_float (float_mul x (float_literal 7 10)))
  = Ok 448.
Proof. vm_compute. reflexivity. Qed.

Example int_90_times_07 :
  rbind (float_of_int 90) (fun x => int_of_float (float_mul x (float_literal 7 10)))
  = Ok 62.
Proof. vm_compute. reflexivity. Qed.

End PyFacts.

(* ================================================================== *)
(** * Facts about binary64 rounding *)
(* ================================================================== *)

(** The scale factors are not binary fractions, so the size computation
    rounds.  This module bounds what [int(w * factor)] can be, from the
    definitions of [SpecFloat]: the shifts of [shr] keep an enclosure of the
    exact value, rounding to nearest adds at most half a unit in the last
    place (one part in [2^53] of the value), and truncation only lowers. *)
Module FloatFacts.
Import Py.


(** ** Binary digits *)

Lemma digits2_pos_bounds (p : positive) :
  2 ^ (Zpos (digits2_pos p) - 1) <= Zpos p < 2 ^ Zpos (digits2_pos p).
Proof.
  induction p as [p IH|p IH|]; simpl digits2_pos.
  - rewrite Pos2Z.inj_succ, Z.pow_succ_r by lia.
    replace (Z.succ (Zpos (digits2_pos p)) - 1) with (Z.succ (Zpos (digits2_pos p) - 1)) by lia.
    rewrite Z.pow_succ_r by lia. lia.
  - rewrite Pos2Z.inj_succ, Z.pow_succ_r by lia.
    replace (Z.succ (Zpos (digits2_pos p)) - 1) with (Z.succ (Zpos (digits2_pos p) - 1)) by lia.
    rewrite Z.pow_succ_r by lia. lia.
  - simpl. lia.
Qed.

(** A number below [2^k] has at most [k] digits. *)
Lemma digits2_pos_le (p : positive) (k : Z) :
  Zpos p < 2 ^ k -> Zpos (digits2_pos p) <= k.
Proof.
  intros H. destruct (Z.le_gt_cases (Zpos (digits2_pos p)) k) as [L|G]; [exact L|].
  exfalso. pose proof (digits2_pos_bounds p) as [B _].
  assert (0 <= k \/ k < 0) as [K|K] by lia.
  - assert (2 ^ k <= 2 ^ (Zpos (digits2_pos p) - 1))
      by (apply Z.pow_le_mono_r; lia).
    lia.
  - rewrite Z.pow_neg_r in H by lia. lia.
Qed.

Lemma iter_xO_value (p k : positive) :
  Zpos (Pos.iter xO p k) = Zpos p * 2 ^ Zpos k.
Proof.
  induction k as [|k IH] using Pos.peano_ind.
  - simpl. lia.
  - rewrite Pos.iter_succ, Pos2Z.inj_succ, Z.pow_succ_r by lia.
    rewrite Pos2Z.inj_xO, IH. lia.
Qed.

Lemma iter_xO_digits (p k : positive) :
  digits2_pos (Pos.iter xO p k) = (digits2_pos p + k)%positive.
Proof.
  induction k as [|k IH] using Pos.peano_ind.
  - simpl. lia.
  - rewrite Pos.iter_succ. simpl. rewrite IH. lia.
Qed.









(** An integer with 53 binary digits and an exponent within range is a
    double as it stands. *)
Lemma binary_round_aux_exact (m : positive) (e : Z) :
  Zpos (digits2_pos m) = 53 ->
  -1074 <= e <= 971 ->
  binary_round_aux prec emax false (Zpos m) e loc_Exact = S754_finite false m e.
Proof.
  intros Hd He. unfold binary_round_aux, shr_fexp. cbn [Zdigits2].
  rewrite Hd.
  replace (fexp prec emax (53 + e) - e) with 0
    by (unfold fexp, SpecFloat.emin, prec, emax; lia).
  cbn [shr_record_of_loc shr shr_m loc_of_shr_record round_nearest_even Zdigits2].
  rewrite Hd.
  replace (fexp prec emax (53 + e) - e) with 0
    by (unfold fexp, SpecFloat.emin, prec, emax; lia).
  cbn [shr_record_of_loc shr shr_m].
  replace (Z.leb e (emax - prec)) with true
    by (symmetry; apply Z.leb_le; unfold emax, prec; lia).
  reflexivity.
Qed.



End FloatFacts.

(* ================================================================== *)
(** * gif_creator.py: properties *)
(* ================================================================== *)

Module GifCreatorSpec.
Import Py GifCreator PyFacts FloatFacts.
Local Open Scope list_scope.

Ltac unfold_monad :=
  unfold bind, ret, raise, lift, get, modify, try_except, try_pass in *.

(** ** The converter at work *)

(** One 640x480 file, default arguments: 10 frames per second, 448x336,
    infinite repeat count. *)
Example single_file_default_arguments :
  convert_mp4_to_gif encoder_works_world ["talk.mp4"] None 10 None "medium"
    initial
  = (Ok "talk.gif",
     mkState 2%nat
       [Opened 0%nat "talk.mp4"; Resized 0%nat 1%nat (448, 336);
        WroteGif 1%nat "talk.gif" 10 0; Closed 1%nat]
       [mkClip 1%nat (448, 336)] (Some (448, 336))).
Proof. vm_compute. reflexivity. Qed.

(** A requested width of 400: the height follows the aspect ratio. *)
Example requested_width :
  compute_target (Some 400) (640, 480) (float_literal 7 10) = Ok (400, 300).
Proof. vm_compute. reflexivity. Qed.

(** ** Bookkeeping on states *)

Lemma add_events_nil (s : state) : add_events s [] = s.
Proof. destruct s; unfold add_events; simpl; rewrite app_nil_r; reflexivity. Qed.

Lemma add_events_app (s : state) (a b : list event) :
  add_events (add_events s a) b = add_events s (a ++ b).
Proof. unfold add_events; simpl; rewrite app_assoc; reflexivity. Qed.

Lemma emit_run (e : event) (s : state) : emit e s = (Ok tt, add_events s [e]).
Proof. reflexivity. Qed.

(** ** The input filter *)

Lemma validate_spec (w : world) (input_paths : list string) :
  forall (acc : list string) (s : state),
    validate w input_paths acc s =
    (Ok (acc ++ filter (valid_input w) input_paths),
     add_events s (flat_map (skip_warning w) input_paths)).
Proof.
  induction input_paths as [|path rest IH]; intros acc s; simpl.
  - rewrite app_nil_r, add_events_nil. reflexivity.
  - unfold valid_input, skip_warning.
    destruct (path_exists w path); simpl.
    + destruct (endswith (lower path) ".mp4"); simpl.
      * rewrite IH, <- app_assoc. reflexivity.
      * unfold bind. rewrite emit_run, IH, add_events_app. reflexivity.
    + unfold bind. rewrite emit_run, IH, add_events_app. reflexivity.
Qed.

(** ** The loading loop *)

Lemma opened_paths_app (a b : list event) :
  opened_paths (a ++ b) = opened_paths a ++ opened_paths b.
Proof. apply flat_map_app. Qed.

Lemma progress_nil (t : size) (paths : list string) (s : state) :
  progress t paths s s [] [].
Proof.
  constructor; simpl; try rewrite app_nil_r; auto.
  exists paths. reflexivity.
Qed.

(** One more iteration in front of a run on the remaining paths. *)
Lemma progress_step (t : size) (path : string) (rest : list string)
  (s s1 s' : state) (evs1 evs : list event) (new1 new : list clip) :
  trace s1 = trace s ++ evs1 ->
  video_clips s1 = video_clips s ++ new1 ->
  Forall load_event evs1 ->
  opened_paths evs1 = [path] ->
  Forall (fun c => clip_size c = t) new1 ->
  progress t rest s1 s' evs new ->
  progress t (path :: rest) s s' (evs1 ++ evs) (new1 ++ new).
Proof.
  intros Ht Hc He Ho Hs [Ht' Hc' He' [r Ho'] Hs'].
  constructor.
  - rewrite Ht', Ht, app_assoc. reflexivity.
  - rewrite Hc', Hc, app_assoc. reflexivity.
  - apply Forall_app; split; assumption.
  - exists r. rewrite opened_paths_app, Ho, Ho'. reflexivity.
  - apply Forall_app; split; assumption.
Qed.

(** The loop after its first iteration: [target_size] is set and is never
    assigned again. *)
Lemma load_clips_later (w : world) (width : option Z) (rf : float) (t : size)
  (paths : list string) :
  forall (i : nat) (s : state),
    (1 < i)%nat ->
    target_size s = Some t ->
    exists r s' evs new,
      load_clips w width rf i paths s = (r, s') /\
      progress t paths s s' evs new /\
      target_size s' = Some t /\
      (r = Ok tt ->
       opened_paths evs = paths /\ List.length new = List.length paths).
Proof.
  induction paths as [|path rest IH]; intros i s Hi Ht.
  - exists (Ok tt), s, [], []. simpl.
    split; [reflexivity|]. split; [apply progress_nil|].
    split; [exact Ht|]. intros _. split; reflexivity.
  - simpl. unfold VideoFileClip, external, fresh, emit. unfold_monad.
    destruct (raises w (CallVideoFileClip path)) as [e|] eqn:Eopen.
    { exists (Raise e), s, [], [].
      split; [reflexivity|]. split; [apply progress_nil|].
      split; [exact Ht|discriminate]. }
    simpl. destruct (Nat.eqb i 1) eqn:Ei; [apply Nat.eqb_eq in Ei; lia|].
    simpl. rewrite Ht.
    (* the clip is resized *)
    unfold resized, external, fresh, emit, append_clip. unfold_monad. simpl.
    destruct (raises w (CallResized (next_handle s))) as [e|] eqn:Eres.
    { eexists (Raise e), _, [Opened (next_handle s) path], [].
      split; [reflexivity|]. split; [|split; [reflexivity|discriminate]].
      constructor; simpl; try rewrite app_nil_r; auto.
      - repeat constructor.
      - exists rest. reflexivity. }
    simpl.
    match goal with |- context [load_clips w width rf (S i) rest ?s1] =>
      destruct (IH (S i) s1) as (r & s' & evs & new & Hrun & Hp & Ht' & Hok);
      [lia | reflexivity |]
    end.
    rewrite Hrun.
    exists r, s',
      ([Opened (next_handle s) path;
        Resized (next_handle s) (S (next_handle s)) t] ++ evs),
      ([mkClip (S (next_handle s)) t] ++ new).
    split; [reflexivity|]. split; [|split; [exact Ht'|]].
    + eapply progress_step; [ | | | | | exact Hp]; simpl; try reflexivity.
      * rewrite <- app_assoc. reflexivity.
      * repeat constructor.
      * repeat constructor.
    + intros Hr. destruct (Hok Hr) as [Ho Hl].
      rewrite opened_paths_app, length_app, Ho, Hl. split; reflexivity.
Qed.

(** The whole loop, entered with [i = 1]: the target size is computed from
    the first clip, and only from it. *)
Lemma load_clips_first (w : world) (width : option Z) (rf : float)
  (path : string) (rest : list string) (s : state) :
  exists r s' evs new t,
    load_clips w width rf 1 (path :: rest) s = (r, s') /\
    progress t (path :: rest) s s' evs new /\
    (new <> [] ->
     compute_target width (video_size w path) rf = Ok t /\
     target_size s' = Some t) /\
    (r = Ok tt ->
     opened_paths evs = path :: rest /\
     List.length new = List.length (path :: rest)).
Proof.
  simpl. unfold VideoFileClip, external, fresh, emit, set_target_size.
  unfold_monad.
  destruct (raises w (CallVideoFileClip path)) as [e|] eqn:Eopen.
  { exists (Raise e), s, [], [], (0, 0).
    split; [reflexivity|]. split; [apply progress_nil|].
    split; [congruence|discriminate]. }
  simpl.
  destruct (compute_target width (video_size w path) rf) as [t|e] eqn:Et.
  2:{ eexists (Raise e), _, [Opened (next_handle s) path], [], (0, 0).
      split; [reflexivity|]. split; [|split; [congruence|discriminate]].
      constructor; simpl; try rewrite app_nil_r; auto.
      - repeat constructor.
      - exists rest. reflexivity. }
  simpl.
  unfold resized, external, fresh, emit, append_clip. unfold_monad. simpl.
  destruct (raises w (CallResized (next_handle s))) as [e|] eqn:Eres.
  { eexists (Raise e), _, [Opened (next_handle s) path], [], t.
    split; [reflexivity|]. split; [|split; [congruence|discriminate]].
    constructor; simpl; try rewrite app_nil_r; auto.
    - repeat constructor.
    - exists rest. reflexivity. }
  simpl.
  match goal with |- context [load_clips w width rf 2 rest ?s1] =>
    destruct (load_clips_later w width rf t rest 2 s1)
      as (r & s' & evs & new & Hrun & Hp & Ht' & Hok);
    [lia | reflexivity |]
  end.
  rewrite Hrun.
  exists r, s',
    ([Opened (next_handle s) path;
      Resized (next_handle s) (S (next_handle s)) t] ++ evs),
    ([mkClip (S (next_handle s)) t] ++ new), t.
  split; [reflexivity|]. split; [|split].
  - eapply progress_step; [ | | | | | exact Hp]; simpl; try reflexivity.
    + rewrite <- app_assoc. reflexivity.
    + repeat constructor.
    + repeat constructor.
  - intros _. split; [reflexivity|exact Ht'].
  - intros Hr. destruct (Hok Hr) as [Ho Hl].
    rewrite opened_paths_app, length_app, Ho, Hl. split; reflexivity.
Qed.

(** ** Encoding and clean-up *)

Lemma appends_nil (P : event -> Prop) (s : state) : appends P s s [].
Proof. constructor; auto. rewrite app_nil_r. reflexivity. Qed.

Lemma appends_trans (P : event -> Prop) (s s1 s2 : state) (a b : list event) :
  appends P s s1 a -> appends P s1 s2 b -> appends P s s2 (a ++ b).
Proof.
  intros [Ta Ca Ga Ea] [Tb Cb Gb Eb]. constructor.
  - rewrite Tb, Ta, app_assoc. reflexivity.
  - congruence.
  - congruence.
  - apply Forall_app; split; assumption.
Qed.

Lemma appends_one (P : event -> Prop) (s : state) (n : handle) (e : event) :
  P e ->
  appends P s (mkState n (trace s ++ [e]) (video_clips s) (target_size s)) [e].
Proof. intros H. constructor; simpl; auto. Qed.

Lemma close_run (w : world) (c : clip) (s : state) :
  close w c s =
  match raises w (CallClose (clip_handle c)) with
  | Some e => (Raise e, s)
  | None => (Ok tt, add_events s [Closed (clip_handle c)])
  end.
Proof.
  unfold close, external, emit. unfold_monad.
  destruct (raises w (CallClose (clip_handle c))); reflexivity.
Qed.

Lemma try_pass_close_run (w : world) (c : clip) (s : state) :
  try_pass (close w c) s =
  match raises w (CallClose (clip_handle c)) with
  | Some e => (Ok tt, s)
  | None => (Ok tt, add_events s [Closed (clip_handle c)])
  end.
Proof.
  unfold try_pass. rewrite close_run.
  destruct (raises w (CallClose (clip_handle c))); reflexivity.
Qed.

Lemma add_events_appends (P : event -> Prop) (s : state) (evs : list event) :
  Forall P evs -> appends P s (add_events s evs) evs.
Proof. intros H. constructor; simpl; auto. Qed.

(** The clean-up loop of the normal path. *)
Lemma close_all (w : world) (P : event -> Prop) (clips : list clip) :
  (forall h, P (Closed h)) ->
  forall s, exists r s' evs,
    for_each clips (close w) s = (r, s') /\
    appends P s s' evs /\
    (r = Ok tt -> closed_handles evs = map clip_handle clips).
Proof.
  intros HP. induction clips as [|c clips IH]; intros s; simpl.
  - exists (Ok tt), s, []. split; [reflexivity|].
    split; [apply appends_nil|reflexivity].
  - unfold bind. rewrite close_run.
    destruct (raises w (CallClose (clip_handle c))) as [e|].
    + exists (Raise e), s, []. split; [reflexivity|].
      split; [apply appends_nil|discriminate].
    + destruct (IH (add_events s [Closed (clip_handle c)]))
        as (r & s' & evs & Hrun & Hap & Hok).
      rewrite Hrun. exists r, s', ([Closed (clip_handle c)] ++ evs).
      split; [reflexivity|]. split.
      * eapply appends_trans; [|exact Hap].
        apply add_events_appends. repeat constructor. apply HP.
      * intros Hr. simpl. rewrite (Hok Hr). reflexivity.
Qed.

(** The clean-up loop of the handler: it never raises, and it closes every
    clip whose [close] does not fail. *)
Lemma close_all_quietly (w : world) (P : event -> Prop) (clips : list clip) :
  (forall h, P (Closed h)) ->
  forall s, exists s' evs,
    for_each clips (fun c => try_pass (close w c)) s = (Ok tt, s') /\
    appends P s s' evs /\
    (forall c, In c clips -> raises w (CallClose (clip_handle c)) = None ->
               In (clip_handle c) (closed_handles evs)).
Proof.
  intros HP. induction clips as [|c clips IH]; intros s; simpl.
  - exists s, []. split; [reflexivity|].
    split; [apply appends_nil|]. intros c [].
  - unfold bind. rewrite try_pass_close_run.
    destruct (raises w (CallClose (clip_handle c))) as [e|] eqn:Ec.
    + destruct (IH s) as (s' & evs & Hrun & Hap & Hin).
      rewrite Hrun. exists s', evs. split; [reflexivity|]. split; [exact Hap|].
      intros c' [<-|Hc'] Hr; [congruence|]. apply Hin; assumption.
    + destruct (IH (add_events s [Closed (clip_handle c)]))
        as (s' & evs & Hrun & Hap & Hin).
      rewrite Hrun. exists s', ([Closed (clip_handle c)] ++ evs).
      split; [reflexivity|]. split.
      * eapply appends_trans; [|exact Hap].
        apply add_events_appends. repeat constructor. apply HP.
      * intros c' [<-|Hc'] Hr; simpl; [left; reflexivity|].
        right. apply Hin; assumption.
Qed.

Lemma encode_and_close_run (w : world) (clips : list clip)
  (output_path : string) (fps : Z) (s : state) :
  exists r s' evs,
    encode_and_close w clips output_path fps s = (r, s') /\
    appends (finish_event output_path fps) s s' evs /\
    (forall o, r = Ok o ->
       o = output_path /\ exists h, In (WroteGif h output_path fps 0) evs) /\
    (cooperative w -> r = Ok output_path).
Proof.
  set (P := finish_event output_path fps).
  assert (HPc : forall h, P (Closed h)) by (intros h; exact I).
  (* the tail shared by the one-clip and the many-clip case *)
  assert (Htail : forall (final : clip) (s0 : state),
    exists r s' evs,
      (write_gif w final output_path fps 0 ;;;
       for_each clips (close w) ;;;
       (if Nat.ltb 1 (List.length clips) then close w final else ret tt) ;;;
       getsize w ;;; ret output_path) s0 = (r, s') /\
      appends P s0 s' evs /\
      (forall o, r = Ok o ->
       o = output_path /\ exists h, In (WroteGif h output_path fps 0) evs) /\
      (cooperative w -> r = Ok output_path)).
  { intros final s0.
    unfold write_gif, external, getsize, emit. unfold_monad.
    destruct (raises w CallWriteGif) as [e|] eqn:Ew.
    { exists (Raise e), s0, []. split; [reflexivity|].
      split; [apply appends_nil|]. split; [discriminate|].
      intros Hc. rewrite Hc in Ew. discriminate. }
    simpl.
    match goal with |- context [for_each clips (close w) ?s1] =>
      destruct (close_all w P clips HPc s1) as (r1 & s1' & evs1 & Hrun & Hap & Hok);
      assert (Hap0 : appends P s0 s1
                [WroteGif (clip_handle final) output_path fps 0])
        by (apply appends_one; simpl; auto)
    end.
    rewrite Hrun. destruct r1 as [[]|e].
    2:{ eexists (Raise e), s1', _. split; [reflexivity|].
        split; [eapply appends_trans; eassumption|]. split; [discriminate|].
        intros Hc. exfalso. revert Hrun. clear - Hc.
        match goal with |- for_each _ _ ?s1 = _ -> _ => generalize s1 end.
        induction clips as [|c l IH]; intros s1; simpl; [discriminate|].
        unfold bind. rewrite close_run, Hc. apply IH. }
    assert (Hlast : exists r2 s2 evs2,
      (if Nat.ltb 1 (List.length clips) then close w final else ret tt) s1'
        = (r2, s2) /\ appends P s1' s2 evs2 /\
      (cooperative w -> r2 = Ok tt)).
    { destruct (Nat.ltb 1 (List.length clips)).
      - rewrite close_run.
        destruct (raises w (CallClose (clip_handle final))) as [e|] eqn:Ec.
        + exists (Raise e), s1', []. split; [reflexivity|].
          split; [apply appends_nil|]. intros Hc. rewrite Hc in Ec. discriminate.
        + eexists (Ok tt), _, _. split; [reflexivity|].
          split; [apply add_events_appends; repeat constructor|reflexivity].
      - exists (Ok tt), s1', []. split; [reflexivity|].
        split; [apply appends_nil|reflexivity]. }
    destruct Hlast as (r2 & s2 & evs2 & Hrun2 & Hap2 & Hok2).
    unfold ret in Hrun2. rewrite Hrun2. unfold external, raise, ret.
    destruct r2 as [[]|e].
    2:{ eexists (Raise e), s2, _. split; [reflexivity|].
        split; [eapply appends_trans; [eassumption|];
                eapply appends_trans; eassumption|].
        split; [discriminate|]. intros Hc. discriminate (Hok2 Hc). }
    destruct (raises w CallGetsize) as [e|] eqn:Eg.
    { eexists (Raise e), s2, _. split; [reflexivity|].
      split; [eapply appends_trans; [eassumption|];
              eapply appends_trans; eassumption|].
      split; [discriminate|]. intros Hc. rewrite Hc in Eg. discriminate. }
    eexists (Ok output_path), s2, _. split; [reflexivity|].
    split; [eapply appends_trans; [eassumption|];
            eapply appends_trans; eassumption|].
    split; [|reflexivity]. intros o Ho.
    split; [congruence|]. eexists. left. reflexivity. }
  assert (Hconcat : exists r s' evs,
    (final_video <- concatenate_videoclips w clips ;;
     write_gif w final_video output_path fps 0 ;;;
     for_each clips (close w) ;;;
     (if Nat.ltb 1 (List.length clips) then close w final_video else ret tt) ;;;
     getsize w ;;; ret output_path) s = (r, s') /\
    appends P s s' evs /\
    (forall o, r = Ok o ->
       o = output_path /\ exists h, In (WroteGif h output_path fps 0) evs) /\
    (cooperative w -> r = Ok output_path)).
  { unfold concatenate_videoclips, external, fresh, emit.
    unfold bind at 1 2 3 4. unfold ret at 1, raise at 1, modify at 1.
    destruct (raises w CallConcatenate) as [e|] eqn:Ec.
    { exists (Raise e), s, []. split; [reflexivity|].
      split; [apply appends_nil|]. split; [discriminate|].
      intros Hc. rewrite Hc in Ec. discriminate. }
    simpl.
    match goal with |- context [bind (write_gif w ?c _ _ _) _ ?s1] =>
      destruct (Htail c s1) as (r & s' & evs & Hrun & Hap & Ho & Hok)
    end.
    exists r, s', ([Concatenated (next_handle s) (map clip_handle clips)] ++ evs).
    split; [exact Hrun|]. split; [|split; [|assumption]].
    - eapply appends_trans; [|exact Hap]. apply appends_one. exact I.
    - intros o Hr. destruct (Ho o Hr) as [E [h Hin]].
      split; [exact E|]. exists h. right. exact Hin. }
  unfold encode_and_close.
  destruct clips as [|c [|c' l]]; try exact Hconcat.
  unfold bind at 1. unfold ret at 1. apply Htail.
Qed.

(** ** The whole conversion *)

Lemma load_clips_cooperative (w : world) (width : option Z) (rf : float)
  (paths : list string) :
  cooperative w ->
  forall i s,
    (1 <= i)%nat ->
    (i = 1%nat ->
     exists p rest t, paths = p :: rest /\
       compute_target width (video_size w p) rf = Ok t) ->
    ((1 < i)%nat -> exists t, target_size s = Some t) ->
    exists s', load_clips w width rf i paths s = (Ok tt, s').
Proof.
  intros Hc. induction paths as [|path rest IH]; intros i s Hi H1 H2; simpl.
  - eexists. reflexivity.
  - unfold VideoFileClip, resized, external, fresh, emit, set_target_size,
      append_clip. unfold_monad. rewrite !Hc. simpl.
    assert (Hnext : forall s1, (exists t, target_size s1 = Some t) ->
              exists s', load_clips w width rf (S i) rest s1 = (Ok tt, s')).
    { intros s1 Hs1. apply IH; [lia|lia|intros _; exact Hs1]. }
    destruct (Nat.eqb i 1) eqn:Ei.
    + apply Nat.eqb_eq in Ei.
      destruct (H1 Ei) as (p & r & t & Hp & Ht).
      injection Hp as <- <-. rewrite Ht. simpl.
      try rewrite Hc; simpl; apply Hnext; eexists; reflexivity.
    + apply Nat.eqb_neq in Ei. simpl.
      destruct H2 as [t Ht]; [lia|]. rewrite Ht.
      try rewrite Hc; simpl; apply Hnext; eexists; reflexivity.
Qed.

Lemma convert_handler_run (w : world) (P : event -> Prop) (e : exn) (s : state) :
  (forall h, P (Closed h)) ->
  exists s' evs,
    convert_handler w e s =
      (Raise (mkExn Exception ("Error converting MP4(s) to GIF: " ++ exn_msg e)%string), s') /\
    appends P s s' evs /\
    (forall c, In c (video_clips s) ->
               raises w (CallClose (clip_handle c)) = None ->
               In (clip_handle c) (closed_handles evs)).
Proof.
  intros HP. unfold convert_handler. unfold bind at 1 2. unfold get, raise.
  destruct (close_all_quietly w P (video_clips s) HP s) as (s' & evs & Hrun & Hap & Hin).
  rewrite Hrun. exists s', evs. split; [reflexivity|]. split; assumption.
Qed.

(** What the [except] clause makes of a failure of the [try] block. *)
Lemma except_run (w : world) (P : event -> Prop) (e : exn) (s : state) :
  (forall h, P (Closed h)) ->
  exists s' evs,
    (if is_Exception e then convert_handler w e s else (Raise e, s)) =
      (Raise (conversion_failure e), s') /\
    appends P s s' evs.
Proof.
  intros HP. unfold conversion_failure. destruct (is_Exception e).
  - destruct (convert_handler_run w P e s HP) as (s' & evs & Hrun & Hap & _).
    exists s', evs. split; assumption.
  - exists s, []. split; [reflexivity|apply appends_nil].
Qed.

Lemma convert_try_run (w : world) (first : string) (rest : list string)
  (output_path : string) (fps : Z) (width : option Z) (rf : float) (s : state) :
  exists r s' load_events finish_events t,
    try_except (convert_body w (first :: rest) output_path fps width rf)
               (convert_handler w) s = (r, s') /\
    conversion w (first :: rest) first output_path fps width rf s s' r
               load_events finish_events t.
Proof.
  set (P := finish_event output_path fps).
  assert (HPc : forall h, P (Closed h)) by (intros h; exact I).
  unfold try_except, convert_body, set_video_clips.
  unfold bind at 1 2. unfold modify at 1.
  set (s0 := mkState (next_handle s) (trace s) [] (target_size s)).
  destruct (load_clips_first w width rf first rest s0)
    as (r1 & s1 & evs & new & t & Hrun & Hp & Htgt & Hok).
  rewrite Hrun. destruct Hp as [Htr Hcl Hev Hop Hsz]. simpl in Htr, Hcl.
  destruct r1 as [[]|e].
  - (* the loop finished *)
    unfold bind at 1. unfold get at 1.
    destruct (encode_and_close_run w (video_clips s1) output_path fps s1)
      as (r2 & s2 & fevs & Hrun2 & [Htr2 Hcl2 Htg2 Hev2] & Ho & Hcoop).
    rewrite Hrun2. destruct (Hok eq_refl) as [Hopened Hlen].
    destruct r2 as [o|e].
    + destruct (Ho o eq_refl) as [-> Hwritten].
      exists (Ok output_path), s2, evs, fevs, t. split; [reflexivity|].
      constructor.
      * rewrite Htr2, Htr, app_assoc. reflexivity.
      * exact Hev.
      * exact Hop.
      * rewrite Hcl2, Hcl. exact Hsz.
      * rewrite Hcl2, Hcl, Htg2. exact Htgt.
      * exact Hev2.
      * left. split; [reflexivity|]. split; [exact Hopened|].
        rewrite Hcl2, Hcl. exact Hlen.
      * intros _. exact Hwritten.
      * reflexivity.
    + destruct (except_run w P e s2 HPc) as (s3 & cevs & Hrun3 & [Htr3 Hcl3 Htg3 Hev3]).
      rewrite Hrun3.
      exists (Raise (conversion_failure e)), s3, evs, (fevs ++ cevs), t.
      split; [reflexivity|]. constructor.
      * rewrite Htr3, Htr2, Htr, !app_assoc. reflexivity.
      * exact Hev.
      * exact Hop.
      * rewrite Hcl3, Hcl2, Hcl. exact Hsz.
      * rewrite Hcl3, Hcl2, Hcl, Htg3, Htg2. exact Htgt.
      * apply Forall_app; split; assumption.
      * right. exists e. reflexivity.
      * discriminate.
      * intros Hc _. discriminate (Hcoop Hc).
  - (* the loop raised *)
    destruct (except_run w P e s1 HPc) as (s3 & cevs & Hrun3 & [Htr3 Hcl3 Htg3 Hev3]).
    rewrite Hrun3.
    exists (Raise (conversion_failure e)), s3, evs, cevs, t.
    split; [reflexivity|]. constructor.
    + rewrite Htr3, Htr, app_assoc. reflexivity.
    + exact Hev.
    + exact Hop.
    + rewrite Hcl3, Hcl. exact Hsz.
    + rewrite Hcl3, Hcl, Htg3. exact Htgt.
    + exact Hev3.
    + right. exists e. reflexivity.
    + discriminate.
    + intros Hc [t' Ht']. exfalso.
      destruct (load_clips_cooperative w width rf (first :: rest) Hc 1%nat s0)
        as [s' Hs'].
      * lia.
      * intros _. exists first, rest, t'. split; [reflexivity|exact Ht'].
      * lia.
      * rewrite Hs' in Hrun. discriminate.
Qed.

(** The run of [convert_mp4_to_gif], from the filter on. *)
Lemma convert_mp4_to_gif_run (w : world) (input_paths : list string)
  (output_path : option string) (fps : Z) (width : option Z) (quality : string)
  (s : state) :
  let valid := filter (valid_input w) input_paths in
  let s0 := add_events s (flat_map (skip_warning w) input_paths) in
  let out := match output_path with
             | Some o => o
             | None => default_output_path valid
             end in
  match valid with
  | [] =>
      convert_mp4_to_gif w input_paths output_path fps width quality s =
      (Raise (mkExn FileNotFoundError "No valid MP4 files found"), s0)
  | first :: _ =>
      exists r s' load_events finish_events t,
        convert_mp4_to_gif w input_paths output_path fps width quality s
          = (r, s') /\
        conversion w valid first out (fst (resolve_quality quality fps)) width
          (snd (resolve_quality quality fps)) s0 s' r
          load_events finish_events t
  end.
Proof.
  intros valid s0 out.
  assert (Hv : validate w input_paths [] s = (Ok valid, s0))
    by (rewrite validate_spec; reflexivity).
  subst out. clearbody valid s0.
  destruct valid as [|first rest].
  - unfold convert_mp4_to_gif, bind. rewrite Hv. reflexivity.
  - unfold convert_mp4_to_gif. unfold bind at 1. rewrite Hv.
    destruct (resolve_quality quality fps) as [fps' rf]. simpl fst. simpl snd.
    apply convert_try_run.
Qed.

(** C1.  The converter keeps exactly the paths that exist and whose
    lowercased name ends with [".mp4"], and warns once about each of the
    others.  Only kept paths are ever opened, in their order.  With no kept
    path the call raises [FileNotFoundError] and nothing is opened; with at
    least one, the call never raises [FileNotFoundError], and it returns the
    output path whenever the media libraries and the geometry computation
    do not fail. *)
Theorem C1_input_filter (w : world) (input_paths : list string)
  (output_path : option string) (fps : Z) (width : option Z) (quality : string) :
  let valid := filter (valid_input w) input_paths in
  let warnings := flat_map (skip_warning w) input_paths in
  exists r s' later_events,
    convert_mp4_to_gif w input_paths output_path fps width quality initial
      = (r, s') /\
    trace s' = warnings ++ later_events /\
    (forall path, In path input_paths -> valid_input w path = false ->
       In (WarnNotFound path) warnings \/ In (WarnNotMp4 path) warnings) /\
    (forall path, In path input_paths -> valid_input w path = true ->
       ~ In (WarnNotFound path) warnings /\ ~ In (WarnNotMp4 path) warnings) /\
    (exists not_opened, valid = opened_paths later_events ++ not_opened) /\
    match valid with
    | [] =>
        r = Raise (mkExn FileNotFoundError "No valid MP4 files found") /\
        later_events = []
    | first :: _ =>
        ((exists out, r = Ok out /\ opened_paths later_events = valid) \/
         (exists e, r = Raise (conversion_failure e))) /\
        (cooperative w ->
         (exists t, compute_target width (video_size w first)
                      (snd (resolve_quality quality fps)) = Ok t) ->
         exists out, r = Ok out /\ opened_paths later_events = valid)
    end.
Proof.
  intros valid warnings.
  assert (Hskip : forall path, In path input_paths -> valid_input w path = false ->
    In (WarnNotFound path) warnings \/ In (WarnNotMp4 path) warnings).
  { intros path Hin Hv. unfold warnings.
    unfold valid_input in Hv. apply andb_false_iff in Hv.
    destruct (path_exists w path) eqn:Ex.
    - right. apply in_flat_map. exists path. split; [exact Hin|].
      unfold skip_warning. rewrite Ex. destruct Hv as [Hv|Hv]; [discriminate|].
      rewrite Hv. simpl. left. reflexivity.
    - left. apply in_flat_map. exists path. split; [exact Hin|].
      unfold skip_warning. rewrite Ex. simpl. left. reflexivity. }
  assert (Hkeep : forall path, In path input_paths -> valid_input w path = true ->
    ~ In (WarnNotFound path) warnings /\ ~ In (WarnNotMp4 path) warnings).
  { intros path _ Hv. unfold valid_input in Hv. apply andb_prop in Hv.
    destruct Hv as [Hex Hext].
    split; intros Hw; apply in_flat_map in Hw; destruct Hw as [q [_ Hq]];
      unfold skip_warning in Hq;
      destruct (path_exists w q) eqn:Eq; simpl in Hq;
      try (destruct (endswith (lower q) ".mp4") eqn:Eq'; simpl in Hq);
      try contradiction;
      destruct Hq as [Hq|[]]; try discriminate;
      injection Hq as ->; congruence. }
  pose proof (convert_mp4_to_gif_run w input_paths output_path fps width
                quality initial) as Hrun.
  cbv zeta in Hrun. fold valid in Hrun. fold warnings in Hrun.
  destruct valid as [|first rest] eqn:Ev.
  - eexists _, _, []. split; [exact Hrun|].
    split; [simpl; rewrite app_nil_r; reflexivity|].
    split; [exact Hskip|]. split; [exact Hkeep|].
    split; [exists []; reflexivity|]. split; reflexivity.
  - destruct Hrun as (r & s' & le & fe & t & Hrun & Hcv).
    destruct Hcv as [Htr _ Hop _ _ Hfin Hres _ Hsucc]. simpl in Htr.
    assert (Hfe : opened_paths fe = []).
    { clear - Hfin. induction Hfin as [|e l He _ IH]; [reflexivity|].
      unfold opened_paths in *. simpl. rewrite IH.
      destruct e; simpl in *; try contradiction; reflexivity. }
    assert (Hle : opened_paths (le ++ fe) = opened_paths le).
    { rewrite opened_paths_app, Hfe, app_nil_r. reflexivity. }
    exists r, s', (le ++ fe). split; [exact Hrun|]. split; [exact Htr|].
    split; [exact Hskip|]. split; [exact Hkeep|].
    rewrite Hle. split; [exact Hop|]. split.
    + destruct Hres as [(Hr & Ho & _)|He]; [left|right; exact He].
      eexists. split; [exact Hr|exact Ho].
    + intros Hc Ht. pose proof (Hsucc Hc Ht) as Hr.
      destruct Hres as [(_ & Ho & _)|[e He]]; [|congruence].
      eexists. split; [exact Hr|exact Ho].
Qed.

Lemma C1_input_filter_witness :
  exists out s',
    convert_mp4_to_gif mixed_inputs_world
      ["missing.mp4"; "notes.txt"; "clip.mp4"] None 10 None "medium" initial
    = (Ok out, s') /\
    opened_paths (trace s') = ["clip.mp4"].
Proof.
  destruct (C1_input_filter mixed_inputs_world
              ["missing.mp4"; "notes.txt"; "clip.mp4"] None 10 None "medium")
    as (r & s' & later & Hrun & Htr & _ & _ & _ & _ & Hsucc).
  destruct Hsucc as (out & Hr & Ho).
  - intros c. reflexivity.
  - eexists. vm_compute. reflexivity.
  - exists out, s'. split; [rewrite Hrun, Hr; reflexivity|].
    rewrite Htr, opened_paths_app, Ho. reflexivity.
Defined.

(** ** The frame rate *)

Lemma skip_warning_not_written (w : world) (paths : list string)
  (h : handle) (o : string) (f l : Z) :
  ~ In (WroteGif h o f l) (flat_map (skip_warning w) paths).
Proof.
  intros Hin. apply in_flat_map in Hin. destruct Hin as [q [_ Hq]].
  unfold skip_warning in Hq.
  destruct (negb (path_exists w q)); [destruct Hq as [Hq|[]]; discriminate|].
  destruct (negb (endswith (lower q) ".mp4")); [|contradiction].
  destruct Hq as [Hq|[]]; discriminate.
Qed.

(** Every encoding a run asks for uses the resolved frame rate and an
    infinite repeat count, and a run that returns has asked for one. *)
Lemma convert_writes (w : world) (input_paths : list string)
  (output_path : option string) (fps : Z) (width : option Z) (quality : string)
  (r : result string) (s' : state) :
  convert_mp4_to_gif w input_paths output_path fps width quality initial
    = (r, s') ->
  (forall h o f l, In (WroteGif h o f l) (trace s') ->
     f = fst (resolve_quality quality fps) /\ l = 0) /\
  (forall out, r = Ok out ->
     exists h, In (WroteGif h out (fst (resolve_quality quality fps)) 0)
                  (trace s')).
Proof.
  intros Hrun.
  pose proof (convert_mp4_to_gif_run w input_paths output_path fps width
                quality initial) as H.
  cbv zeta in H.
  destruct (filter (valid_input w) input_paths) as [|first rest].
  - rewrite Hrun in H. injection H as -> ->. split.
    + intros h o f l Hin. simpl in Hin.
      exfalso. eapply skip_warning_not_written. exact Hin.
    + discriminate.
  - destruct H as (r0 & s0 & le & fe & t & Hrun0 & Hcv).
    rewrite Hrun in Hrun0. injection Hrun0 as <- <-.
    destruct Hcv as [Htr Hload _ _ _ Hfin Hres Hwr _]. simpl in Htr.
    split.
    + intros h o f l Hin. rewrite Htr in Hin.
      apply in_app_or in Hin. destruct Hin as [Hin|Hin].
      { exfalso. eapply skip_warning_not_written. exact Hin. }
      apply in_app_or in Hin. destruct Hin as [Hin|Hin].
      * rewrite Forall_forall in Hload. apply Hload in Hin. contradiction.
      * rewrite Forall_forall in Hfin. apply Hfin in Hin. simpl in Hin. tauto.
    + intros out Hr.
      destruct Hres as [(Hr' & _)|[e He]]; [|congruence].
      assert (out = match output_path with
                    | Some o => o
                    | None => default_output_path (first :: rest)
                    end) as -> by congruence.
      destruct (Hwr Hr) as [h Hh]. exists h. rewrite Htr.
      apply in_or_app. right. apply in_or_app. right. exact Hh.
Qed.

(** C3.  For each of the three presets and every [fps] argument: the
    preset's frame rate is taken when the argument is 10, the argument
    itself when it is not, and the preset's scale factor in both cases.  (So
    the resolved rate equals the preset's exactly when the argument is 10
    or already is the preset's rate.)  The resolved rate is the one every
    encoding of the run is asked for. *)
Theorem C3_preset_frame_rate (quality : string) (preset_fps : Z)
  (preset_scale : float) (fps : Z) :
  In (quality, (preset_fps, preset_scale))
     [("low", (8, float_literal 5 10));
      ("medium", (10, float_literal 7 10));
      ("high", (15, float_literal 10 10))] ->
  let resolved := resolve_quality quality fps in
  (fps = 10 -> fst resolved = preset_fps) /\
  (fps <> 10 -> fst resolved = fps) /\
  snd resolved = preset_scale /\
  (fst resolved = preset_fps <-> fps = 10 \/ fps = preset_fps) /\
  (forall w input_paths output_path width r s',
     convert_mp4_to_gif w input_paths output_path fps width quality initial
       = (r, s') ->
     (forall h o f l, In (WroteGif h o f l) (trace s') ->
        f = fst resolved /\ l = 0) /\
     (forall out, r = Ok out ->
        exists h, In (WroteGif h out (fst resolved) 0) (trace s'))).
Proof.
  intros Hin resolved.
  assert (Hres : resolved = (if fps =? 10 then preset_fps else fps, preset_scale)).
  { simpl in Hin.
    destruct Hin as [H|[H|[H|[]]]]; injection H as <- <- <-; reflexivity. }
  split; [|split; [|split; [|split]]].
  - intros ->. rewrite Hres. reflexivity.
  - intros Hne. rewrite Hres. simpl.
    destruct (fps =? 10) eqn:E; [apply Z.eqb_eq in E; contradiction|reflexivity].
  - rewrite Hres. reflexivity.
  - rewrite Hres. simpl. destruct (fps =? 10) eqn:E.
    + apply Z.eqb_eq in E. tauto.
    + apply Z.eqb_neq in E. split; [auto|]. intros [H|H]; [contradiction|exact H].
  - intros w input_paths output_path width r s' Hrun.
    exact (convert_writes w input_paths output_path fps width quality r s' Hrun).
Qed.

Lemma C3_preset_frame_rate_witness :
  fst (resolve_quality "low" 10) = 8 /\
  fst (resolve_quality "low" 12) = 12 /\
  snd (resolve_quality "low" 12) = float_literal 5 10.
Proof.
  destruct (C3_preset_frame_rate "low" 8 (float_literal 5 10) 10)
    as (H10 & _); [simpl; auto|].
  destruct (C3_preset_frame_rate "low" 8 (float_literal 5 10) 12)
    as (_ & H12 & Hs & _); [simpl; auto|].
  split; [apply H10; reflexivity|]. split; [apply H12; discriminate|exact Hs].
Defined.

(** ** Glob expansion *)

Lemma expand_inputs_spec (w : world) (patterns : list string) :
  forall (acc : list string) (s : state),
    expand_inputs w patterns acc s =
    (Ok (acc ++ flat_map (expansion w) patterns),
     add_events s (flat_map (no_match_warning w) patterns)).
Proof.
  induction patterns as [|pattern rest IH]; intros acc s; simpl.
  - rewrite app_nil_r, add_events_nil. reflexivity.
  - unfold expansion, no_match_warning, has_glob_char.
    destruct (contains_char "*" pattern || contains_char "?" pattern)%bool.
    + destruct (glob w pattern) as [|m ms] eqn:Eg.
      * unfold bind. rewrite emit_run, IH, add_events_app. reflexivity.
      * rewrite IH, <- app_assoc. reflexivity.
    + rewrite IH, <- app_assoc. reflexivity.
Qed.

Lemma no_match_warning_not_opened (w : world) (patterns : list string) :
  opened_paths (flat_map (no_match_warning w) patterns) = [].
Proof.
  induction patterns as [|p l IH]; [reflexivity|].
  simpl. rewrite opened_paths_app, IH, app_nil_r.
  unfold no_match_warning.
  destruct (has_glob_char p); [|reflexivity].
  destruct (glob w p); reflexivity.
Qed.

Lemma skip_warning_not_opened (w : world) (paths : list string) :
  opened_paths (flat_map (skip_warning w) paths) = [].
Proof.
  induction paths as [|p l IH]; [reflexivity|].
  simpl. rewrite opened_paths_app, IH, app_nil_r.
  unfold skip_warning.
  destruct (negb (path_exists w p)); [reflexivity|].
  destruct (negb (endswith (lower p) ".mp4")); reflexivity.
Qed.

Lemma finish_events_not_opened (output_path : string) (fps : Z)
  (evs : list event) :
  Forall (finish_event output_path fps) evs -> opened_paths evs = [].
Proof.
  induction 1 as [|e l He _ IH]; [reflexivity|].
  unfold opened_paths in *. simpl. rewrite IH.
  destruct e; simpl in *; try contradiction; reflexivity.
Qed.

(** A run of [main] that exits with status 0 has opened the valid files of
    the expanded list, in the order of that list. *)
Lemma main_opens_in_order (w : world) (a : args) (s' : state) :
  main w a = (0, s') ->
  opened_paths (trace s') =
  filter (valid_input w) (flat_map (expansion w) (inputs a)).
Proof.
  set (expanded := flat_map (expansion w) (inputs a)).
  set (s0 := add_events initial (flat_map (no_match_warning w) (inputs a))).
  assert (Hexp : expand_inputs w (inputs a) [] initial = (Ok expanded, s0))
    by (rewrite expand_inputs_spec; reflexivity).
  unfold main, main_body, try_except. unfold bind at 1. rewrite Hexp.
  destruct expanded as [|x xs] eqn:Ex.
  { unfold sys_exit, raise. simpl. discriminate. }
  rewrite <- Ex. clear Hexp.
  set (warn := if forallb (fun f => negb (endswith (lower f) ".mp4")) expanded
               then emit WarnNoMp4Inputs else ret tt).
  assert (Hwarn : exists evs, warn s0 = (Ok tt, add_events s0 evs) /\
                              opened_paths evs = []).
  { unfold warn. destruct (forallb _ expanded).
    - exists [WarnNoMp4Inputs]. split; reflexivity.
    - exists []. rewrite add_events_nil. split; reflexivity. }
  destruct Hwarn as (wevs & Hwarn & Hwo).
  unfold bind at 1. rewrite Hwarn. unfold bind at 1.
  pose proof (convert_mp4_to_gif_run w expanded (output a) (arg_fps a)
                (arg_width a) (arg_quality a) (add_events s0 wevs)) as H.
  cbv zeta in H.
  destruct (filter (valid_input w) expanded) as [|first rest] eqn:Ev.
  - rewrite H. simpl. unfold bind, emit, modify, sys_exit, raise. simpl.
    discriminate.
  - destruct H as (r & s1 & le & fe & t & Hrun & Hcv). rewrite Hrun.
    destruct Hcv as [Htr _ _ _ _ Hfin Hres _ _].
    destruct Hres as [(-> & Ho & _)|[e ->]].
    + unfold getsize, external.
      destruct (raises w CallGetsize) as [e|].
      * unfold raise.
        destruct (is_Exception e);
          unfold bind, emit, modify, sys_exit, raise, ret; simpl;
          try destruct (exn_class_eqb (exn_cls e) FileNotFoundError);
          discriminate.
      * unfold ret. intros Hm. injection Hm as <-.
        rewrite Htr. simpl trace.
        rewrite !opened_paths_app, no_match_warning_not_opened, Hwo,
          skip_warning_not_opened, Ho.
        rewrite (finish_events_not_opened _ _ _ Hfin), !app_nil_r.
        reflexivity.
    + destruct (is_Exception (conversion_failure e));
        unfold bind, emit, modify, sys_exit, raise, ret; simpl;
        try destruct (exn_class_eqb (exn_cls (conversion_failure e))
                        FileNotFoundError);
        discriminate.
Qed.

(** C9.  The processing list is, input by input: for an input containing
    ['*'] or ['?'], the files it matches in sorted order (a permutation of
    what [glob] enumerated, whatever its order); for any other input, the
    input itself, at its place.  A run that succeeds has opened the valid
    files in the order of that list. *)
Theorem C9_glob_matches_sorted (w : world) (patterns : list string) (s : state) :
  fst (expand_inputs w patterns [] s) = Ok (flat_map (expansion w) patterns) /\
  (forall pattern,
     (if has_glob_char pattern
      then Sorted le_str (expansion w pattern) /\
           Permutation (glob w pattern) (expansion w pattern)
      else expansion w pattern = [pattern])) /\
  (forall a s', inputs a = patterns -> main w a = (0, s') ->
     opened_paths (trace s') =
     filter (valid_input w) (flat_map (expansion w) patterns)).
Proof.
  split; [|split].
  - rewrite expand_inputs_spec. reflexivity.
  - intros pattern. unfold expansion. destruct (has_glob_char pattern).
    + split; [apply sorted_sorted|apply sorted_perm].
    + reflexivity.
  - intros a s' <- Hm. apply main_opens_in_order. exact Hm.
Qed.

Lemma C9_glob_matches_sorted_witness :
  opened_paths
    (trace (snd (main unordered_glob_world
                   (mkArgs ["intro.mp4"; "part*.mp4"; "end.mp4"]
                           None 10 None "medium")))) =
  ["intro.mp4"; "part1.mp4"; "part10.mp4"; "part2.mp4"; "end.mp4"].
Proof.
  destruct (C9_glob_matches_sorted unordered_glob_world
              ["intro.mp4"; "part*.mp4"; "end.mp4"] initial) as (_ & _ & H).
  rewrite (H (mkArgs ["intro.mp4"; "part*.mp4"; "end.mp4"] None 10 None "medium")
             (snd (main unordered_glob_world
                     (mkArgs ["intro.mp4"; "part*.mp4"; "end.mp4"]
                             None 10 None "medium")))).
  - reflexivity.
  - reflexivity.
  - vm_compute. reflexivity.
Defined.

(** ** Releasing the clips *)

(** C7.  The run on two files whose encoding fails: the two files are
    opened (handles 0 and 2), resized (1 and 3) and concatenated (4); the
    encoder raises; the handler closes the clips of [video_clips] (1 and 3)
    and re-raises.  The concatenated clip is never closed.  On the same
    input with a working encoder the normal path closes it.  (On both paths
    [close] is called on the resized copies, not on the clips 0 and 2 they
    were made from.) *)
Theorem C7_concatenated_clip_not_closed_on_error :
  let failed := convert_mp4_to_gif encoder_fails_world ["a.mp4"; "b.mp4"]
                  None 10 None "medium" initial in
  let passed := convert_mp4_to_gif encoder_works_world ["a.mp4"; "b.mp4"]
                  None 10 None "medium" initial in
  fst failed = Raise (mkExn Exception
    "Error converting MP4(s) to GIF: No space left on device") /\
  created_handles (trace (snd failed)) = [0; 1; 2; 3; 4]%nat /\
  flat_map concatenated_handle (trace (snd failed)) = [4%nat] /\
  closed_handles (trace (snd failed)) = [1; 3]%nat /\
  left_open (trace (snd failed)) = [0; 2; 4]%nat /\
  fst passed = Ok "combined_video.gif" /\
  closed_handles (trace (snd passed)) = [1; 3; 4]%nat /\
  left_open (trace (snd passed)) = [0; 2]%nat.
Proof. vm_compute. repeat split; auto. Qed.

(** C10.  The extension filter compares the lowercased path: an existing
    path whose lowercased name ends with [".mp4"], whatever the case of its
    letters, is kept among the valid inputs. *)
Theorem C10_extension_filter_ignores_case
  (w : world) (input_paths : list string) (path : string) (s : state) :
  In path input_paths ->
  path_exists w path = true ->
  endswith (lower path) ".mp4" = true ->
  exists valid_paths s',
    validate w input_paths [] s = (Ok valid_paths, s') /\
    In path valid_paths /\
    ~ In (WarnNotMp4 path) (flat_map (skip_warning w) input_paths) /\
    trace s' = trace s ++ flat_map (skip_warning w) input_paths.
Proof.
  intros Hin Hex Hext.
  rewrite validate_spec. do 2 eexists. split; [reflexivity|]. split; [|split].
  - simpl. apply filter_In. split; [exact Hin|].
    unfold valid_input. rewrite Hex, Hext. reflexivity.
  - intros Hw. apply in_flat_map in Hw. destruct Hw as [q [_ Hq]].
    unfold skip_warning in Hq.
    destruct (path_exists w q); simpl in Hq.
    + destruct (endswith (lower q) ".mp4") eqn:E; simpl in Hq.
      * exact Hq.
      * destruct Hq as [Hq|[]]. injection Hq as ->. congruence.
    + destruct Hq as [Hq|[]]. discriminate.
  - reflexivity.
Qed.

Lemma C10_extension_filter_ignores_case_witness :
  exists valid_paths s',
    validate upper_case_world ["clip.MP4"; "notes.txt"; "b.Mp4"] [] initial
      = (Ok valid_paths, s') /\
    In "clip.MP4" valid_paths /\
    ~ In (WarnNotMp4 "clip.MP4")
         (flat_map (skip_warning upper_case_world)
                   ["clip.MP4"; "notes.txt"; "b.Mp4"]) /\
    trace s' = trace initial ++
               flat_map (skip_warning upper_case_world)
                        ["clip.MP4"; "notes.txt"; "b.Mp4"].
Proof.
  apply (C10_extension_filter_ignores_case upper_case_world
           ["clip.MP4"; "notes.txt"; "b.Mp4"] "clip.MP4" initial).
  - simpl. left. reflexivity.
  - reflexivity.
  - reflexivity.
Defined.

(** ** C2: the target geometry *)





(** Why the theorem below bounds the dimensions: the product is a binary64
    product, and from [2^52] on its rounding is coarser than the tenths of
    the scale factor.  No decoder delivers a clip of such a size (a single
    row of it would not fit in memory), so the bound excludes no clip that
    [VideoFileClip] can return. *)
Remark product_rounding_beyond_2_52 :
  compute_target None (6433713753386437, 480) (float_literal 7 10)
    = Ok (4503599627370506, 336) /\
  ~ (10 * 4503599627370506 <= 7 * 6433713753386437).
Proof. split; [vm_compute; reflexivity|lia]. Qed.



End GifCreatorSpec.

(* ================================================================== *)
(** * gif_looper.py: properties *)
(* ================================================================== *)

Module GifLooperSpec.
Import Py GifLooper PyFacts.
Local Open Scope list_scope.

(** ** The rewriter at work *)

(** A path that does not exist: [FileNotFoundError], exit status 1, nothing
    opened or written. *)
Example missing_input :
  make_gif_loop (mkWorld posix_sep (fun _ => false) (fun _ => Ok looping_image)
                         None None) "gone.gif" None []
  = (Raise (mkExn FileNotFoundError "Input file not found: gone.gif"), []) /\
  main (mkWorld posix_sep (fun _ => false) (fun _ => Ok looping_image)
                None None) "gone.gif" None
  = (1, [PrintedError "Input file not found: gone.gif"]).
Proof. split; reflexivity. Qed.

(** ** The frame loop *)



(** ** The body of the [with] block *)

Lemma loop_body_run (w : world) (output_path : string) (img : image)
  (s : state) :
  loop_body w output_path img s =
  match read_frames (img_slots img) [] [] with
  | Raise e => (Raise e, s ++ format_warning img)
  | Ok ([], _) =>
      (Raise (mkExn ValueError "No frames found in the input file"),
       s ++ format_warning img)
  | Ok (first :: others, durations) =>
      match save_raises w with
      | Some e => (Raise e, s ++ format_warning img)
      | None =>
          (match getsize_raises w with
           | Some e => Raise e
           | None => Ok output_path
           end,
           (s ++ format_warning img) ++
           [Saved output_path first others durations 0 true])
      end
  end.
Proof.
  unfold loop_body, format_warning, emit. unfold bind, lift, modify, ret, raise.
  assert (Hs : forall tr : state,
            (if negb (String.eqb (img_format img) "GIF")
             then fun tr0 : state => (Ok tt, tr0 ++ [WarnFormat (img_format img)])
             else fun s0 : state => (@Ok unit tt, s0)) tr =
            (Ok tt, tr ++ (if negb (String.eqb (img_format img) "GIF")
                           then [WarnFormat (img_format img)] else []))).
  { intros tr. destruct (negb (String.eqb (img_format img) "GIF"));
      [reflexivity|rewrite app_nil_r; reflexivity]. }
  rewrite Hs.
  destruct (read_frames (img_slots img) [] []) as [[frames durations]|e];
    [|reflexivity].
  destruct frames as [|first others]; [reflexivity|].
  destruct (save_raises w); [reflexivity|].
  destruct (getsize_raises w); reflexivity.
Qed.

(** The run of [make_gif_loop] on a file that exists and opens. *)
Lemma make_gif_loop_run (w : world) (input_path : string)
  (output_path : option string) (img : image) (s : state) :
  path_exists w input_path = true ->
  image_open w input_path = Ok img ->
  let out := match output_path with
             | Some o => o
             | None => default_output_path w input_path
             end in
  make_gif_loop w input_path output_path s =
  match loop_body w out img (s ++ [OpenedImage input_path]) with
  | (Ok o, s') => (Ok o, s' ++ [ClosedImage input_path])
  | (Raise e, s') =>
      (if is_Exception e
       then Raise (mkExn Exception ("Error processing GIF: " ++ exn_msg e)%string)
       else Raise e,
       s' ++ [ClosedImage input_path])
  end.
Proof.
  intros Hex Hop out. unfold make_gif_loop. rewrite Hex. cbn [negb].
  fold out. unfold try_except, with_image_open, emit.
  unfold bind, lift, modify, raise. rewrite Hop.
  destruct (loop_body w out img (s ++ [OpenedImage input_path])) as [[o|e] s'];
    [reflexivity|].
  destruct (is_Exception e); reflexivity.
Qed.

(** The trace of a run, whatever the world. *)
Lemma make_gif_loop_trace (w : world) (input_path : string)
  (output_path : option string) :
  let out := match output_path with
             | Some o => o
             | None => default_output_path w input_path
             end in
  snd (make_gif_loop w input_path output_path []) =
  if negb (path_exists w input_path) then []
  else match image_open w input_path with
       | Raise _ => []
       | Ok img =>
           snd (loop_body w out img [OpenedImage input_path]) ++
           [ClosedImage input_path]
       end.
Proof.
  intros out. destruct (path_exists w input_path) eqn:Hex.
  - destruct (image_open w input_path) as [img|e] eqn:Hop.
    + rewrite (make_gif_loop_run w input_path output_path img [] Hex Hop).
      fold out. simpl app.
      destruct (loop_body w out img [OpenedImage input_path]) as [[o|e] s'];
        reflexivity.
    + unfold make_gif_loop. rewrite Hex. cbn [negb].
      unfold try_except, with_image_open, bind, lift, raise. rewrite Hop.
      destruct (is_Exception e); reflexivity.
  - unfold make_gif_loop. rewrite Hex. reflexivity.
Qed.

Lemma saved_paths_app (a b : list event) :
  saved_paths (a ++ b) = saved_paths a ++ saved_paths b.
Proof. apply flat_map_app. Qed.

Lemma format_warning_not_saved (img : image) :
  saved_paths (format_warning img) = [].
Proof.
  unfold format_warning.
  destruct (negb (String.eqb (img_format img) "GIF")); reflexivity.
Qed.

(** ** The file written *)









(** ** C4: frames and their durations *)





(** ** C5: no frames, no output *)

Ltac split_in H :=
  repeat match type of H with
         | In _ (_ ++ _) => apply in_app_or in H; destruct H as [H|H]
         | In _ (_ :: _) => destruct H as [H|H]
         | In _ [] => destruct H
         end.

(** The exit status and the trace of [main], from those of [make_gif_loop]. *)
Lemma main_run (w : world) (input : string) (output : option string) :
  main w input output =
  match make_gif_loop w input output [] with
  | (Ok _, tr) => (0, tr)
  | (Raise e, tr) =>
      (1, if is_Exception e then tr ++ [PrintedError (exn_msg e)] else tr)
  end.
Proof.
  unfold main, main_body, try_except. unfold bind at 1.
  destruct (make_gif_loop w input output []) as [[o|e] tr]; [reflexivity|].
  destruct (is_Exception e); reflexivity.
Qed.

(** C5.  When the frame loop ends with no frame, [make_gif_loop] raises the
    "No frames found" failure (wrapped as every failure of its [try]
    block), [main] prints it and exits with status 1, and nothing is saved.
    In every run, a file is saved only with the complete sequence of frames
    and durations the loop has produced. *)
Theorem C5_no_frames_no_output (w : world) (input : string)
  (output : option string) :
  (forall img durations,
     path_exists w input = true ->
     image_open w input = Ok img ->
     read_frames (img_slots img) [] [] = Ok ([], durations) ->
     fst (make_gif_loop w input output []) =
       Raise (mkExn Exception
                "Error processing GIF: No frames found in the input file") /\
     saved_paths (snd (make_gif_loop w input output [])) = [] /\
     fst (main w input output) = 1 /\
     saved_paths (snd (main w input output)) = [] /\
     In (PrintedError "Error processing GIF: No frames found in the input file")
        (snd (main w input output))) /\
  (forall out first others durations loop optimize,
     In (Saved out first others durations loop optimize)
        (snd (make_gif_loop w input output [])) ->
     exists img,
       image_open w input = Ok img /\
       read_frames (img_slots img) [] [] = Ok (first :: others, durations) /\
       loop = 0).
Proof.
  split.
  - intros img durations Hex Hop Hread.
    pose proof (make_gif_loop_run w input output img [] Hex Hop) as Hrun.
    cbv zeta in Hrun. rewrite loop_body_run, Hread in Hrun. simpl in Hrun.
    rewrite main_run, Hrun. simpl.
    rewrite !saved_paths_app, format_warning_not_saved.
    split; [reflexivity|]. split; [reflexivity|]. split; [reflexivity|].
    split; [reflexivity|].
    right. apply in_or_app. right. left. reflexivity.
  - intros out first others durations loop optimize Hin.
    rewrite make_gif_loop_trace in Hin.
    destruct (negb (path_exists w input)); [contradiction|].
    destruct (image_open w input) as [img|e]; [|contradiction].
    exists img. split; [reflexivity|].
    rewrite loop_body_run in Hin.
    assert (Hw : ~ In (Saved out first others durations loop optimize)
                      (format_warning img)).
    { intros H. unfold format_warning in H.
      destruct (negb (String.eqb (img_format img) "GIF")); [|contradiction].
      destruct H as [H|[]]. discriminate. }
    destruct (read_frames (img_slots img) [] []) as [[[|f fs] ds]|e];
      [| destruct (save_raises w) |];
      simpl snd in Hin; split_in Hin;
      try discriminate; try (exfalso; exact (Hw Hin)).
    injection Hin as <- <- <- <- <- <-. split; reflexivity.
Qed.

Lemma C5_no_frames_no_output_witness :
  fst (main empty_world "empty.gif" None) = 1 /\
  saved_paths (snd (main empty_world "empty.gif" None)) = [].
Proof.
  destruct (C5_no_frames_no_output empty_world "empty.gif" None) as [H _].
  destruct (H empty_image []) as (_ & _ & Hstatus & Hsaved & _);
    try reflexivity.
  split; [exact Hstatus|exact Hsaved].
Defined.

(** ** C6: running the rewriter again *)







(** ** C8: the default output path *)

(** C8 with the input's own extension kept fails: the extension written is
    always [".gif"]. *)
Lemma C8_extension_not_preserved :
  default_output_path posix_world "anim.GIF" = "anim_looped.gif"%string /\
  default_output_path posix_world "anim.GIF" <>
    (fst (splitext posix_sep "anim.GIF") ++ "_looped" ++
     snd (splitext posix_sep "anim.GIF"))%string.
Proof. split; [reflexivity|]. vm_compute. discriminate. Qed.

(** C8 (amended).  The default output path is the input path with its
    extension, as [os.path.splitext] finds it, replaced by ["_looped.gif"]:
    the suffix stands where the extension began, and the extension after it
    is always [".gif"], which is the input's own only when the input's is
    exactly [".gif"].  This is the path a run without an explicit output
    path returns. *)
Theorem C8_default_output_path (w : world) (input_path : string) :
  exists root ext,
    splitext (os_sep w) input_path = (root, ext) /\
    input_path = (root ++ ext)%string /\
    default_output_path w input_path = (root ++ "_looped" ++ ".gif")%string /\
    default_output_path w input_path =
      (root ++ "_looped" ++ (if String.eqb ext ".gif" then ext else ".gif"))%string /\
    (forall s out s',
       make_gif_loop w input_path None s = (Ok out, s') ->
       out = (root ++ "_looped" ++ ".gif")%string).
Proof.
  destruct (splitext (os_sep w) input_path) as [root ext] eqn:E.
  exists root, ext. split; [reflexivity|].
  assert (Happ : input_path = (root ++ ext)%string).
  { pose proof (splitext_app (os_sep w) input_path) as H.
    rewrite E in H. simpl in H. symmetry. exact H. }
  assert (Hdef : default_output_path w input_path
                 = (root ++ "_looped" ++ ".gif")%string).
  { unfold default_output_path. rewrite E. reflexivity. }
  split; [exact Happ|]. split; [exact Hdef|]. split.
  - rewrite Hdef. destruct (String.eqb ext ".gif") eqn:Eg; [|reflexivity].
    apply String.eqb_eq in Eg. rewrite Eg. reflexivity.
  - intros s out s' Hrun. rewrite <- Hdef. clear - Hrun.
    unfold make_gif_loop in Hrun.
    destruct (negb (path_exists w input_path)); [discriminate|].
    unfold try_except, with_image_open, bind, lift, emit, modify, raise in Hrun.
    destruct (image_open w input_path) as [img|e].
    + rewrite loop_body_run in Hrun.
      destruct (read_frames (img_slots img) [] []) as [[[|f fs] ds]|e];
        [| destruct (save_raises w); [|destruct (getsize_raises w)] |];
        simpl in Hrun;
        try (match type of Hrun with
             | context [is_Exception ?e] => destruct (is_Exception e)
             end);
        try discriminate.
      injection Hrun as <- _. reflexivity.
    + destruct (is_Exception e); discriminate.
Qed.

Lemma C8_default_output_path_witness :
  fst (make_gif_loop posix_world "clips/anim.v2.webp" None []) =
  Ok "clips/anim.v2_looped.gif"%string.
Proof.
  destruct (C8_default_output_path posix_world "clips/anim.v2.webp")
    as (root & ext & Hsplit & _ & _ & _ & H).
  vm_compute in Hsplit. injection Hsplit as <- <-.
  assert (E : exists out s',
            make_gif_loop posix_world "clips/anim.v2.webp" None [] = (Ok out, s'))
    by (vm_compute; eauto).
  destruct E as (out & s' & E). rewrite E. simpl. f_equal.
  exact (H [] out s' E).
Defined.

End GifLooperSpec.

(* ================================================================== *)
(** * More facts about the Python primitives *)
(* ================================================================== *)

Module PyMore.
Import Py PyFacts.

(** ** Strings *)

Lemma append_assoc (a b c : string) : ((a ++ b) ++ c = a ++ (b ++ c))%string.
Proof. induction a as [|x a IH]; simpl; [reflexivity|f_equal; exact IH]. Qed.

Lemma length_append (a b : string) :
  String.length (a ++ b) = (String.length a + String.length b)%nat.
Proof. induction a as [|x a IH]; simpl; [reflexivity|f_equal; exact IH]. Qed.

Lemma lower_app (a b : string) : lower (a ++ b) = (lower a ++ lower b)%string.
Proof. induction a as [|x a IH]; simpl; [reflexivity|f_equal; exact IH]. Qed.

Lemma append_inv_l (p a b : string) : (p ++ a = p ++ b)%string -> a = b.
Proof.
  induction p as [|x p IH]; simpl; intros H; [exact H|].
  injection H as H. exact (IH H).
Qed.

(** Two suffixes of the same length of one string are equal. *)
Lemma append_same_length (p1 a p2 b : string) :
  (p1 ++ a = p2 ++ b)%string -> String.length a = String.length b -> a = b.
Proof.
  revert p2. induction p1 as [|x p1 IH]; intros [|y p2]; simpl; intros H Hl.
  - exact H.
  - exfalso. apply (f_equal String.length) in H. simpl in H.
    rewrite length_append in H. lia.
  - exfalso. apply (f_equal String.length) in H. simpl in H.
    rewrite length_append in H. lia.
  - injection H as _ H. exact (IH p2 H Hl).
Qed.

Lemma endswith_same_length (s a b : string) :
  endswith s a = true -> endswith s b = true ->
  String.length a = String.length b -> a = b.
Proof.
  intros Ha Hb Hl. apply endswith_inv in Ha. apply endswith_inv in Hb.
  destruct Ha as [p1 E1]. destruct Hb as [p2 E2].
  apply (append_same_length p1 a p2 b); [congruence|exact Hl].
Qed.

(** ** Paths *)

Lemma join_suffix (a b : string) : exists pre, join a b = (pre ++ b)%string.
Proof.
  unfold join. destruct (String.eqb a ""); [exists ""; reflexivity|].
  destruct (endswith a "/"); [exists a; reflexivity|].
  exists (a ++ "/")%string. rewrite append_assoc. reflexivity.
Qed.

(** What [rfind_dot] finds is the position of a dot. *)
Lemma rfind_dot_spec (p : string) :
  forall i acc d,
    rfind_dot p i acc = Some d ->
    acc = Some d \/
    exists k, d = (i + k)%nat /\ String.get k p = Some "."%char.
Proof.
  induction p as [|c p IH]; intros i acc d; simpl.
  - intros H. left. exact H.
  - intros H. apply IH in H. destruct H as [H|(k & -> & Hk)].
    + destruct (Ascii.eqb c ".") eqn:E.
      * injection H as <-. right. exists 0%nat. split; [lia|].
        apply Ascii.eqb_eq in E. subst c. reflexivity.
      * left. exact H.
    + right. exists (S k). split; [lia|exact Hk].
Qed.

Lemma substring_from (k : nat) :
  forall (p : string) (c : ascii),
    String.get k p = Some c ->
    exists rest, substring k (String.length p - k) p = String c rest.
Proof.
  induction k as [|k IH]; intros [|x p] c; simpl; try discriminate.
  - intros H. injection H as <-. eexists. reflexivity.
  - intros H. exact (IH p c H).
Qed.

(** The extension [splitext] splits off is empty or begins with a dot. *)
Lemma splitext_ext (is_sep : ascii -> bool) (p : string) :
  snd (splitext is_sep p) = "" \/
  exists rest, snd (splitext is_sep p) = String "."%char rest.
Proof.
  unfold splitext.
  destruct (rfind_dot p 0 None) as [d|] eqn:E; [|left; reflexivity].
  destruct (Nat.leb _ d && has_non_dot p _ d)%bool; [|left; reflexivity].
  right. simpl snd.
  apply rfind_dot_spec in E. destruct E as [E|(k & -> & Hk)]; [discriminate|].
  simpl. apply substring_from. exact Hk.
Qed.

(** ** [splitext] on a path with a known extension *)

Lemma lower_ascii_dot (c : ascii) : lower_ascii c = "."%char -> c = "."%char.
Proof.
  destruct c as [[] [] [] [] [] [] [] []]; vm_compute; intros H;
    try discriminate; reflexivity.
Qed.

Lemma lower_split (a b : string) :
  forall p, lower p = (a ++ b)%string ->
  exists p1 p2, p = (p1 ++ p2)%string /\ lower p1 = a /\ lower p2 = b.
Proof.
  induction a as [|x a IH]; intros p H.
  - exists "", p. repeat split. exact H.
  - destruct p as [|c p]; [discriminate|]. simpl in H. injection H as Hc H.
    destruct (IH p H) as (p1 & p2 & -> & H1 & H2).
    exists (String c p1), p2. simpl. rewrite Hc, H1. repeat split. exact H2.
Qed.

Section KnownExtension.
Variable is_sep : ascii -> bool.
Variables c1 c2 c3 : ascii.
Hypothesis dot_no_sep : is_sep "."%char = false.
Hypothesis c1_plain : Ascii.eqb c1 "."%char = false /\ is_sep c1 = false.
Hypothesis c2_plain : Ascii.eqb c2 "."%char = false /\ is_sep c2 = false.
Hypothesis c3_plain : Ascii.eqb c3 "."%char = false /\ is_sep c3 = false.

Let ext : string := String "."%char (String c1 (String c2 (String c3 ""))).

Lemma rfind_dot_ext (stem : string) :
  forall i acc,
    rfind_dot (stem ++ ext) i acc = Some (i + String.length stem)%nat.
Proof.
  induction stem as [|c stem IH]; intros i acc.
  - simpl. destruct c1_plain as [-> _], c2_plain as [-> _], c3_plain as [-> _].
    f_equal. lia.
  - simpl. rewrite IH. f_equal. lia.
Qed.

Lemma after_last_sep_ext (stem : string) :
  forall i acc,
    after_last_sep is_sep (stem ++ ext) i acc = after_last_sep is_sep stem i acc.
Proof.
  induction stem as [|c stem IH]; intros i acc.
  - simpl. rewrite dot_no_sep.
    destruct c1_plain as [_ ->], c2_plain as [_ ->], c3_plain as [_ ->].
    reflexivity.
  - simpl. apply IH.
Qed.

Lemma after_last_sep_le (stem : string) :
  forall i acc,
    (acc <= i)%nat ->
    (after_last_sep is_sep stem i acc <= i + String.length stem)%nat.
Proof.
  induction stem as [|c stem IH]; intros i acc Hacc; simpl.
  - lia.
  - destruct (is_sep c).
    + specialize (IH (S i) (S i)). lia.
    + specialize (IH (S i) acc). lia.
Qed.

Lemma has_non_dot_prefix (stem e : string) :
  forall from,
    has_non_dot (stem ++ e) from (String.length stem)
    = has_non_dot stem from (String.length stem).
Proof.
  induction stem as [|c stem IH]; intros from; simpl.
  - destruct e; reflexivity.
  - destruct from; rewrite IH; reflexivity.
Qed.

Lemma substring_prefix (stem e : string) :
  substring 0 (String.length stem) (stem ++ e) = stem.
Proof.
  induction stem as [|c stem IH]; simpl.
  - destruct e; reflexivity.
  - rewrite IH. reflexivity.
Qed.

(** The extension is split off when the name before it has a character
    other than a dot, and only then. *)
Lemma splitext_ext_known (stem : string) :
  splitext is_sep (stem ++ ext) =
  if has_non_dot stem (after_last_sep is_sep stem 0 0) (String.length stem)
  then (stem, ext) else ((stem ++ ext)%string, "").
Proof.
  unfold splitext. rewrite rfind_dot_ext, after_last_sep_ext. simpl plus.
  replace (Nat.leb (after_last_sep is_sep stem 0 0) (String.length stem))
    with true
    by (symmetry; apply Nat.leb_le;
        exact (after_last_sep_le stem 0%nat 0%nat (Nat.le_refl 0))).
  cbn [andb]. rewrite has_non_dot_prefix.
  destruct (has_non_dot stem _ _); [|reflexivity].
  rewrite substring_prefix. f_equal.
  pose proof (substring_split (String.length stem) (stem ++ ext)) as H.
  rewrite substring_prefix in H. apply append_inv_l in H. exact H.
Qed.

End KnownExtension.

End PyMore.

(* ================================================================== *)
(** * Exact products with a power of two *)
(* ================================================================== *)

Module FloatMore.
Import Py FloatFacts.

(** [float(w)] for a positive [w] below [2^53]: exact, with a mantissa of
    53 binary digits. *)
Lemma float_of_int_normal (w : Z) :
  0 < w < 2 ^ 53 ->
  exists mz ez,
    float_of_int w = Ok (S754_finite false mz ez) /\
    Zpos mz = w * 2 ^ (- ez) /\
    -52 <= ez <= 0 /\
    Zpos (digits2_pos mz) = 53.
Proof.
  intros [Hpos Hlt]. destruct w as [|pw|pw]; try lia.
  pose proof (digits2_pos_bounds pw) as [Hlo Hhi].
  pose proof (digits2_pos_le pw 53 Hlt) as Hd.
  set (d := Zpos (digits2_pos pw)) in *.
  assert (Hd1 : 1 <= d) by (unfold d; lia).
  unfold float_of_int, binary_normalize, binary_round.
  replace (fexp prec emax (Zpos (digits2_pos pw) + 0)) with (d - 53)
    by (unfold fexp, SpecFloat.emin, prec, emax; fold d; lia).
  unfold shl_align.
  destruct (d - 53 - 0) as [|k|k] eqn:Ek; try lia.
  - rewrite binary_round_aux_exact; [|fold d; lia|lia].
    exists pw, 0. split; [reflexivity|]. split; [simpl; lia|].
    split; [lia|fold d; lia].
  - assert (Hk : Zpos k = 53 - d) by lia.
    assert (Hdk : Zpos (digits2_pos (Pos.iter xO pw k)) = 53).
    { rewrite iter_xO_digits, Pos2Z.inj_add. fold d. lia. }
    rewrite binary_round_aux_exact; [|exact Hdk|lia].
    exists (Pos.iter xO pw k), (d - 53). split; [reflexivity|].
    rewrite iter_xO_value. replace (- (d - 53)) with (Zpos k) by lia.
    split; [reflexivity|]. split; [lia|exact Hdk].
Qed.

(** Shifting out the zeros that were shifted in. *)
Lemma iter_shr_1_xO (k : positive) :
  forall m : positive,
    iter_pos shr_1 k (Build_shr_record (Zpos (Pos.iter xO m k)) false false)
    = Build_shr_record (Zpos m) false false.
Proof.
  induction k as [k IH|k IH|]; intros m; simpl.
  - rewrite IH, IH. reflexivity.
  - rewrite IH, IH. reflexivity.
  - reflexivity.
Qed.

(** A mantissa of 53 digits followed by [k] zeros rounds to itself. *)
Lemma binary_round_aux_shifted (m k : positive) (e : Z) :
  Zpos (digits2_pos m) = 53 ->
  -1074 <= e <= 971 ->
  binary_round_aux prec emax false (Zpos (Pos.iter xO m k)) (e - Zpos k)
    loc_Exact
  = S754_finite false m e.
Proof.
  intros Hd He. unfold binary_round_aux, shr_fexp. cbn [Zdigits2].
  rewrite iter_xO_digits, Pos2Z.inj_add, Hd.
  replace (fexp prec emax (53 + Zpos k + (e - Zpos k)) - (e - Zpos k))
    with (Zpos k)
    by (unfold fexp, SpecFloat.emin, prec, emax; lia).
  cbn [shr_record_of_loc shr]. rewrite iter_shr_1_xO.
  cbn [shr_m loc_of_shr_record shr_r shr_s round_nearest_even Zdigits2].
  rewrite Hd.
  replace (fexp prec emax (53 + (e - Zpos k + Zpos k)) - (e - Zpos k + Zpos k))
    with 0
    by (unfold fexp, SpecFloat.emin, prec, emax; lia).
  cbn [shr_record_of_loc shr shr_m].
  replace (e - Zpos k + Zpos k) with e by lia.
  replace (Z.leb e (emax - prec)) with true
    by (symmetry; apply Z.leb_le; unfold emax, prec; lia).
  reflexivity.
Qed.

(** The product of [float(w)] with the double [2^52 * 2^ce], which is
    [2^(52+ce)], truncated to an integer: exact, for [ce] = -52 (the double
    1.0) and [ce] = -53 (the double 0.5). *)
Lemma int_times_power_of_two (w ce : Z) :
  0 < w < 2 ^ 53 ->
  -53 <= ce <= -52 ->
  exists fw,
    float_of_int w = Ok fw /\
    int_of_float (float_mul fw (S754_finite false 4503599627370496 ce))
    = Ok (w / 2 ^ (- 52 - ce)).
Proof.
  intros Hw Hce.
  destruct (float_of_int_normal w Hw) as (mz & ez & Hf & Hmz & Hez & Hd).
  exists (S754_finite false mz ez). split; [exact Hf|].
  unfold float_mul, SFmul. cbn [xorb].
  assert (Hmul : (mz * 4503599627370496)%positive = Pos.iter xO mz 52).
  { apply Pos2Z.inj. rewrite Pos2Z.inj_mul, iter_xO_value. reflexivity. }
  rewrite Hmul.
  replace (ez + ce) with ((ez + ce + 52) - 52) by lia.
  rewrite binary_round_aux_shifted; [|exact Hd|lia].
  cbn [int_of_float].
  assert (HX : 0 < 2 ^ (- ez)) by (apply Z.pow_pos_nonneg; lia).
  destruct (0 <=? ez + ce + 52) eqn:E.
  - apply Z.leb_le in E.
    assert (ez = 0) by lia. assert (ce = -52) by lia. subst ez ce.
    simpl in Hmz. simpl. rewrite Z.div_1_r. f_equal. lia.
  - apply Z.leb_gt in E. f_equal. rewrite Hmz.
    replace (- (ez + ce + 52)) with ((- 52 - ce) + (- ez)) by lia.
    rewrite Z.pow_add_r by lia.
    apply Z.div_mul_cancel_r; [|lia].
    assert (0 < 2 ^ (- 52 - ce)) by (apply Z.pow_pos_nonneg; lia). lia.
Qed.

End FloatMore.

(* ================================================================== *)
(** * gif_creator.py: further properties *)
(* ================================================================== *)

Module GifCreatorMore.
Import Py GifCreator PyFacts PyMore FloatFacts FloatMore GifCreatorSpec.
Local Open Scope list_scope.

(** ** A run that succeeds, step by step *)

Lemma load_clips_later_ok (w : world) (width : option Z) (rf : float)
  (t : size) (paths : list string) :
  forall (i : nat) (s s' : state),
    (1 < i)%nat ->
    target_size s = Some t ->
    load_clips w width rf i paths s = (Ok tt, s') ->
    let '(evs, clips, h') := loaded t (next_handle s) paths in
    s' = mkState h' (trace s ++ evs) (video_clips s ++ clips) (Some t).
Proof.
  induction paths as [|path rest IH]; intros i s s' Hi Ht; simpl.
  - intros H. injection H as <-. destruct s; simpl in *.
    rewrite !app_nil_r, Ht. reflexivity.
  - unfold VideoFileClip, resized, external, fresh, emit, append_clip.
    unfold_monad.
    destruct (raises w (CallVideoFileClip path)); [discriminate|]. simpl.
    destruct (Nat.eqb i 1) eqn:Ei; [apply Nat.eqb_eq in Ei; lia|]. simpl.
    rewrite Ht. simpl.
    destruct (raises w (CallResized (next_handle s))); [discriminate|].
    simpl. intros Hrun. apply IH in Hrun; [|lia|reflexivity]. simpl in Hrun.
    destruct (loaded t (S (S (next_handle s))) rest) as [[evs clips] h'].
    rewrite Hrun, <- !app_assoc. reflexivity.
Qed.

Lemma load_clips_first_ok (w : world) (width : option Z) (rf : float)
  (path : string) (rest : list string) (s s' : state) :
  load_clips w width rf 1 (path :: rest) s = (Ok tt, s') ->
  exists t,
    compute_target width (video_size w path) rf = Ok t /\
    let '(evs, clips, h') := loaded t (next_handle s) (path :: rest) in
    s' = mkState h' (trace s ++ evs) (video_clips s ++ clips) (Some t).
Proof.
  simpl. unfold VideoFileClip, resized, external, fresh, emit, append_clip,
    set_target_size. unfold_monad.
  destruct (raises w (CallVideoFileClip path)); [discriminate|]. simpl.
  destruct (compute_target width (video_size w path) rf) as [t|e];
    [|discriminate].
  simpl. exists t. split; [reflexivity|].
  destruct (raises w (CallResized (next_handle s))); [discriminate|].
  simpl in H.
  apply (load_clips_later_ok w width rf t rest) in H; [|lia|reflexivity].
  simpl in H.
  destruct (loaded t (S (S (next_handle s))) rest) as [[evs clips] h'].
  rewrite H, <- !app_assoc. reflexivity.
Qed.

Lemma close_all_ok (w : world) (clips : list clip) :
  forall s s',
    for_each clips (close w) s = (Ok tt, s') ->
    s' = add_events s (map Closed (map clip_handle clips)).
Proof.
  induction clips as [|c clips IH]; intros s s'; simpl.
  - intros H. injection H as <-. rewrite add_events_nil. reflexivity.
  - unfold bind. rewrite close_run.
    destruct (raises w (CallClose (clip_handle c))); [discriminate|].
    intros H. apply IH in H. rewrite H, add_events_app. reflexivity.
Qed.

Lemma encode_and_close_ok (w : world) (clips : list clip)
  (output_path : string) (fps : Z) (s s' : state) (o : string) :
  encode_and_close w clips output_path fps s = (Ok o, s') ->
  o = output_path /\
  trace s' = trace s ++ finished clips (next_handle s) output_path fps /\
  video_clips s' = video_clips s /\
  target_size s' = target_size s.
Proof.
  assert (Hmany :
    (final_video <- concatenate_videoclips w clips ;;
     write_gif w final_video output_path fps 0 ;;;
     for_each clips (close w) ;;;
     (if Nat.ltb 1 (List.length clips) then close w final_video else ret tt) ;;;
     getsize w ;;; ret output_path) s = (Ok o, s') ->
    o = output_path /\
    trace s' = trace s ++
      (Concatenated (next_handle s) (map clip_handle clips)
       :: WroteGif (next_handle s) output_path fps 0
       :: map Closed (map clip_handle clips)
          ++ (if Nat.ltb 1 (List.length clips)
              then [Closed (next_handle s)] else [])) /\
    video_clips s' = video_clips s /\ target_size s' = target_size s).
  { intros H.
    unfold concatenate_videoclips, write_gif, getsize, external, fresh, emit
      in H.
    unfold bind at 1 2 3 4 5 6 7 in H. unfold ret at 1 2, raise at 1 2,
      modify at 1 2 in H.
    destruct (raises w CallConcatenate); [discriminate|].
    destruct (raises w CallWriteGif); [discriminate|]. simpl in H.
    unfold bind at 1 in H.
    match type of H with context [for_each clips (close w) ?s1] =>
      destruct (for_each clips (close w) s1) as [[[]|e] s2] eqn:Ecl;
        [|discriminate];
      apply close_all_ok in Ecl
    end.
    unfold bind at 1 in H.
    destruct (Nat.ltb 1 (List.length clips)).
    - rewrite close_run in H. simpl clip_handle in H.
      destruct (raises w (CallClose (next_handle s))); [discriminate|].
      unfold bind, ret, raise in H.
      destruct (raises w CallGetsize); [discriminate|].
      injection H as <- <-. rewrite Ecl. simpl.
      split; [reflexivity|]. split; [|split; reflexivity].
      rewrite <- !app_assoc. reflexivity.
    - unfold bind, ret, raise in H.
      destruct (raises w CallGetsize); [discriminate|].
      injection H as <- <-. rewrite Ecl. simpl.
      split; [reflexivity|]. split; [|split; reflexivity].
      rewrite app_nil_r, <- !app_assoc. reflexivity. }
  unfold encode_and_close.
  destruct clips as [|c [|c' l]]; try exact Hmany.
  intros H. simpl finished.
  unfold write_gif, getsize, external, emit in H.
  unfold bind, ret, raise, modify in H. simpl in H.
  destruct (raises w CallWriteGif); [discriminate|]. simpl in H.
  unfold bind, ret in H. rewrite close_run in H.
  destruct (raises w (CallClose (clip_handle c))); [discriminate|].
  simpl in H.
  destruct (raises w CallGetsize); [discriminate|].
  injection H as <- <-. simpl. split; [reflexivity|].
  split; [|split; reflexivity]. rewrite <- app_assoc. reflexivity.
Qed.

(** A run of [convert_mp4_to_gif] that returns: everything it has done. *)
Lemma convert_success (w : world) (input_paths : list string)
  (output_path : option string) (fps : Z) (width : option Z) (quality : string)
  (s s' : state) (out : string) :
  convert_mp4_to_gif w input_paths output_path fps width quality s
    = (Ok out, s') ->
  exists first rest t,
    filter (valid_input w) input_paths = first :: rest /\
    compute_target width (video_size w first)
      (snd (resolve_quality quality fps)) = Ok t /\
    out = match output_path with
          | Some o => o
          | None => default_output_path (first :: rest)
          end /\
    let '(evs, clips, h') := loaded t (next_handle s) (first :: rest) in
    trace s' = trace s ++ flat_map (skip_warning w) input_paths ++ evs ++
               finished clips h' out (fst (resolve_quality quality fps)) /\
    video_clips s' = clips /\
    target_size s' = Some t.
Proof.
  intros H.
  pose proof (validate_spec w input_paths [] s) as Hv. simpl app in Hv.
  unfold convert_mp4_to_gif in H. unfold bind at 1 in H. rewrite Hv in H.
  clear Hv.
  destruct (filter (valid_input w) input_paths) as [|first rest];
    [discriminate|].
  destruct (resolve_quality quality fps) as [fps' rf]. simpl fst. simpl snd.
  set (o := match output_path with
            | Some o => o
            | None => default_output_path (first :: rest)
            end) in *.
  set (s0 := add_events s (flat_map (skip_warning w) input_paths)) in *.
  unfold try_except, convert_body, set_video_clips in H.
  unfold bind at 1 2 in H. unfold modify at 1 in H.
  set (s1 := mkState (next_handle s0) (trace s0) [] (target_size s0)) in *.
  destruct (load_clips w width rf 1 (first :: rest) s1) as [[[]|e] s2] eqn:El.
  2:{ destruct (is_Exception e); [|discriminate].
      destruct (convert_handler_run w (fun _ => True) e s2 (fun _ => I))
        as (s3 & evs & Hh & _). rewrite Hh in H. discriminate. }
  apply load_clips_first_ok in El. destruct El as (t & Ht & El).
  unfold bind at 1 in H. unfold get at 1 in H.
  destruct (encode_and_close w (video_clips s2) o fps' s2) as [[o'|e] s3] eqn:Ee.
  2:{ destruct (is_Exception e); [|discriminate].
      destruct (convert_handler_run w (fun _ => True) e s3 (fun _ => I))
        as (s4 & evs & Hh & _). rewrite Hh in H. discriminate. }
  apply encode_and_close_ok in Ee. destruct Ee as (-> & Htr & Hcl & Htg).
  injection H as <- <-.
  exists first, rest, t. split; [reflexivity|]. split; [exact Ht|].
  split; [reflexivity|].
  change (next_handle s1) with (next_handle s) in El.
  destruct (loaded t (next_handle s) (first :: rest)) as [[evs clips] h'].
  subst s2. simpl in *. rewrite Htr, Hcl, Htg, <- !app_assoc.
  repeat split; reflexivity.
Qed.

(** ** Facts about [loaded] and [finished] *)

Lemma loaded_handles (t : size) (paths : list string) :
  forall h,
    let '(evs, clips, h') := loaded t h paths in
    (h <= h')%nat /\
    List.length clips = List.length paths /\
    Forall (fun c => clip_size c = t /\ (h <= clip_handle c < h')%nat) clips /\
    NoDup (map clip_handle clips) /\
    Forall (fun x => (h <= x < h')%nat /\ ~ In x (map clip_handle clips))
           (opened_handles evs).
Proof.
  induction paths as [|p rest IH]; intros h; simpl.
  - repeat split; try constructor; lia.
  - specialize (IH (S (S h))).
    destruct (loaded t (S (S h)) rest) as [[evs clips] h'].
    destruct IH as (Hh & Hl & Hc & Hn & Ho).
    assert (Hlow : forall x, In x (map clip_handle clips) -> (S (S h) <= x)%nat).
    { intros x Hin. apply in_map_iff in Hin. destruct Hin as (c & <- & Hc2).
      rewrite Forall_forall in Hc. apply Hc in Hc2. lia. }
    split; [lia|]. split; [simpl; lia|]. split; [|split].
    + constructor; [simpl; split; [reflexivity|lia]|].
      eapply Forall_impl; [|exact Hc]. simpl. intros c [? ?].
      split; [assumption|lia].
    + simpl. constructor; [|exact Hn].
      intros Hin. apply Hlow in Hin. lia.
    + unfold opened_handles in *. simpl. constructor.
      * split; [lia|]. intros [E|Hin]; [lia|]. apply Hlow in Hin. lia.
      * eapply Forall_impl; [|exact Ho]. simpl. intros x [Hx Hnin].
        split; [lia|]. intros [E|Hin]; [lia|]. exact (Hnin Hin).
Qed.

Lemma loaded_events (t : size) (paths : list string) :
  forall h,
    let '(evs, clips, h') := loaded t h paths in
    opened_paths evs = paths /\
    encodings evs = [] /\
    concatenations evs = [] /\
    closed_handles evs = [] /\
    resized_sources evs = opened_handles evs /\
    List.length (opened_handles evs) = List.length paths.
Proof.
  induction paths as [|p rest IH]; intros h; simpl.
  - repeat split; reflexivity.
  - specialize (IH (S (S h))).
    destruct (loaded t (S (S h)) rest) as [[evs clips] h'].
    destruct IH as (Ho & He & Hc & Hcl & Hr & Hn). simpl.
    unfold opened_paths, encodings, concatenations, closed_handles,
      resized_sources, opened_handles in *. simpl.
    rewrite Ho, He, Hc, Hcl, Hr, Hn. repeat split; reflexivity.
Qed.

Lemma resized_copy_of_more (t : size) (a tr b : list event) (path : string)
  (c : handle) :
  resized_copy_of t tr path c -> resized_copy_of t (a ++ tr ++ b) path c.
Proof.
  intros (h & Ho & Hr). exists h.
  split; apply in_or_app; right; apply in_or_app; left; assumption.
Qed.

Lemma copies_of_handles (t : size) (a evs b : list event)
  (paths : list string) (clips : list clip) :
  Forall2 (fun path c => resized_copy_of t evs path (clip_handle c))
          paths clips ->
  Forall2 (resized_copy_of t (a ++ evs ++ b)) paths (map clip_handle clips).
Proof.
  induction 1; simpl; constructor.
  - apply resized_copy_of_more. assumption.
  - assumption.
Qed.

(** Each clip collected is the resized copy of the clip opened for its
    file. *)
Lemma loaded_copies (t : size) (paths : list string) :
  forall h,
    let '(evs, clips, h') := loaded t h paths in
    Forall2 (fun path c => resized_copy_of t evs path (clip_handle c))
            paths clips.
Proof.
  induction paths as [|p rest IH]; intros h; simpl.
  - constructor.
  - specialize (IH (S (S h))).
    destruct (loaded t (S (S h)) rest) as [[evs clips] h'].
    constructor.
    + exists h. split; [left; reflexivity|right; left; reflexivity].
    + eapply Forall2_impl; [|exact IH]. intros a b Hab.
      apply (resized_copy_of_more t
               [Opened h p; Resized h (S h) t] evs [] a (clip_handle b))
        in Hab.
      rewrite app_nil_r in Hab. exact Hab.
Qed.

Lemma closed_handles_map_Closed (l : list handle) :
  closed_handles (map Closed l) = l.
Proof.
  induction l as [|h l IH]; [reflexivity|].
  unfold closed_handles in *. simpl. rewrite IH. reflexivity.
Qed.

Lemma map_Closed_quiet (l : list handle) :
  encodings (map Closed l) = [] /\ concatenations (map Closed l) = [] /\
  resized_sources (map Closed l) = [] /\ opened_paths (map Closed l) = [].
Proof.
  induction l as [|h l (H1 & H2 & H3 & H4)]; [repeat split; reflexivity|].
  unfold encodings, concatenations, resized_sources, opened_paths in *.
  simpl. rewrite H1, H2, H3, H4. repeat split; reflexivity.
Qed.

Lemma skip_warning_quiet (w : world) (paths : list string) :
  encodings (flat_map (skip_warning w) paths) = [] /\
  concatenations (flat_map (skip_warning w) paths) = [] /\
  resized_sources (flat_map (skip_warning w) paths) = [] /\
  closed_handles (flat_map (skip_warning w) paths) = [] /\
  opened_paths (flat_map (skip_warning w) paths) = [].
Proof.
  induction paths as [|p l (H1 & H2 & H3 & H4 & H5)]; [repeat split; reflexivity|].
  unfold encodings, concatenations, resized_sources, closed_handles,
    opened_paths in *.
  simpl. rewrite !flat_map_app, H1, H2, H3, H4, H5.
  unfold skip_warning.
  destruct (negb (path_exists w p)); [repeat split; reflexivity|].
  destruct (negb (endswith (lower p) ".mp4")); repeat split; reflexivity.
Qed.

(** The part after the loop: one encoding, at most one concatenation, and
    the closes, all of them after the encoding. *)
Lemma finished_events (clips : list clip) (h : handle) (out : string) (fps : Z) :
  let final := match clips with [c] => clip_handle c | _ => h end in
  let closed := map clip_handle clips ++
                (if Nat.ltb 1 (List.length clips) then [h] else []) in
  exists before,
    finished clips h out fps = before ++ map Closed closed /\
    closed_handles before = [] /\
    encodings before = [(final, out, fps, 0)] /\
    concatenations before =
      match clips with
      | [_] => []
      | _ => [(h, map clip_handle clips)]
      end /\
    resized_sources (finished clips h out fps) = [] /\
    opened_paths (finished clips h out fps) = [].
Proof.
  assert (Hmany :
    exists before,
      Concatenated h (map clip_handle clips)
      :: WroteGif h out fps 0
      :: map Closed (map clip_handle clips)
         ++ (if Nat.ltb 1 (List.length clips) then [Closed h] else [])
      = before ++ map Closed (map clip_handle clips ++
                   (if Nat.ltb 1 (List.length clips) then [h] else [])) /\
      closed_handles before = [] /\
      encodings before = [(h, out, fps, 0)] /\
      concatenations before = [(h, map clip_handle clips)] /\
      resized_sources
        (Concatenated h (map clip_handle clips)
         :: WroteGif h out fps 0
         :: map Closed (map clip_handle clips)
            ++ (if Nat.ltb 1 (List.length clips) then [Closed h] else [])) = [] /\
      opened_paths
        (Concatenated h (map clip_handle clips)
         :: WroteGif h out fps 0
         :: map Closed (map clip_handle clips)
            ++ (if Nat.ltb 1 (List.length clips) then [Closed h] else [])) = []).
  { exists [Concatenated h (map clip_handle clips); WroteGif h out fps 0].
    assert (E : map Closed (map clip_handle clips)
                ++ (if Nat.ltb 1 (List.length clips) then [Closed h] else [])
                = map Closed (map clip_handle clips ++
                    (if Nat.ltb 1 (List.length clips) then [h] else []))).
    { rewrite map_app. destruct (Nat.ltb 1 (List.length clips)); reflexivity. }
    rewrite E.
    destruct (map_Closed_quiet (map clip_handle clips ++
                (if Nat.ltb 1 (List.length clips) then [h] else [])))
      as (_ & _ & H3 & H4).
    repeat split; try reflexivity.
    - unfold resized_sources in *. simpl. exact H3.
    - unfold opened_paths in *. simpl. exact H4. }
  destruct clips as [|c [|c' l]]; try exact Hmany.
  simpl. exists [WroteGif (clip_handle c) out fps 0].
  repeat split; reflexivity.
Qed.

(** ** Every clip is resized *)

Lemma finished_opens_nothing (clips : list clip) (h : handle) (out : string)
  (fps : Z) :
  opened_handles (finished clips h out fps) = [].
Proof.
  assert (Hc : forall l, opened_handles (map Closed l) = []).
  { induction l as [|x l IH]; [reflexivity|exact IH]. }
  assert (Hmany :
    opened_handles
      (Concatenated h (map clip_handle clips)
       :: WroteGif h out fps 0
       :: map Closed (map clip_handle clips)
          ++ (if Nat.ltb 1 (List.length clips) then [Closed h] else [])) = []).
  { unfold opened_handles in *. simpl. rewrite flat_map_app, Hc.
    destruct (Nat.ltb 1 (List.length clips)); reflexivity. }
  destruct clips as [|c [|c' l]]; exact Hmany.
Qed.

Lemma skip_warning_opens_nothing (w : world) (paths : list string) :
  opened_handles (flat_map (skip_warning w) paths) = [].
Proof.
  induction paths as [|p l IH]; [reflexivity|].
  unfold opened_handles in *. simpl. rewrite flat_map_app, IH, app_nil_r.
  unfold skip_warning.
  destruct (negb (path_exists w p)); [reflexivity|].
  destruct (negb (endswith (lower p) ".mp4")); reflexivity.
Qed.

(** One geometry, and a resize for every clip (lines 102-122).  In a run
    that returns, the target size is computed once, from the first valid
    input.  Every clip opened is then resized to it - also a clip that has
    that size already, line 118 comparing a list with a tuple - and the
    clips collected for encoding are these resized copies: one for each
    valid input, in the order of the inputs, each of the target size. *)
Theorem every_clip_is_resized (w : world)
  (input_paths : list string) (output_path : option string) (fps : Z)
  (width : option Z) (quality : string) (out : string) (s' : state) :
  convert_mp4_to_gif w input_paths output_path fps width quality initial
    = (Ok out, s') ->
  exists first rest t,
    filter (valid_input w) input_paths = first :: rest /\
    compute_target width (video_size w first)
      (snd (resolve_quality quality fps)) = Ok t /\
    target_size s' = Some t /\
    Forall2 (fun path c =>
               clip_size c = t /\
               resized_copy_of t (trace s') path (clip_handle c))
            (first :: rest) (video_clips s') /\
    resized_sources (trace s') = opened_handles (trace s').
Proof.
  intros Hrun. apply convert_success in Hrun.
  destruct Hrun as (first & rest & t & Hv & Ht & Hout & H).
  exists first, rest, t.
  pose proof (loaded_copies t (first :: rest) (next_handle initial)) as Hc.
  pose proof (loaded_handles t (first :: rest) (next_handle initial)) as Hh.
  pose proof (loaded_events t (first :: rest) (next_handle initial)) as He.
  destruct (loaded t (next_handle initial) (first :: rest))
    as [[evs clips] h'].
  destruct H as (Htr & Hcl & Htg). simpl in Htr.
  destruct Hh as (_ & _ & Hsz & _ & _).
  destruct He as (_ & _ & _ & _ & Hr & _).
  destruct (skip_warning_quiet w input_paths) as (_ & _ & Hw & _ & _).
  pose proof (skip_warning_opens_nothing w input_paths) as Hwo.
  destruct (finished_events clips h' out (fst (resolve_quality quality fps)))
    as (before & _ & _ & _ & _ & Hf & _).
  pose proof (finished_opens_nothing clips h' out
                (fst (resolve_quality quality fps))) as Hfo.
  split; [exact Hv|]. split; [exact Ht|]. split; [exact Htg|]. split.
  - rewrite Hcl, Htr.
    assert (Hboth : Forall2 (fun path c =>
                      resized_copy_of t evs path (clip_handle c) /\
                      clip_size c = t) (first :: rest) clips).
    { clear - Hc Hsz. revert Hsz. induction Hc; intros Hsz; constructor.
      - inversion Hsz; subst. tauto.
      - apply IHHc. inversion Hsz; assumption. }
    eapply Forall2_impl; [|exact Hboth]. intros a b [Hab Hs].
    split; [exact Hs|]. apply resized_copy_of_more. exact Hab.
  - rewrite Htr. unfold resized_sources, opened_handles in *.
    rewrite !flat_map_app, Hw, Hwo, Hf, Hfo, Hr. reflexivity.
Qed.

Lemma every_clip_is_resized_witness :
  exists s',
    convert_mp4_to_gif two_sizes_world ["second.mp4"; "first.mp4"; "third.mp4"]
      None 10 (Some 1920) "medium" initial
    = (Ok "combined_video.gif", s') /\
    target_size s' = Some (1920, 1080) /\
    resized_sources (trace s') = [0; 2; 4]%nat.
Proof.
  pose (run := convert_mp4_to_gif two_sizes_world
                 ["second.mp4"; "first.mp4"; "third.mp4"]
                 None 10 (Some 1920) "medium" initial).
  assert (Hrun : run = (Ok "combined_video.gif", snd run))
    by (vm_compute; reflexivity).
  exists (snd run). split; [exact Hrun|].
  destruct (every_clip_is_resized two_sizes_world
              ["second.mp4"; "first.mp4"; "third.mp4"] None 10 (Some 1920)
              "medium" "combined_video.gif" (snd run) Hrun)
    as (first & rest & t & Hv & Ht & Htg & _ & Hr).
  rewrite Htg, Hr. vm_compute in Hv. injection Hv as <- _.
  vm_compute in Ht. injection Ht as <-. split; [reflexivity|].
  vm_compute. reflexivity.
Defined.

(** ** What is encoded *)

(** Encoding (lines 125-140).  A run that returns has collected, for the
    valid inputs in their order, the resized copies of their clips, and has
    encoded exactly once, to the path it returns, at the resolved frame rate
    and with repeat count 0 (forever).  A single copy is encoded as it is
    and nothing is concatenated; several copies are concatenated once, all
    of them and in the order of the inputs, into a new clip, and that clip
    is the one encoded. *)
Theorem encodes_once (w : world)
  (input_paths : list string) (output_path : option string) (fps : Z)
  (width : option Z) (quality : string) (out : string) (s' : state) :
  convert_mp4_to_gif w input_paths output_path fps width quality initial
    = (Ok out, s') ->
  exists t parts,
    target_size s' = Some t /\
    parts = map clip_handle (video_clips s') /\
    Forall2 (resized_copy_of t (trace s'))
            (filter (valid_input w) input_paths) parts /\
    match parts with
    | [c] =>
        concatenations (trace s') = [] /\
        encodings (trace s') =
          [(c, out, fst (resolve_quality quality fps), 0)]
    | _ =>
        exists h,
          ~ In h parts /\
          concatenations (trace s') = [(h, parts)] /\
          encodings (trace s') =
            [(h, out, fst (resolve_quality quality fps), 0)]
    end.
Proof.
  intros Hrun. apply convert_success in Hrun.
  destruct Hrun as (first & rest & t & Hv & Ht & Hout & H).
  rewrite Hv.
  pose proof (loaded_handles t (first :: rest) (next_handle initial)) as Hh.
  pose proof (loaded_events t (first :: rest) (next_handle initial)) as He.
  pose proof (loaded_copies t (first :: rest) (next_handle initial)) as Hcp.
  destruct (loaded t (next_handle initial) (first :: rest))
    as [[evs clips] h'].
  destruct H as (Htr & Hcl & Htg). simpl in Htr.
  destruct Hh as (_ & Hlen & Hc & _ & _).
  destruct He as (_ & He & Hco & _ & _).
  destruct (skip_warning_quiet w input_paths) as (Hwe & Hwc & _ & _ & _).
  destruct (finished_events clips h' out (fst (resolve_quality quality fps)))
    as (before & Hf & _ & Hfe & Hfc & _ & _).
  destruct (map_Closed_quiet
              (map clip_handle clips ++
               (if Nat.ltb 1 (List.length clips) then [h'] else [])))
    as (Hce & Hcc & _ & _).
  assert (Henc : encodings (trace s') =
            [(match clips with [c] => clip_handle c | _ => h' end, out,
              fst (resolve_quality quality fps), 0)]).
  { rewrite Htr, Hf. unfold encodings in *.
    rewrite !flat_map_app, Hwe, He, Hfe, Hce. reflexivity. }
  assert (Hcon : concatenations (trace s') =
            match clips with
            | [_] => []
            | _ => [(h', map clip_handle clips)]
            end).
  { rewrite Htr, Hf. unfold concatenations in *.
    rewrite !flat_map_app, Hwc, Hco, Hfc, Hcc, app_nil_r. reflexivity. }
  assert (Hfresh : ~ In h' (map clip_handle clips)).
  { intros Hin. apply in_map_iff in Hin. destruct Hin as (c & Hc1 & Hc2).
    rewrite Forall_forall in Hc. apply Hc in Hc2. lia. }
  assert (Hparts : Forall2 (resized_copy_of t (trace s')) (first :: rest)
                     (map clip_handle clips)).
  { rewrite Htr. apply copies_of_handles. exact Hcp. }
  exists t, (map clip_handle clips). rewrite Hcl.
  split; [exact Htg|]. split; [reflexivity|]. split; [exact Hparts|].
  destruct clips as [|c [|c' l]].
  - exists h'. auto.
  - split; assumption.
  - exists h'. auto.
Qed.

Lemma encodes_once_witness :
  exists s',
    convert_mp4_to_gif two_sizes_world ["second.mp4"; "first.mp4"; "third.mp4"]
      None 10 None "medium" initial
    = (Ok "combined_video.gif", s') /\
    concatenations (trace s') = [(6, [1; 3; 5])]%nat.
Proof.
  pose (run := convert_mp4_to_gif two_sizes_world
                 ["second.mp4"; "first.mp4"; "third.mp4"]
                 None 10 None "medium" initial).
  assert (Hrun : run = (Ok "combined_video.gif", snd run))
    by (vm_compute; reflexivity).
  exists (snd run). split; [exact Hrun|].
  destruct (encodes_once two_sizes_world
              ["second.mp4"; "first.mp4"; "third.mp4"] None 10 None
              "medium" "combined_video.gif" (snd run) Hrun)
    as (t & parts & _ & Hp & _ & H).
  vm_compute in Hp. subst parts. destruct H as (h & _ & Hc & He).
  rewrite Hc. f_equal. f_equal.
  assert (E : encodings (trace (snd run))
              = [(6%nat, "combined_video.gif", 10, 0)])
    by (vm_compute; reflexivity).
  rewrite E in He. injection He as He. symmetry. exact He.
Defined.

(** ** What is closed *)

Lemma existsb_eqb_In (x : handle) (l : list handle) :
  existsb (Nat.eqb x) l = true <-> In x l.
Proof.
  rewrite existsb_exists. split.
  - intros (y & Hy & E). apply Nat.eqb_eq in E. subst. exact Hy.
  - intros H. exists x. split; [exact H|apply Nat.eqb_refl].
Qed.

Lemma NoDup_snoc {A} (l : list A) (x : A) :
  NoDup l -> ~ In x l -> NoDup (l ++ [x]).
Proof.
  induction l as [|a l IH]; simpl; intros Hn Hx.
  - constructor; [tauto|constructor].
  - inversion Hn as [|? ? Ha Hl]; subst. constructor.
    + rewrite in_app_iff. simpl. intros [H|[H|[]]]; [tauto|]. subst. tauto.
    + apply IH; tauto.
Qed.

(** Of the clips the loop creates, those that are not among the collected
    ones are the clips opened from the files. *)
Lemma loaded_left_open (t : size) (paths : list string) :
  forall h (closed : list handle),
    let '(evs, clips, h') := loaded t h paths in
    (forall x, (h <= x < h')%nat ->
               (In x closed <-> In x (map clip_handle clips))) ->
    filter (fun x => negb (existsb (Nat.eqb x) closed)) (created_handles evs)
    = opened_handles evs.
Proof.
  induction paths as [|p rest IH]; intros h closed; simpl.
  - reflexivity.
  - pose proof (loaded_handles t rest (S (S h))) as Hh.
    specialize (IH (S (S h)) closed).
    destruct (loaded t (S (S h)) rest) as [[evs clips] h'].
    destruct Hh as (Hle & _ & Hc & _ & _).
    intros Hcl. unfold created_handles, opened_handles in *.
    cbn [flat_map created_handle opened_handle app filter].
    assert (E1 : existsb (Nat.eqb h) closed = false).
    { apply not_true_is_false. intros E. apply existsb_eqb_In in E.
      apply Hcl in E; [|lia]. simpl in E. destruct E as [E|E]; [lia|].
      apply in_map_iff in E. destruct E as (c & Hc1 & Hc2).
      rewrite Forall_forall in Hc. apply Hc in Hc2. lia. }
    assert (E2 : existsb (Nat.eqb (S h)) closed = true).
    { apply existsb_eqb_In, Hcl; [lia|]. left. reflexivity. }
    rewrite E1, E2. cbn [negb]. f_equal. apply IH. intros x Hx.
    rewrite Hcl by lia.
    simpl. split; [intros [E'|H]; [lia|exact H]|auto].
Qed.

Lemma skip_warning_creates_nothing (w : world) (paths : list string) :
  created_handles (flat_map (skip_warning w) paths) = [].
Proof.
  induction paths as [|p l IH]; [reflexivity|].
  unfold created_handles in *. simpl. rewrite flat_map_app, IH, app_nil_r.
  unfold skip_warning.
  destruct (negb (path_exists w p)); [reflexivity|].
  destruct (negb (endswith (lower p) ".mp4")); reflexivity.
Qed.

Lemma map_Closed_creates_nothing (l : list handle) :
  created_handles (map Closed l) = [].
Proof.
  induction l as [|h l IH]; [reflexivity|].
  unfold created_handles in *. simpl. exact IH.
Qed.

(** Clean-up on the normal path (lines 116-122, 142-146).  In a run that
    returns, nothing is closed before the encoding; after it the script
    closes each collected clip once, in order, and then the concatenated
    clip when there is one; no clip is closed twice.  The collected clips
    being the resized copies, the clips opened from the files are never
    closed: they are exactly the clips the run leaves open, one for each
    valid input. *)
Theorem closes_after_encoding (w : world)
  (input_paths : list string) (output_path : option string) (fps : Z)
  (width : option Z) (quality : string) (out : string) (s' : state) :
  convert_mp4_to_gif w input_paths output_path fps width quality initial
    = (Ok out, s') ->
  let closed := map clip_handle (video_clips s') ++
                map fst (concatenations (trace s')) in
  (exists before,
     trace s' = before ++ map Closed closed /\
     closed_handles before = [] /\
     encodings before = encodings (trace s')) /\
  closed_handles (trace s') = closed /\
  NoDup closed /\
  left_open (trace s') = opened_handles (trace s') /\
  List.length (opened_handles (trace s')) =
    List.length (filter (valid_input w) input_paths).
Proof.
  intros Hrun. apply convert_success in Hrun.
  destruct Hrun as (first & rest & t & Hv & Ht & Hout & H).
  pose proof (loaded_handles t (first :: rest) (next_handle initial)) as Hh.
  pose proof (loaded_events t (first :: rest) (next_handle initial)) as He.
  pose proof (loaded_left_open t (first :: rest) (next_handle initial)) as Hlo.
  destruct (loaded t (next_handle initial) (first :: rest))
    as [[evs clips] h'] eqn:El.
  destruct H as (Htr & Hcl & Htg). simpl in Htr.
  destruct Hh as (Hle & Hlen & Hc & Hnd & _).
  destruct He as (_ & He & Hco & Hcd & _ & Hon).
  destruct (skip_warning_quiet w input_paths) as (Hwe & Hwc & Hwr & Hwd & _).
  pose proof (skip_warning_creates_nothing w input_paths) as Hwn.
  pose proof (skip_warning_opens_nothing w input_paths) as Hwo.
  destruct (finished_events clips h' out (fst (resolve_quality quality fps)))
    as (before & Hf & Hfd & Hfe & Hfc & Hfr & _).
  pose proof (finished_opens_nothing clips h' out
                (fst (resolve_quality quality fps))) as Hfo.
  set (cl := map clip_handle clips ++
             (if Nat.ltb 1 (List.length clips) then [h'] else [])) in *.
  destruct (map_Closed_quiet cl) as (Hce & Hcc & Hcr & _).
  assert (Hnonempty : clips <> []).
  { intros E. rewrite E in Hlen. discriminate. }
  assert (Hcon : map fst (concatenations (trace s')) =
                 if Nat.ltb 1 (List.length clips) then [h'] else []).
  { rewrite Htr, Hf. unfold concatenations in *.
    rewrite !flat_map_app, Hwc, Hco, Hfc, Hcc, app_nil_r. simpl.
    destruct clips as [|c [|c' l]]; [congruence|reflexivity|reflexivity]. }
  assert (Hfresh : ~ In h' (map clip_handle clips)).
  { intros Hin. apply in_map_iff in Hin. destruct Hin as (c & Hc1 & Hc2).
    rewrite Forall_forall in Hc. apply Hc in Hc2. lia. }
  assert (Hopened : opened_handles (trace s') = opened_handles evs).
  { rewrite Htr. unfold opened_handles in *.
    rewrite !flat_map_app, Hwo, Hfo, app_nil_r. reflexivity. }
  cbv zeta. rewrite Hcon, Hcl. fold cl.
  assert (Hclosed : closed_handles (trace s') = cl).
  { rewrite Htr, Hf. unfold closed_handles in *.
    rewrite !flat_map_app, Hwd, Hcd, Hfd. simpl.
    apply closed_handles_map_Closed. }
  split; [|split; [exact Hclosed|split; [|split]]].
  - exists (flat_map (skip_warning w) input_paths ++ evs ++ before).
    split; [|split].
    + rewrite Htr, Hf, <- !app_assoc. reflexivity.
    + unfold closed_handles in *. rewrite !flat_map_app, Hwd, Hcd, Hfd.
      reflexivity.
    + rewrite Htr, Hf. unfold encodings in *.
      rewrite !flat_map_app, Hce, !app_nil_r. reflexivity.
  - unfold cl. destruct (Nat.ltb 1 (List.length clips)).
    + apply NoDup_snoc; assumption.
    + rewrite app_nil_r. exact Hnd.
  - unfold left_open. rewrite Hclosed, Hopened.
    assert (Hcr' : created_handles (trace s') =
              created_handles evs ++
              (if Nat.ltb 1 (List.length clips) then [h'] else [])).
    { rewrite Htr, Hf. unfold created_handles in *.
      rewrite !flat_map_app, Hwn. fold (created_handles (map Closed cl)).
      rewrite map_Closed_creates_nothing, app_nil_r. simpl. f_equal.
      clear - Hnonempty Hf.
      destruct clips as [|c [|c' l]]; [congruence| |].
      - simpl in Hf. destruct before as [|e [|e' b]]; simpl in Hf.
        + discriminate.
        + injection Hf as <-. reflexivity.
        + injection Hf as <- Hf. destruct b; discriminate.
      - simpl in Hf. unfold cl in Hf. simpl in Hf.
        destruct before as [|e [|e' b]]; simpl in Hf; try discriminate.
        injection Hf as <- <- Hf.
        assert (b = []).
        { destruct b as [|e'' b]; [reflexivity|exfalso].
          apply (f_equal (@List.length event)) in Hf.
          simpl in Hf.
          rewrite ?length_app, ?length_map, ?length_app, ?length_map in Hf.
          simpl in Hf.
          rewrite ?length_app, ?length_map, ?length_app, ?length_map in Hf.
          simpl in Hf. lia. }
        subst b. reflexivity. }
    rewrite Hcr', filter_app.
    rewrite Hlo.
    2:{ intros x Hx. unfold cl. rewrite in_app_iff.
        split; [intros [H|H]; [exact H|]|auto].
        destruct (Nat.ltb 1 (List.length clips)); simpl in H; [|tauto].
        destruct H as [H|[]]. simpl in Hx. lia. }
    assert (Hrest :
      filter (fun x => negb (existsb (Nat.eqb x) cl))
        (if Nat.ltb 1 (List.length clips) then [h'] else []) = []).
    { unfold cl. destruct (Nat.ltb 1 (List.length clips)); [|reflexivity].
      simpl.
      assert (E : existsb (Nat.eqb h') (map clip_handle clips ++ [h']) = true).
      { apply existsb_eqb_In, in_or_app. right. left. reflexivity. }
      rewrite E. reflexivity. }
    match goal with
    | |- _ ++ ?f = _ => replace f with (@nil handle) by (symmetry; exact Hrest)
    end.
    rewrite app_nil_r. reflexivity.
  - rewrite Hopened, Hon, Hv. reflexivity.
Qed.

Lemma closes_after_encoding_witness :
  exists s',
    convert_mp4_to_gif two_sizes_world ["second.mp4"; "first.mp4"; "third.mp4"]
      None 10 (Some 1920) "medium" initial
    = (Ok "combined_video.gif", s') /\
    closed_handles (trace s') = [1; 3; 5; 6]%nat /\
    left_open (trace s') = [0; 2; 4]%nat.
Proof.
  pose (run := convert_mp4_to_gif two_sizes_world
                 ["second.mp4"; "first.mp4"; "third.mp4"]
                 None 10 (Some 1920) "medium" initial).
  assert (Hrun : run = (Ok "combined_video.gif", snd run))
    by (vm_compute; reflexivity).
  exists (snd run). split; [exact Hrun|].
  destruct (closes_after_encoding two_sizes_world
              ["second.mp4"; "first.mp4"; "third.mp4"] None 10 (Some 1920)
              "medium" "combined_video.gif" (snd run) Hrun)
    as (_ & Hc & _ & Hl & _).
  rewrite Hc, Hl. vm_compute. split; reflexivity.
Defined.

(** ** Where the result goes *)

Lemma default_output_gif (valid : list string) :
  valid <> [] ->
  exists pre, default_output_path valid = (pre ++ ".gif")%string.
Proof.
  destruct valid as [|p [|q l]]; [congruence| |]; intros _.
  - eexists. reflexivity.
  - unfold default_output_path.
    destruct (join_suffix (dirname p) "combined_video.gif") as [pre E].
    rewrite E. exists (pre ++ "combined_video")%string.
    rewrite append_assoc. reflexivity.
Qed.

Lemma success_opens_valid (w : world)
  (input_paths : list string) (output_path : option string) (fps : Z)
  (width : option Z) (quality : string) (out : string) (s s' : state) :
  convert_mp4_to_gif w input_paths output_path fps width quality s
    = (Ok out, s') ->
  opened_paths (trace s') =
    opened_paths (trace s) ++ filter (valid_input w) input_paths.
Proof.
  intros Hrun. apply convert_success in Hrun.
  destruct Hrun as (first & rest & t & Hv & Ht & Hout & H).
  pose proof (loaded_events t (first :: rest) (next_handle s)) as He.
  destruct (loaded t (next_handle s) (first :: rest)) as [[evs clips] h'].
  destruct H as (Htr & _). destruct He as (Ho & _).
  destruct (skip_warning_quiet w input_paths) as (_ & _ & _ & _ & Hw).
  destruct (finished_events clips h' out (fst (resolve_quality quality fps)))
    as (before & _ & _ & _ & _ & _ & Hf).
  rewrite Htr, Hv. unfold opened_paths in *.
  rewrite !flat_map_app, Hw, Ho, Hf, app_nil_r. reflexivity.
Qed.

(** The default output path (lines 57-65).  When no output path is given, a
    run that returns has written to the path derived from the inputs that
    passed the filter (not from those given): the path ends in ".gif", and
    it is none of the files the run has read, not even up to the case of
    letters.  An input that the filter skipped has no such protection. *)
Theorem default_output_is_no_file_read (w : world)
  (input_paths : list string) (fps : Z) (width : option Z) (quality : string)
  (out : string) (s' : state) :
  convert_mp4_to_gif w input_paths None fps width quality initial
    = (Ok out, s') ->
  out = default_output_path (filter (valid_input w) input_paths) /\
  endswith out ".gif" = true /\
  opened_paths (trace s') = filter (valid_input w) input_paths /\
  forall p, In p (opened_paths (trace s')) -> lower p <> lower out.
Proof.
  intros Hrun. pose proof (success_opens_valid _ _ _ _ _ _ _ _ _ Hrun) as Hop.
  simpl in Hop.
  apply convert_success in Hrun.
  destruct Hrun as (first & rest & t & Hv & _ & Hout & _).
  rewrite Hop, Hv.
  destruct (default_output_gif (first :: rest)) as [pre Hpre]; [discriminate|].
  split; [exact Hout|]. split; [|split; [reflexivity|]].
  - rewrite Hout, Hpre. apply endswith_app.
  - intros p Hin Heq. rewrite <- Hv in Hin. apply filter_In in Hin.
    destruct Hin as [_ Hp]. unfold valid_input in Hp.
    apply andb_prop in Hp. destruct Hp as [_ Hp].
    assert (Hg : endswith (lower out) ".gif" = true).
    { rewrite Hout, Hpre, lower_app. apply endswith_app. }
    rewrite <- Heq in Hg.
    pose proof (endswith_same_length (lower p) ".mp4" ".gif" Hp Hg eq_refl).
    discriminate.
Qed.

Lemma default_output_is_no_file_read_witness :
  exists s',
    convert_mp4_to_gif two_sizes_world ["notes.txt"; "clips/First.MP4"]
      None 10 None "medium" initial
    = (Ok "clips/First.gif", s') /\
    opened_paths (trace s') = ["clips/First.MP4"].
Proof.
  pose (run := convert_mp4_to_gif two_sizes_world
                 ["notes.txt"; "clips/First.MP4"] None 10 None "medium"
                 initial).
  assert (Hrun : run = (Ok "clips/First.gif", snd run))
    by (vm_compute; reflexivity).
  exists (snd run). split; [exact Hrun|].
  destruct (default_output_is_no_file_read two_sizes_world
              ["notes.txt"; "clips/First.MP4"] 10 None "medium"
              "clips/First.gif" (snd run) Hrun) as (_ & _ & Ho & _).
  rewrite Ho. vm_compute. reflexivity.
Defined.

(** An input that is skipped can be the default output: of [a.gif] and
    [a.mp4], both on disk, the first is skipped with a warning and then
    replaced by the result. *)
Example skipped_input_is_overwritten :
  exists s',
    convert_mp4_to_gif two_sizes_world ["a.gif"; "a.mp4"] None 10 None
      "medium" initial = (Ok "a.gif", s') /\
    In (WarnNotMp4 "a.gif") (trace s') /\
    In "a.gif" (map (fun x => snd (fst (fst x))) (encodings (trace s'))).
Proof.
  eexists. split; [vm_compute; reflexivity|].
  split; [left; reflexivity|]. vm_compute. left. reflexivity.
Qed.

(** ** A run that fails, step by step *)

Lemma load_events_quiet (evs : list event) :
  Forall load_event evs ->
  encodings evs = [] /\ closed_handles evs = [] /\ concatenations evs = [] /\
  reported evs = [].
Proof.
  induction 1 as [|e evs He _ (H1 & H2 & H3 & H4)];
    [repeat split; reflexivity|].
  unfold encodings, closed_handles, concatenations, reported in *. simpl.
  rewrite H1, H2, H3, H4.
  destruct e; try contradiction; repeat split; reflexivity.
Qed.

Lemma skip_warning_reports_nothing (w : world) (paths : list string) :
  reported (flat_map (skip_warning w) paths) = [].
Proof.
  induction paths as [|p l IH]; [reflexivity|].
  unfold reported in *. simpl. rewrite filter_app, IH, app_nil_r.
  unfold skip_warning.
  destruct (negb (path_exists w p)); [reflexivity|].
  destruct (negb (endswith (lower p) ".mp4")); reflexivity.
Qed.

Lemma map_Closed_reports_nothing (l : list handle) :
  reported (map Closed l) = [].
Proof. induction l as [|h l IH]; [reflexivity|exact IH]. Qed.

(** The loop after its first iteration, whatever its outcome: what it has
    appended, and where a failure comes from. *)
Lemma load_clips_later_any (w : world) (width : option Z) (rf : float)
  (t : size) (paths : list string) :
  forall (i : nat) (s : state) (r : result unit) (s' : state),
    (1 < i)%nat ->
    target_size s = Some t ->
    load_clips w width rf i paths s = (r, s') ->
    exists evs new,
      trace s' = trace s ++ evs /\
      video_clips s' = video_clips s ++ new /\
      Forall load_event evs /\
      (exists rest, paths = opened_paths evs ++ rest) /\
      match r with
      | Ok _ => opened_paths evs = paths
      | Raise e => exists c, raises w c = Some e
      end.
Proof.
  induction paths as [|path rest IH]; intros i s r s' Hi Ht; simpl.
  - intros H. injection H as <- <-. exists [], []. rewrite !app_nil_r.
    repeat split; try constructor. exists []. reflexivity.
  - unfold VideoFileClip, resized, external, fresh, emit, append_clip.
    unfold_monad.
    destruct (raises w (CallVideoFileClip path)) as [e|] eqn:Eo.
    { intros H. injection H as <- <-. exists [], []. rewrite !app_nil_r.
      split; [reflexivity|]. split; [reflexivity|]. split; [constructor|].
      split; [exists (path :: rest); reflexivity|].
      exists (CallVideoFileClip path). exact Eo. }
    simpl. destruct (Nat.eqb i 1) eqn:Ei; [apply Nat.eqb_eq in Ei; lia|].
    simpl. rewrite Ht.
    simpl.
    destruct (raises w (CallResized (next_handle s))) as [e|] eqn:Er.
    { intros H. injection H as <- <-.
      exists [Opened (next_handle s) path], []. simpl. rewrite app_nil_r.
      split; [reflexivity|]. split; [reflexivity|].
      split; [repeat constructor|].
      split; [exists rest; reflexivity|].
      exists (CallResized (next_handle s)). exact Er. }
    simpl. intros Hrun. apply IH in Hrun; [|lia|reflexivity]. simpl in Hrun.
    destruct Hrun as (evs & new & Htr & Hcl & Hev & [rest' Hpre] & Hr).
    exists (Opened (next_handle s) path
            :: Resized (next_handle s) (S (next_handle s)) t :: evs),
           (mkClip (S (next_handle s)) t :: new).
    rewrite Htr, Hcl, <- !app_assoc.
    split; [reflexivity|]. split; [reflexivity|].
    split; [repeat constructor; exact Hev|].
    split; [exists rest'; unfold opened_paths in *; simpl; f_equal; exact Hpre|].
    destruct r; [|exact Hr].
    unfold opened_paths in *. simpl. f_equal. exact Hr.
Qed.

(** The loop from its first iteration. *)
Lemma load_clips_first_any (w : world) (width : option Z) (rf : float)
  (path : string) (rest : list string) (s : state) (r : result unit)
  (s' : state) :
  load_clips w width rf 1 (path :: rest) s = (r, s') ->
  exists evs new,
    trace s' = trace s ++ evs /\
    video_clips s' = video_clips s ++ new /\
    Forall load_event evs /\
    (exists rest', path :: rest = opened_paths evs ++ rest') /\
    match r with
    | Ok _ => opened_paths evs = path :: rest
    | Raise e =>
        (exists c, raises w c = Some e) \/
        compute_target width (video_size w path) rf = Raise e
    end.
Proof.
  simpl. unfold VideoFileClip, resized, external, fresh, emit, append_clip,
    set_target_size. unfold_monad.
  destruct (raises w (CallVideoFileClip path)) as [e|] eqn:Eo.
  { intros H. injection H as <- <-. exists [], []. rewrite !app_nil_r.
    split; [reflexivity|]. split; [reflexivity|]. split; [constructor|].
    split; [exists (path :: rest); reflexivity|].
    left. exists (CallVideoFileClip path). exact Eo. }
  simpl.
  destruct (compute_target width (video_size w path) rf) as [t|e] eqn:Et.
  2:{ simpl. intros H. injection H as <- <-.
      exists [Opened (next_handle s) path], []. simpl. rewrite app_nil_r.
      split; [reflexivity|]. split; [reflexivity|].
      split; [repeat constructor|].
      split; [exists rest; reflexivity|]. right. reflexivity. }
  simpl.
  destruct (raises w (CallResized (next_handle s))) as [e|] eqn:Er.
  { intros H. injection H as <- <-.
    exists [Opened (next_handle s) path], []. simpl. rewrite app_nil_r.
    split; [reflexivity|]. split; [reflexivity|].
    split; [repeat constructor|].
    split; [exists rest; reflexivity|].
    left. exists (CallResized (next_handle s)). exact Er. }
  simpl. intros Hrun.
  apply (load_clips_later_any w width rf t rest) in Hrun; [|lia|reflexivity].
  simpl in Hrun.
  destruct Hrun as (evs & new & Htr & Hcl & Hev & [rest' Hpre] & Hr).
  exists (Opened (next_handle s) path
          :: Resized (next_handle s) (S (next_handle s)) t :: evs),
         (mkClip (S (next_handle s)) t :: new).
  rewrite Htr, Hcl, <- !app_assoc.
  split; [reflexivity|]. split; [reflexivity|].
  split; [repeat constructor; exact Hev|].
  split; [exists rest'; unfold opened_paths in *; simpl; f_equal; exact Hpre|].
  destruct r; [|left; exact Hr].
  unfold opened_paths in *. simpl. f_equal. exact Hr.
Qed.

(** The clean-up loop of the normal path, whatever its outcome. *)
Lemma close_all_any (w : world) (clips : list clip) :
  forall s r s',
    for_each clips (close w) s = (r, s') ->
    exists closed,
      s' = add_events s (map Closed closed) /\
      match r with
      | Ok _ => closed = map clip_handle clips
      | Raise e => exists h, raises w (CallClose h) = Some e
      end.
Proof.
  induction clips as [|c clips IH]; intros s r s'; simpl.
  - intros H. injection H as <- <-. exists []. rewrite add_events_nil.
    split; reflexivity.
  - unfold bind. rewrite close_run.
    destruct (raises w (CallClose (clip_handle c))) as [e|] eqn:Ec.
    + intros H. injection H as <- <-. exists []. rewrite add_events_nil.
      split; [reflexivity|]. exists (clip_handle c). exact Ec.
    + intros H. apply IH in H. destruct H as (closed & -> & Hr).
      exists (clip_handle c :: closed). rewrite add_events_app.
      split; [reflexivity|]. destruct r; [|exact Hr]. f_equal. exact Hr.
Qed.

(** The clean-up loop of the handler. *)
Lemma close_quietly_any (w : world) (clips : list clip) :
  forall s, exists closed,
    for_each clips (fun c => try_pass (close w c)) s
      = (Ok tt, add_events s (map Closed closed)) /\
    forall c, In c clips -> raises w (CallClose (clip_handle c)) = None ->
              In (clip_handle c) closed.
Proof.
  induction clips as [|c clips IH]; intros s; simpl.
  - exists []. rewrite add_events_nil. split; [reflexivity|]. intros c [].
  - unfold bind. rewrite try_pass_close_run.
    destruct (raises w (CallClose (clip_handle c))) as [e|] eqn:Ec.
    + destruct (IH s) as (closed & Hrun & Hin). exists closed.
      split; [exact Hrun|].
      intros c' [<-|Hc'] Hr; [congruence|]. apply Hin; assumption.
    + destruct (IH (add_events s [Closed (clip_handle c)]))
        as (closed & Hrun & Hin).
      exists (clip_handle c :: closed). rewrite Hrun, add_events_app.
      split; [reflexivity|].
      intros c' [<-|Hc'] Hr; [left; reflexivity|].
      right. apply Hin; assumption.
Qed.

Lemma convert_handler_any (w : world) (e : exn) (s : state) :
  exists closed,
    convert_handler w e s =
      (Raise (mkExn Exception
                ("Error converting MP4(s) to GIF: " ++ exn_msg e)%string),
       add_events s (map Closed closed)) /\
    forall c, In c (video_clips s) ->
              raises w (CallClose (clip_handle c)) = None ->
              In (clip_handle c) closed.
Proof.
  unfold convert_handler. unfold bind at 1 2. unfold get, raise.
  destruct (close_quietly_any w (video_clips s) s) as (closed & Hrun & Hin).
  rewrite Hrun. exists closed. split; [reflexivity|exact Hin].
Qed.

(** Concatenation, encoding and clean-up, whatever the outcome: at most one
    concatenation, then at most one encoding, then closes; a failure after
    the encoding is a failure of [close] or of [getsize]. *)
Lemma encode_and_close_any (w : world) (clips : list clip)
  (output_path : string) (fps : Z) (s : state) (r : result string)
  (s' : state) :
  encode_and_close w clips output_path fps s = (r, s') ->
  exists pre wrote closed,
    trace s' = trace s ++ pre ++ wrote ++ map Closed closed /\
    video_clips s' = video_clips s /\
    (pre = [] \/ exists h parts, pre = [Concatenated h parts]) /\
    encodings pre = [] /\ closed_handles pre = [] /\ opened_paths pre = [] /\
    reported pre = [] /\
    ((wrote = [] /\ closed = []) \/
     exists h, wrote = [WroteGif h output_path fps 0]) /\
    match r with
    | Ok o => o = output_path /\ exists h, wrote = [WroteGif h output_path fps 0]
    | Raise e =>
        (exists c, raises w c = Some e) /\
        (wrote <> [] ->
         (exists h, raises w (CallClose h) = Some e) \/
         raises w CallGetsize = Some e)
    end.
Proof.
  assert (Htail : forall (final : clip) (s0 : state),
    (write_gif w final output_path fps 0 ;;;
     for_each clips (close w) ;;;
     (if Nat.ltb 1 (List.length clips) then close w final else ret tt) ;;;
     getsize w ;;; ret output_path) s0 = (r, s') ->
    exists wrote closed,
      trace s' = trace s0 ++ wrote ++ map Closed closed /\
      video_clips s' = video_clips s0 /\
      ((wrote = [] /\ closed = []) \/
       exists h, wrote = [WroteGif h output_path fps 0]) /\
      match r with
      | Ok o => o = output_path /\ exists h, wrote = [WroteGif h output_path fps 0]
      | Raise e =>
          (exists c, raises w c = Some e) /\
          (wrote <> [] ->
           (exists h, raises w (CallClose h) = Some e) \/
           raises w CallGetsize = Some e)
      end).
  { intros final s0 H.
    unfold write_gif, getsize, external, emit in H.
    unfold bind at 1 2 in H. unfold ret at 1, raise at 1, modify at 1 in H.
    destruct (raises w CallWriteGif) as [e|] eqn:Ew.
    { injection H as <- <-. exists [], []. simpl. rewrite app_nil_r.
      split; [reflexivity|]. split; [reflexivity|].
      split; [left; split; reflexivity|].
      split; [exists CallWriteGif; exact Ew|]. intros Hn. congruence. }
    simpl in H. unfold bind at 1 in H.
    match type of H with context [for_each clips (close w) ?s1] =>
      destruct (for_each clips (close w) s1) as [r1 s2] eqn:Ecl;
      apply close_all_any in Ecl; destruct Ecl as (closed & -> & Hr1)
    end.
    destruct r1 as [[]|e].
    2:{ injection H as <- <-.
        exists [WroteGif (clip_handle final) output_path fps 0], closed.
        simpl. rewrite <- app_assoc. split; [reflexivity|].
        split; [reflexivity|].
        split; [right; eexists; reflexivity|].
        destruct Hr1 as [h Hh].
        split; [exists (CallClose h); exact Hh|]. intros _. left.
        exists h. exact Hh. }
    subst closed. unfold bind at 1 in H.
    destruct (Nat.ltb 1 (List.length clips)).
    - rewrite close_run in H.
      destruct (raises w (CallClose (clip_handle final))) as [e|] eqn:Ef.
      + injection H as <- <-.
        exists [WroteGif (clip_handle final) output_path fps 0],
               (map clip_handle clips).
        simpl. rewrite <- app_assoc. split; [reflexivity|].
        split; [reflexivity|].
        split; [right; eexists; reflexivity|].
        split; [exists (CallClose (clip_handle final)); exact Ef|].
        intros _. left. exists (clip_handle final). exact Ef.
      + unfold bind, ret, raise in H.
        exists [WroteGif (clip_handle final) output_path fps 0],
               (map clip_handle clips ++ [clip_handle final]).
        destruct (raises w CallGetsize) as [e|] eqn:Eg;
          injection H as <- <-; simpl;
          rewrite <- !app_assoc, map_app; simpl;
          (split; [reflexivity|]); (split; [reflexivity|]);
          (split; [right; eexists; reflexivity|]);
          [|split; [reflexivity|eexists; reflexivity]].
        split; [exists CallGetsize; exact Eg|]. intros _. right. reflexivity.
    - unfold bind, ret, raise in H.
      exists [WroteGif (clip_handle final) output_path fps 0],
             (map clip_handle clips).
      destruct (raises w CallGetsize) as [e|] eqn:Eg;
        injection H as <- <-; simpl;
        rewrite <- !app_assoc; simpl;
        (split; [reflexivity|]); (split; [reflexivity|]);
        (split; [right; eexists; reflexivity|]);
          [|split; [reflexivity|eexists; reflexivity]].
      split; [exists CallGetsize; exact Eg|]. intros _. right. reflexivity. }
  assert (Hmany :
    (final_video <- concatenate_videoclips w clips ;;
     write_gif w final_video output_path fps 0 ;;;
     for_each clips (close w) ;;;
     (if Nat.ltb 1 (List.length clips) then close w final_video else ret tt) ;;;
     getsize w ;;; ret output_path) s = (r, s') ->
    exists pre wrote closed,
      trace s' = trace s ++ pre ++ wrote ++ map Closed closed /\
      video_clips s' = video_clips s /\
      (pre = [] \/ exists h parts, pre = [Concatenated h parts]) /\
    encodings pre = [] /\ closed_handles pre = [] /\ opened_paths pre = [] /\
    reported pre = [] /\
      ((wrote = [] /\ closed = []) \/
       exists h, wrote = [WroteGif h output_path fps 0]) /\
      match r with
      | Ok o => o = output_path /\ exists h, wrote = [WroteGif h output_path fps 0]
      | Raise e =>
          (exists c, raises w c = Some e) /\
          (wrote <> [] ->
           (exists h, raises w (CallClose h) = Some e) \/
           raises w CallGetsize = Some e)
      end).
  { intros H. unfold concatenate_videoclips, external, fresh, emit in H.
    unfold bind at 1 2 3 4 in H. unfold ret at 1 2, raise at 1, modify at 1 in H.
    destruct (raises w CallConcatenate) as [e|] eqn:Ec.
    { injection H as <- <-. exists [], [], []. simpl. rewrite app_nil_r.
      repeat split.
      - left. reflexivity.
      - left. split; reflexivity.
      - exists CallConcatenate. exact Ec.
      - intros Hn. congruence. }
    simpl in H. apply Htail in H. simpl in H.
    destruct H as (wrote & closed & Htr & Hcl & Hw & Hr).
    exists [Concatenated (next_handle s) (map clip_handle clips)], wrote, closed.
    rewrite <- app_assoc in Htr. split; [exact Htr|].
    split; [exact Hcl|]. split; [right; eexists _, _; reflexivity|].
    repeat split; assumption. }
  unfold encode_and_close.
  destruct clips as [|c [|c' l]]; try exact Hmany.
  intros H. unfold bind at 1 in H. unfold ret at 1 in H.
  apply Htail in H. destruct H as (wrote & closed & Htr & Hcl & Hw & Hr).
  exists [], wrote, closed. simpl. repeat split; try assumption.
  left. reflexivity.
Qed.

(** A run of [convert_mp4_to_gif] on at least one valid input, whatever its
    outcome: what the trace looks like, where a failure comes from, and
    what the handler has closed. *)
Lemma convert_any (w : world) (input_paths : list string)
  (output_path : option string) (fps : Z) (width : option Z) (quality : string)
  (s : state) (r : result string) (s' : state) (first : string)
  (rest : list string) :
  filter (valid_input w) input_paths = first :: rest ->
  convert_mp4_to_gif w input_paths output_path fps width quality s = (r, s') ->
  exists loads conc wrote closed,
    trace s' = trace s ++ (flat_map (skip_warning w) input_paths
                           ++ loads ++ conc)
               ++ wrote ++ map Closed closed /\
    Forall load_event loads /\
    (exists rest', first :: rest = opened_paths loads ++ rest') /\
    (conc = [] \/ exists h parts, conc = [Concatenated h parts]) /\
    (wrote = [] \/
     (exists h, wrote =
        [WroteGif h match output_path with
                    | Some o => o
                    | None => default_output_path (first :: rest)
                    end (fst (resolve_quality quality fps)) 0]) /\
     opened_paths loads = first :: rest) /\
    match r with
    | Ok _ => wrote <> []
    | Raise e =>
        exists e0,
          e = conversion_failure e0 /\
          ((exists c, raises w c = Some e0) \/
           compute_target width (video_size w first)
             (snd (resolve_quality quality fps)) = Raise e0) /\
          (is_Exception e0 = true ->
           forall c, In c (video_clips s') ->
                     raises w (CallClose (clip_handle c)) = None ->
                     In (clip_handle c) closed) /\
          (wrote <> [] ->
           (exists h, raises w (CallClose h) = Some e0) \/
           raises w CallGetsize = Some e0)
    end.
Proof.
  intros Hv H.
  pose proof (validate_spec w input_paths [] s) as Hval. simpl app in Hval.
  unfold convert_mp4_to_gif in H. unfold bind at 1 in H. rewrite Hval in H.
  clear Hval. rewrite Hv in H.
  destruct (resolve_quality quality fps) as [fps' rf]. simpl fst. simpl snd.
  set (o := match output_path with
            | Some o => o
            | None => default_output_path (first :: rest)
            end) in *.
  set (ws := flat_map (skip_warning w) input_paths) in *.
  set (s0 := add_events s ws) in *.
  unfold try_except, convert_body, set_video_clips in H.
  unfold bind at 1 2 in H. unfold modify at 1 in H.
  set (s1 := mkState (next_handle s0) (trace s0) [] (target_size s0)) in *.
  destruct (load_clips w width rf 1 (first :: rest) s1) as [[[]|e] s2] eqn:El;
    apply load_clips_first_any in El;
    destruct El as (evs & new & Htr & Hcl & Hev & Hpre & Hr);
    simpl in Htr.
  - (* the loop finished *)
    unfold bind at 1 in H. unfold get at 1 in H.
    destruct (encode_and_close w (video_clips s2) o fps' s2) as [r3 s3] eqn:Ee.
    apply encode_and_close_any in Ee.
    destruct Ee as (pre & wrote & closed & Htr3 & Hcl3 & Hp0 & _ & _ & _ & _
                    & Hw & Hr3).
    assert (Hwrote :
      wrote = [] \/
      (exists h, wrote = [WroteGif h o fps' 0]) /\
      opened_paths evs = first :: rest).
    { destruct Hw as [[-> _]|Hw]; [left; reflexivity|right; split; assumption]. }
    destruct r3 as [o'|e].
    + injection H as <- <-.
      exists evs, pre, wrote, closed.
      split; [rewrite Htr3, Htr, <- !app_assoc; reflexivity|].
      split; [exact Hev|]. split; [exact Hpre|]. split; [exact Hp0|].
      split; [exact Hwrote|].
      destruct Hr3 as [_ [h ->]]. discriminate.
    + destruct Hr3 as [Horigin Hlate].
      destruct (is_Exception e) eqn:Eex.
      * destruct (convert_handler_any w e s3) as (closed2 & Hh & Hin).
        rewrite Hh in H. injection H as <- <-.
        exists evs, pre, wrote, (closed ++ closed2).
        split; [simpl; rewrite Htr3, Htr, map_app, <- !app_assoc; reflexivity|].
        split; [exact Hev|]. split; [exact Hpre|]. split; [exact Hp0|].
        split; [exact Hwrote|].
        exists e. unfold conversion_failure. rewrite Eex.
        split; [reflexivity|]. split; [left; exact Horigin|].
        split; [|exact Hlate].
        intros _ c Hc Hclose. apply in_or_app. right.
        apply Hin; assumption.
      * injection H as <- <-.
        exists evs, pre, wrote, closed.
        split; [rewrite Htr3, Htr, <- !app_assoc; reflexivity|].
        split; [exact Hev|]. split; [exact Hpre|]. split; [exact Hp0|].
        split; [exact Hwrote|].
        exists e. unfold conversion_failure. rewrite Eex.
        split; [reflexivity|]. split; [left; exact Horigin|].
        split; [discriminate|exact Hlate].
  - (* the loop raised *)
    destruct (is_Exception e) eqn:Eex.
    + destruct (convert_handler_any w e s2) as (closed2 & Hh & Hin).
      rewrite Hh in H. injection H as <- <-.
      exists evs, [], [], closed2.
      split; [simpl; rewrite Htr, app_nil_r, <- !app_assoc; reflexivity|].
      split; [exact Hev|]. split; [exact Hpre|]. split; [left; reflexivity|].
      split; [left; reflexivity|].
      exists e. unfold conversion_failure. rewrite Eex.
      split; [reflexivity|]. split; [exact Hr|].
      split; [|intros Hn; congruence].
      intros _ c Hc Hclose. apply Hin; assumption.
    + injection H as <- <-.
      exists evs, [], [], [].
      split; [simpl; rewrite Htr, !app_nil_r, <- !app_assoc; reflexivity|].
      split; [exact Hev|]. split; [exact Hpre|]. split; [left; reflexivity|].
      split; [left; reflexivity|].
      exists e. unfold conversion_failure. rewrite Eex.
      split; [reflexivity|]. split; [exact Hr|].
      split; [discriminate|intros Hn; congruence].
Qed.

(** The first phase of a run is silent: it writes nothing, closes nothing
    and reports nothing. *)
Lemma first_phase_quiet (w : world) (input_paths : list string)
  (loads conc : list event) :
  Forall load_event loads ->
  (conc = [] \/ exists h parts, conc = [Concatenated h parts]) ->
  let before := flat_map (skip_warning w) input_paths ++ loads ++ conc in
  encodings before = [] /\ closed_handles before = [] /\
  reported before = [] /\ opened_paths before = opened_paths loads.
Proof.
  intros Hl Hc before. subst before.
  destruct (skip_warning_quiet w input_paths) as (Hwe & _ & _ & Hwd & Hwo).
  pose proof (skip_warning_reports_nothing w input_paths) as Hwr.
  destruct (load_events_quiet loads Hl) as (Hle & Hld & _ & Hlr).
  unfold reported in *. rewrite !filter_app, Hwr, Hlr.
  unfold encodings, closed_handles, opened_paths in *.
  rewrite !flat_map_app, Hwe, Hwd, Hwo, Hle, Hld.
  destruct Hc as [->|(h & parts & ->)]; simpl; rewrite ?app_nil_r;
    repeat split; reflexivity.
Qed.

(** The same run, the first phase taken as a whole. *)
Lemma convert_any_quiet (w : world) (input_paths : list string)
  (output_path : option string) (fps : Z) (width : option Z) (quality : string)
  (s : state) (r : result string) (s' : state) (first : string)
  (rest : list string) :
  filter (valid_input w) input_paths = first :: rest ->
  convert_mp4_to_gif w input_paths output_path fps width quality s = (r, s') ->
  exists before wrote closed,
    trace s' = trace s ++ before ++ wrote ++ map Closed closed /\
    encodings before = [] /\ closed_handles before = [] /\
    reported before = [] /\
    (wrote = [] \/
     (exists h, wrote =
        [WroteGif h match output_path with
                    | Some o => o
                    | None => default_output_path (first :: rest)
                    end (fst (resolve_quality quality fps)) 0]) /\
     opened_paths before = first :: rest) /\
    match r with
    | Ok _ => wrote <> []
    | Raise e =>
        exists e0,
          e = conversion_failure e0 /\
          ((exists c, raises w c = Some e0) \/
           compute_target width (video_size w first)
             (snd (resolve_quality quality fps)) = Raise e0) /\
          (is_Exception e0 = true ->
           forall c, In c (video_clips s') ->
                     raises w (CallClose (clip_handle c)) = None ->
                     In (clip_handle c) closed) /\
          (wrote <> [] ->
           (exists h, raises w (CallClose h) = Some e0) \/
           raises w CallGetsize = Some e0)
    end.
Proof.
  intros Hv Hrun.
  destruct (convert_any w input_paths output_path fps width quality s r s'
              first rest Hv Hrun)
    as (loads & conc & wrote & closed & Htr & Hev & _ & Hconc & Hw & Hr).
  destruct (first_phase_quiet w input_paths loads conc Hev Hconc)
    as (Hb1 & Hb2 & Hb3 & Hb4).
  exists (flat_map (skip_warning w) input_paths ++ loads ++ conc), wrote,
         closed.
  split; [exact Htr|]. split; [exact Hb1|]. split; [exact Hb2|].
  split; [exact Hb3|]. split; [|exact Hr].
  destruct Hw as [Hw|[Hw Ho]]; [left; exact Hw|right].
  split; [exact Hw|]. rewrite Hb4. exact Ho.
Qed.

(** ** The order of a run *)

(** The phases of a run (lines 44-166).  In every run, whatever its
    outcome, the trace is made of five parts in this order: the warnings
    for the inputs skipped; openings and resizings only, of the valid
    inputs in their order, as far as the run got; at most one
    concatenation; at most one encoding that has returned (a [write_gif]
    call that raises leaves no event); and, last, closes only.  When an
    encoding has returned, every valid input was opened before it, and it
    went to the output path, at the resolved frame rate, with repeat
    count 0. *)
Theorem phases_of_a_run (w : world)
  (input_paths : list string) (output_path : option string) (fps : Z)
  (width : option Z) (quality : string) :
  let valid := filter (valid_input w) input_paths in
  let out := match output_path with
             | Some o => o
             | None => default_output_path valid
             end in
  let tr := trace (snd (convert_mp4_to_gif w input_paths output_path fps
                          width quality initial)) in
  exists loads conc wrote closed,
    tr = flat_map (skip_warning w) input_paths ++ loads ++ conc ++ wrote
         ++ map Closed closed /\
    Forall load_event loads /\
    (exists rest, valid = opened_paths loads ++ rest) /\
    (conc = [] \/ exists h parts, conc = [Concatenated h parts]) /\
    (wrote = [] \/
     (exists h, wrote = [WroteGif h out (fst (resolve_quality quality fps)) 0])
     /\ opened_paths loads = valid).
Proof.
  intros valid out tr.
  destruct (convert_mp4_to_gif w input_paths output_path fps width quality
              initial) as [r s'] eqn:Hrun.
  subst tr. simpl snd.
  destruct valid as [|first rest] eqn:Hv.
  - pose proof (convert_mp4_to_gif_run w input_paths output_path fps width
                  quality initial) as H.
    cbv zeta in H. fold valid in H. rewrite Hv in H.
    rewrite Hrun in H. injection H as _ ->.
    exists [], [], [], []. simpl. rewrite app_nil_r.
    split; [reflexivity|]. split; [constructor|].
    split; [exists []; reflexivity|]. split; left; reflexivity.
  - destruct (convert_any w input_paths output_path fps width quality initial
                r s' first rest Hv Hrun)
      as (loads & conc & wrote & closed & Htr & Hev & Hpre & Hconc & Hw & _).
    simpl in Htr. exists loads, conc, wrote, closed.
    split; [rewrite Htr, <- !app_assoc; reflexivity|].
    split; [exact Hev|]. split; [exact Hpre|]. split; [exact Hconc|].
    exact Hw.
Qed.

(** ** A run that fails *)

(** Where a failure comes from (lines 54-55, 159-166).  A run that fails
    with no valid input raises [FileNotFoundError].  With a valid input,
    what it raises is the failure of a library call or of the geometry
    computation of the first clip, re-raised as a plain [Exception] whose
    message is the original one after "Error converting MP4(s) to GIF: "
    (or passed on as it is when it is not an [Exception]); the script adds
    no failure of its own, and [target_size] is never read before it is
    assigned. *)
Theorem failure_origin (w : world)
  (input_paths : list string) (output_path : option string) (fps : Z)
  (width : option Z) (quality : string) (e : exn) (s' : state) :
  convert_mp4_to_gif w input_paths output_path fps width quality initial
    = (Raise e, s') ->
  match filter (valid_input w) input_paths with
  | [] => e = mkExn FileNotFoundError "No valid MP4 files found"
  | first :: _ =>
      exists e0,
        ((exists c, raises w c = Some e0) \/
         compute_target width (video_size w first)
           (snd (resolve_quality quality fps)) = Raise e0) /\
        e = if is_Exception e0
            then mkExn Exception
                   ("Error converting MP4(s) to GIF: " ++ exn_msg e0)%string
            else e0
  end.
Proof.
  intros Hrun.
  destruct (filter (valid_input w) input_paths) as [|first rest] eqn:Hv.
  - pose proof (convert_mp4_to_gif_run w input_paths output_path fps width
                  quality initial) as H.
    cbv zeta in H. rewrite Hv in H. rewrite Hrun in H.
    injection H as -> _. reflexivity.
  - destruct (convert_any_quiet w input_paths output_path fps width quality initial
                (Raise e) s' first rest Hv Hrun)
      as (before & wrote & closed & _ & _ & _ & _ & _ & e0 & He & Ho & _).
    exists e0. split; [exact Ho|exact He].
Qed.

Lemma failure_origin_witness :
  exists e0,
    ((exists c, raises encoder_fails_world c = Some e0) \/
     compute_target None (video_size encoder_fails_world "a.mp4")
       (snd (resolve_quality "medium" 10)) = Raise e0) /\
    mkExn Exception "Error converting MP4(s) to GIF: No space left on device"
    = if is_Exception e0
      then mkExn Exception
             ("Error converting MP4(s) to GIF: " ++ exn_msg e0)%string
      else e0.
Proof.
  pose (run := convert_mp4_to_gif encoder_fails_world ["a.mp4"; "b.mp4"] None
                 10 None "medium" initial).
  assert (Hrun : run =
            (Raise (mkExn Exception
               "Error converting MP4(s) to GIF: No space left on device"),
             snd run))
    by (vm_compute; reflexivity).
  exact (failure_origin encoder_fails_world ["a.mp4"; "b.mp4"] None 10
           None "medium" _ (snd run) Hrun).
Defined.

(** Clean-up on failure (lines 159-165).  When a run fails with an
    [Exception], every clip collected so far whose [close] does not itself
    fail has been closed when the failure reaches the caller. *)
Theorem failure_closes_collected_clips (w : world)
  (input_paths : list string) (output_path : option string) (fps : Z)
  (width : option Z) (quality : string) (e : exn) (s' : state) :
  convert_mp4_to_gif w input_paths output_path fps width quality initial
    = (Raise e, s') ->
  is_Exception e = true ->
  forall c, In c (video_clips s') ->
            raises w (CallClose (clip_handle c)) = None ->
            In (clip_handle c) (closed_handles (trace s')).
Proof.
  intros Hrun Hex c Hc Hclose.
  destruct (filter (valid_input w) input_paths) as [|first rest] eqn:Hv.
  - pose proof (convert_mp4_to_gif_run w input_paths output_path fps width
                  quality initial) as H.
    cbv zeta in H. rewrite Hv in H. rewrite Hrun in H.
    injection H as _ ->. simpl in Hc. contradiction.
  - destruct (convert_any_quiet w input_paths output_path fps width quality initial
                (Raise e) s' first rest Hv Hrun)
      as (before & wrote & closed & Htr & _ & _ & _ & _ & e0 & He & _ & Hin & _).
    assert (Hex0 : is_Exception e0 = true).
    { unfold conversion_failure in He.
      destruct (is_Exception e0) eqn:E; [reflexivity|]. congruence. }
    simpl in Htr. rewrite Htr. unfold closed_handles.
    rewrite !flat_map_app. apply in_or_app. right. apply in_or_app. right.
    fold (closed_handles (map Closed closed)).
    rewrite closed_handles_map_Closed. apply Hin; assumption.
Qed.

Lemma failure_closes_collected_clips_witness :
  In 1%nat
     (closed_handles
        (trace (snd (convert_mp4_to_gif encoder_fails_world ["a.mp4"; "b.mp4"]
                       None 10 None "medium" initial)))).
Proof.
  pose (run := convert_mp4_to_gif encoder_fails_world ["a.mp4"; "b.mp4"] None
                 10 None "medium" initial).
  assert (Hrun : run =
            (Raise (mkExn Exception
               "Error converting MP4(s) to GIF: No space left on device"),
             snd run))
    by (vm_compute; reflexivity).
  assert (Hin : In (mkClip 1%nat (448, 336)) (video_clips (snd run)))
    by (vm_compute; left; reflexivity).
  exact (failure_closes_collected_clips encoder_fails_world ["a.mp4"; "b.mp4"]
           None 10 None "medium" _ (snd run) Hrun eq_refl
           (mkClip 1%nat (448, 336)) Hin eq_refl).
Defined.

(** A failed run has no finished encoding (lines 125-157).  If no [close]
    and not [getsize] fails, then in a run that fails no [write_gif] call
    has returned: the failure came from [write_gif] itself or from a step
    before it.  ([write_gif] may have been called, and may have left a
    partial file: a call that raises leaves no event.) *)
Theorem failure_not_after_encoding (w : world)
  (input_paths : list string) (output_path : option string) (fps : Z)
  (width : option Z) (quality : string) (e : exn) (s' : state) :
  (forall h, raises w (CallClose h) = None) ->
  raises w CallGetsize = None ->
  convert_mp4_to_gif w input_paths output_path fps width quality initial
    = (Raise e, s') ->
  encodings (trace s') = [].
Proof.
  intros Hclose Hsize Hrun.
  destruct (filter (valid_input w) input_paths) as [|first rest] eqn:Hv.
  - pose proof (convert_mp4_to_gif_run w input_paths output_path fps width
                  quality initial) as H.
    cbv zeta in H. rewrite Hv in H. rewrite Hrun in H.
    injection H as _ ->. simpl.
    destruct (skip_warning_quiet w input_paths) as (Hwe & _). exact Hwe.
  - destruct (convert_any_quiet w input_paths output_path fps width quality initial
                (Raise e) s' first rest Hv Hrun)
      as (before & wrote & closed & Htr & Hb & _ & _ & _ & e0 & _ & _ & _ & Hlate).
    destruct (map_Closed_quiet closed) as (Hc & _).
    destruct wrote as [|x wrote].
    + simpl in Htr. rewrite Htr. unfold encodings in *.
      rewrite !flat_map_app, Hb, Hc. reflexivity.
    + exfalso. destruct Hlate as [[h Hh]|Hg]; [discriminate| |].
      * rewrite Hclose in Hh. discriminate.
      * rewrite Hsize in Hg. discriminate.
Qed.

Lemma failure_not_after_encoding_witness :
  encodings (trace (snd (convert_mp4_to_gif encoder_fails_world
                           ["a.mp4"; "b.mp4"] None 10 None "medium" initial)))
  = [].
Proof.
  pose (run := convert_mp4_to_gif encoder_fails_world ["a.mp4"; "b.mp4"] None
                 10 None "medium" initial).
  assert (Hrun : run =
            (Raise (mkExn Exception
               "Error converting MP4(s) to GIF: No space left on device"),
             snd run))
    by (vm_compute; reflexivity).
  exact (failure_not_after_encoding encoder_fails_world ["a.mp4"; "b.mp4"] None
           10 None "medium" _ (snd run) (fun _ => eq_refl) eq_refl Hrun).
Defined.

(** ** main *)

(** The exit status and the final state of [main], from the run of
    [convert_mp4_to_gif] on the expanded inputs. *)
Lemma creator_main_run (w : world) (a : args) :
  let expanded := flat_map (expansion w) (inputs a) in
  let s0 := add_events initial
              (flat_map (no_match_warning w) (inputs a)
               ++ no_mp4_warning expanded) in
  main w a =
  match expanded with
  | [] => (1, add_events initial (flat_map (no_match_warning w) (inputs a)))
  | _ :: _ =>
      match convert_mp4_to_gif w expanded (output a) (arg_fps a)
              (arg_width a) (arg_quality a) s0 with
      | (Ok _, s1) =>
          match raises w CallGetsize with
          | None => (0, s1)
          | Some e =>
              (1, if is_Exception e then add_events s1 (error_report e)
                  else s1)
          end
      | (Raise e, s1) =>
          (1, if is_Exception e then add_events s1 (error_report e) else s1)
      end
  end.
Proof.
  intros expanded s0.
  set (s00 := add_events initial (flat_map (no_match_warning w) (inputs a))).
  assert (Hexp : expand_inputs w (inputs a) [] initial = (Ok expanded, s00))
    by (rewrite expand_inputs_spec; reflexivity).
  assert (Hreport : forall e s1,
    (emit (PrintedError (exn_msg e)) ;;;
     (if exn_class_eqb (exn_cls e) FileNotFoundError then ret tt
      else emit PrintedDependencyHint) ;;;
     @sys_exit unit "1") s1
    = (Raise (mkExn SystemExit "1"), add_events s1 (error_report e))).
  { intros e s1. unfold error_report, sys_exit, emit, add_events.
    unfold bind, modify, raise, ret.
    destruct (exn_class_eqb (exn_cls e) FileNotFoundError); simpl;
      rewrite <- ?app_assoc; reflexivity. }
  unfold main, main_body, try_except. unfold bind at 1. rewrite Hexp.
  clearbody expanded. destruct expanded as [|x xs].
  { unfold sys_exit, raise. simpl. reflexivity. }
  assert (Hwarn :
    (if forallb (fun f => negb (endswith (lower f) ".mp4")) (x :: xs)
     then emit WarnNoMp4Inputs else ret tt) s00 = (Ok tt, s0)).
  { unfold s0, no_mp4_warning, s00.
    destruct (forallb _ (x :: xs)).
    - rewrite emit_run, add_events_app. reflexivity.
    - rewrite app_nil_r. reflexivity. }
  unfold bind at 1. rewrite Hwarn. unfold bind at 1.
  destruct (convert_mp4_to_gif w (x :: xs) (output a) (arg_fps a)
              (arg_width a) (arg_quality a) s0) as [[o|e] s1].
  - unfold getsize, external.
    destruct (raises w CallGetsize) as [e|]; [|reflexivity].
    unfold raise. destruct (is_Exception e); [|reflexivity].
    rewrite Hreport. reflexivity.
  - destruct (is_Exception e); [|reflexivity].
    rewrite Hreport. reflexivity.
Qed.

(** "Trying anyway" (lines 231-233, 44-55, 265-267).  When no expanded
    input has a name ending in ".mp4" (in any case of letters), [main]
    prints the warning that it tries anyway, and the attempt always fails:
    every input is skipped with its own warning, nothing is opened or
    written, the error "No valid MP4 files found" is printed without the
    hint about missing packages, and the exit status is 1. *)
Theorem trying_anyway_fails (w : world) (a : args) :
  flat_map (expansion w) (inputs a) <> [] ->
  Forall (fun f => endswith (lower f) ".mp4" = false)
         (flat_map (expansion w) (inputs a)) ->
  main w a =
  (1, add_events initial
        (flat_map (no_match_warning w) (inputs a)
         ++ [WarnNoMp4Inputs]
         ++ flat_map (skip_warning w) (flat_map (expansion w) (inputs a))
         ++ [PrintedError "No valid MP4 files found"])).
Proof.
  intros Hne Hall. rewrite creator_main_run. cbv zeta.
  set (expanded := flat_map (expansion w) (inputs a)) in *.
  assert (Hw : no_mp4_warning expanded = [WarnNoMp4Inputs]).
  { unfold no_mp4_warning.
    replace (forallb (fun f => negb (endswith (lower f) ".mp4")) expanded)
      with true; [reflexivity|].
    symmetry. apply forallb_forall. intros f Hf.
    rewrite Forall_forall in Hall. rewrite (Hall f Hf). reflexivity. }
  assert (Hv : filter (valid_input w) expanded = []).
  { clear - Hall. induction Hall as [|f l Hf _ IH]; [reflexivity|].
    simpl. unfold valid_input at 1. rewrite Hf, andb_false_r. exact IH. }
  rewrite Hw.
  pose proof (convert_mp4_to_gif_run w expanded (output a) (arg_fps a)
                (arg_width a) (arg_quality a)
                (add_events initial
                   (flat_map (no_match_warning w) (inputs a)
                    ++ [WarnNoMp4Inputs]))) as Hrun.
  cbv zeta in Hrun. rewrite Hv in Hrun. rewrite Hrun.
  destruct expanded as [|x xs] eqn:Ex; [congruence|].
  simpl is_Exception. cbv iota. unfold error_report. simpl exn_cls.
  simpl exn_class_eqb. cbv iota. simpl exn_msg.
  rewrite !add_events_app, <- !app_assoc. reflexivity.
Qed.

Lemma trying_anyway_fails_witness :
  main mixed_inputs_world (mkArgs ["notes.txt"; "missing.mp4.bak"] None 10
                                  None "medium")
  = (1, mkState 0%nat
          [WarnNoMp4Inputs; WarnNotMp4 "notes.txt";
           WarnNotMp4 "missing.mp4.bak";
           PrintedError "No valid MP4 files found"] [] None).
Proof.
  rewrite (trying_anyway_fails mixed_inputs_world
             (mkArgs ["notes.txt"; "missing.mp4.bak"] None 10 None "medium")).
  - reflexivity.
  - discriminate.
  - repeat constructor.
Defined.

Lemma front_warnings_quiet (w : world) (patterns expanded : list string) :
  encodings (flat_map (no_match_warning w) patterns
             ++ no_mp4_warning expanded) = [] /\
  reported (flat_map (no_match_warning w) patterns
            ++ no_mp4_warning expanded) = [].
Proof.
  unfold encodings, reported. rewrite flat_map_app, filter_app.
  assert (H1 : flat_map encoding (flat_map (no_match_warning w) patterns) = []
               /\ filter (fun e => (is_error_line e || is_hint e)%bool)
                    (flat_map (no_match_warning w) patterns) = []).
  { induction patterns as [|p l [IH1 IH2]]; [split; reflexivity|].
    simpl. rewrite flat_map_app, filter_app, IH1, IH2, !app_nil_r.
    unfold no_match_warning. destruct (has_glob_char p); [|split; reflexivity].
    destruct (glob w p); split; reflexivity. }
  destruct H1 as [-> ->]. unfold no_mp4_warning.
  destruct (forallb _ expanded); split; reflexivity.
Qed.

(** The geometry computation fails with an [Exception] only. *)
Lemma compute_target_exception (width : option Z) (sz : size) (rf : float)
  (e : exn) :
  compute_target width sz rf = Raise e -> is_Exception e = true.
Proof.
  assert (Hf : forall n x, float_of_int n = Raise x -> is_Exception x = true).
  { intros n x. unfold float_of_int, finite_or_overflow.
    destruct (binary_normalize prec emax n 0 false); intros H;
      try discriminate. injection H as <-. reflexivity. }
  assert (Hi : forall y x, int_of_float y = Raise x -> is_Exception x = true).
  { intros y x. destruct y; simpl; intros H; try discriminate;
      injection H as <-; reflexivity. }
  assert (Hd : forall a b x, int_truediv a b = Raise x -> is_Exception x = true).
  { intros a b x. unfold int_truediv, finite_or_overflow.
    destruct (b =? 0); [intros H; injection H as <-; reflexivity|].
    destruct (SFdiv prec emax (exact_of_int a) (exact_of_int b)); intros H;
      try discriminate. injection H as <-. reflexivity. }
  destruct sz as [ow oh]. unfold compute_target.
  destruct (truthy width) as [x|].
  - destruct (int_truediv x ow) as [q|e1] eqn:E1; simpl;
      [|intros H; injection H as <-; eapply Hd; exact E1].
    destruct (float_of_int oh) as [fh|e2] eqn:E2; simpl;
      [|intros H; injection H as <-; eapply Hf; exact E2].
    destruct (int_of_float (float_mul q fh)) as [nh|e3] eqn:E3; simpl;
      [discriminate|intros H; injection H as <-; eapply Hi; exact E3].
  - destruct (float_of_int ow) as [fw|e1] eqn:E1; simpl;
      [|intros H; injection H as <-; eapply Hf; exact E1].
    destruct (int_of_float (float_mul fw rf)) as [nw|e2] eqn:E2; simpl;
      [|intros H; injection H as <-; eapply Hi; exact E2].
    destruct (float_of_int oh) as [fh|e3] eqn:E3; simpl;
      [|intros H; injection H as <-; eapply Hf; exact E3].
    destruct (int_of_float (float_mul fh rf)) as [nh|e4] eqn:E4; simpl;
      [discriminate|intros H; injection H as <-; eapply Hi; exact E4].
Qed.

(** Exit status 0 (lines 243-252).  When [main] exits with status 0, exactly
    one file has been encoded, to the output path given or else derived
    from the valid inputs, with repeat count 0; and no error line and no
    hint has been printed. *)
Theorem exit_status_zero (w : world) (a : args) (s' : state) :
  main w a = (0, s') ->
  reported (trace s') = [] /\
  exists h,
    encodings (trace s') =
    [(h,
      match output a with
      | Some o => o
      | None => default_output_path
                  (filter (valid_input w) (flat_map (expansion w) (inputs a)))
      end,
      fst (resolve_quality (arg_quality a) (arg_fps a)), 0)].
Proof.
  rewrite creator_main_run. cbv zeta.
  destruct (front_warnings_quiet w (inputs a)
              (flat_map (expansion w) (inputs a))) as [Hfe Hfr].
  set (expanded := flat_map (expansion w) (inputs a)) in *.
  set (front := flat_map (no_match_warning w) (inputs a)
                ++ no_mp4_warning expanded) in *.
  destruct expanded as [|x xs] eqn:Ex; [discriminate|]. rewrite <- Ex in *.
  destruct (convert_mp4_to_gif w expanded (output a) (arg_fps a) (arg_width a)
              (arg_quality a) (add_events initial front)) as [[o|e] s1] eqn:Hrun;
    [|discriminate].
  destruct (raises w CallGetsize); [discriminate|].
  intros H. injection H as <-.
  destruct (filter (valid_input w) expanded) as [|first rest] eqn:Hv.
  - pose proof (convert_mp4_to_gif_run w expanded (output a) (arg_fps a)
                  (arg_width a) (arg_quality a) (add_events initial front))
      as H.
    cbv zeta in H. rewrite Hv in H. rewrite Hrun in H. discriminate.
  - destruct (convert_any_quiet w expanded (output a) (arg_fps a) (arg_width a)
                (arg_quality a) (add_events initial front) (Ok o) s1 first
                rest Hv Hrun)
      as (before & wrote & closed & Htr & Hb1 & _ & Hb4 & Hw & Hne).
    destruct Hw as [->|[[h ->] _]]; [congruence|].
    simpl in Htr. rewrite Htr. split.
    + unfold reported in *. rewrite !filter_app, Hfr, Hb4. simpl.
      apply map_Closed_reports_nothing.
    + exists h. destruct (map_Closed_quiet closed) as (Hc & _).
      unfold encodings in *. rewrite !flat_map_app, Hfe, Hb1. simpl.
      rewrite Hc. reflexivity.
Qed.

Lemma exit_status_zero_witness :
  exists s',
    main encoder_works_world (mkArgs ["talk.mp4"] None 10 None "medium")
      = (0, s') /\
    reported (trace s') = [].
Proof.
  pose (run := main encoder_works_world
                 (mkArgs ["talk.mp4"] None 10 None "medium")).
  assert (Hrun : run = (0, snd run)) by (vm_compute; reflexivity).
  exists (snd run). split; [exact Hrun|].
  exact (proj1 (exit_status_zero encoder_works_world
                  (mkArgs ["talk.mp4"] None 10 None "medium") (snd run) Hrun)).
Defined.

(** The failure report (lines 265-272).  Suppose some input is left after
    expansion, the libraries fail with [Exception]s only, and [getsize] does
    not fail.  When [main] exits with status 1, it has printed exactly one
    error line, at the end of its output.  With no valid input the line is
    "No valid MP4 files found" and nothing follows it; otherwise the line
    begins with "Error converting MP4(s) to GIF: " and the hint about the
    required packages follows it. *)
Theorem failure_report (w : world) (a : args) :
  flat_map (expansion w) (inputs a) <> [] ->
  (forall c e, raises w c = Some e -> is_Exception e = true) ->
  raises w CallGetsize = None ->
  fst (main w a) = 1 ->
  exists pre msg,
    reported pre = [] /\
    match filter (valid_input w) (flat_map (expansion w) (inputs a)) with
    | [] =>
        trace (snd (main w a)) = pre ++ [PrintedError msg] /\
        msg = "No valid MP4 files found"
    | _ :: _ =>
        trace (snd (main w a)) =
          pre ++ [PrintedError msg; PrintedDependencyHint] /\
        exists cause,
          msg = ("Error converting MP4(s) to GIF: " ++ cause)%string
    end.
Proof.
  intros Hne Hexn Hsize. rewrite creator_main_run. cbv zeta.
  destruct (front_warnings_quiet w (inputs a)
              (flat_map (expansion w) (inputs a))) as [Hfe Hfr].
  set (expanded := flat_map (expansion w) (inputs a)) in *.
  set (front := flat_map (no_match_warning w) (inputs a)
                ++ no_mp4_warning expanded) in *.
  destruct expanded as [|x xs] eqn:Ex; [congruence|]. rewrite <- Ex in *.
  destruct (convert_mp4_to_gif w expanded (output a) (arg_fps a) (arg_width a)
              (arg_quality a) (add_events initial front)) as [[o|e] s1] eqn:Hrun.
  { rewrite Hsize. discriminate. }
  intros _.
  destruct (filter (valid_input w) expanded) as [|first rest] eqn:Hv.
  - pose proof (convert_mp4_to_gif_run w expanded (output a) (arg_fps a)
                  (arg_width a) (arg_quality a) (add_events initial front))
      as H.
    cbv zeta in H. rewrite Hv in H. rewrite Hrun in H.
    injection H as -> ->. simpl.
    exists (front ++ flat_map (skip_warning w) expanded),
           "No valid MP4 files found".
    split; [|split; reflexivity].
    unfold reported in *.
    rewrite filter_app, Hfr. apply skip_warning_reports_nothing.
  - destruct (convert_any_quiet w expanded (output a) (arg_fps a) (arg_width a)
                (arg_quality a) (add_events initial front) (Raise e) s1 first
                rest Hv Hrun)
      as (before & wrote & closed & Htr & _ & _ & Hb4 & Hw & e0 & He & Ho & _).
    assert (Hex0 : is_Exception e0 = true).
    { destruct Ho as [[c Hc]|Hc];
        [exact (Hexn c e0 Hc)|exact (compute_target_exception _ _ _ _ Hc)]. }
    unfold conversion_failure in He. rewrite Hex0 in He. subst e.
    simpl. simpl in Htr.
    exists (front ++ before ++ wrote ++ map Closed closed),
           ("Error converting MP4(s) to GIF: " ++ exn_msg e0)%string.
    split; [|split; [rewrite Htr; reflexivity|eexists; reflexivity]].
    unfold reported in *.
    rewrite !filter_app, Hfr, Hb4.
    fold (reported (map Closed closed)).
    rewrite map_Closed_reports_nothing.
    destruct Hw as [->|[[h ->] _]]; reflexivity.
Qed.

Lemma failure_report_witness :
  exists pre,
    reported pre = [] /\
    trace (snd (main encoder_fails_world
                  (mkArgs ["a.mp4"; "b.mp4"] None 10 None "medium")))
    = pre ++ [PrintedError
                "Error converting MP4(s) to GIF: No space left on device";
              PrintedDependencyHint].
Proof.
  destruct (failure_report encoder_fails_world
              (mkArgs ["a.mp4"; "b.mp4"] None 10 None "medium"))
    as (pre & msg & Hpre & H).
  - discriminate.
  - intros c e. destruct c; simpl; try discriminate.
    intros H. injection H as <-. reflexivity.
  - reflexivity.
  - vm_compute. reflexivity.
  - exists pre. split; [exact Hpre|].
    change (filter (valid_input encoder_fails_world)
              (flat_map (expansion encoder_fails_world)
                 (inputs (mkArgs ["a.mp4"; "b.mp4"] None 10 None "medium"))))
      with ["a.mp4"; "b.mp4"] in H.
    destruct H as [Htr [cause Hmsg]]. rewrite Htr.
    assert (Hlast : forall (l1 l2 : list event) x1 x2 y,
              l1 ++ [x1; y] = l2 ++ [x2; y] -> x1 = x2).
    { intros l1 l2 x1 x2 y E.
      apply (f_equal (@rev event)) in E. rewrite !rev_app_distr in E.
      simpl in E. congruence. }
    assert (E : trace (snd (main encoder_fails_world
                  (mkArgs ["a.mp4"; "b.mp4"] None 10 None "medium")))
                = [Opened 0%nat "a.mp4"; Resized 0%nat 1%nat (448, 336);
                   Opened 2%nat "b.mp4"; Resized 2%nat 3%nat (448, 336);
                   Concatenated 4%nat [1%nat; 3%nat]; Closed 1%nat;
                   Closed 3%nat]
                  ++ [PrintedError
                        "Error converting MP4(s) to GIF: No space left on device";
                      PrintedDependencyHint])
      by (vm_compute; reflexivity).
    rewrite Htr in E. apply Hlast in E. rewrite E. reflexivity.
Defined.

(** ** The presets that scale by a power of two *)

(** Exact geometry of "high" and "low" (lines 68-80, 102-112).  Without a
    requested width (none given, or 0, which [if width:] treats alike), the
    preset "high" keeps the size of the first clip, each dimension rounded
    down to an even number, and "low" halves each dimension, rounding down,
    before making it even.  The floating-point products are exact here, for
    every dimension below [2^53]. *)
Theorem preset_geometry_exact (ow oh fps : Z) (width : option Z) :
  0 < ow < 2 ^ 53 ->
  0 < oh < 2 ^ 53 ->
  truthy width = None ->
  compute_target width (ow, oh) (snd (resolve_quality "high" fps))
    = Ok (make_even ow, make_even oh) /\
  compute_target width (ow, oh) (snd (resolve_quality "low" fps))
    = Ok (make_even (ow / 2), make_even (oh / 2)).
Proof.
  intros Hw Hh Hwidth.
  assert (Hhigh : snd (resolve_quality "high" fps)
                  = S754_finite false 4503599627370496 (-52)).
  { unfold resolve_quality. simpl dict_get. cbn [snd s_resize_factor].
    vm_compute. reflexivity. }
  assert (Hlow : snd (resolve_quality "low" fps)
                 = S754_finite false 4503599627370496 (-53)).
  { unfold resolve_quality. simpl dict_get. cbn [snd s_resize_factor].
    vm_compute. reflexivity. }
  rewrite Hhigh, Hlow. unfold compute_target. rewrite Hwidth.
  destruct (int_times_power_of_two ow (-52) Hw) as (fw & Hfw & Hw1); [lia|].
  destruct (int_times_power_of_two oh (-52) Hh) as (fh & Hfh & Hh1); [lia|].
  destruct (int_times_power_of_two ow (-53) Hw) as (fw' & Hfw' & Hw2); [lia|].
  destruct (int_times_power_of_two oh (-53) Hh) as (fh' & Hfh' & Hh2); [lia|].
  rewrite Hfw in Hfw'. injection Hfw' as <-.
  rewrite Hfh in Hfh'. injection Hfh' as <-.
  rewrite Hfw, Hfh. cbn [rbind].
  rewrite Hw1, Hh1, Hw2, Hh2. cbn [rbind].
  change (2 ^ (-52 - -52)) with 1. change (2 ^ (-52 - -53)) with 2.
  rewrite !Z.div_1_r. split; reflexivity.
Qed.

Lemma preset_geometry_exact_witness :
  compute_target (Some 0) (641, 481) (snd (resolve_quality "high" 10))
    = Ok (640, 480) /\
  compute_target (Some 0) (641, 481) (snd (resolve_quality "low" 10))
    = Ok (320, 240).
Proof.
  exact (preset_geometry_exact 641 481 10 (Some 0)
           (conj eq_refl eq_refl) (conj eq_refl eq_refl) eq_refl).
Defined.

(** ** The name of the output for a single input *)

Lemma plain_of_lower (c x : ascii) :
  lower_ascii c = x -> x <> "."%char -> x <> "/"%char ->
  Ascii.eqb c "."%char = false /\ posix_sep c = false.
Proof.
  intros H Hd Hs. unfold posix_sep. split.
  - destruct (Ascii.eqb c ".") eqn:E; [|reflexivity].
    apply Ascii.eqb_eq in E. subst c. exfalso. apply Hd. rewrite <- H.
    reflexivity.
  - destruct (Ascii.eqb c "/") eqn:E; [|reflexivity].
    apply Ascii.eqb_eq in E. subst c. exfalso. apply Hs. rewrite <- H.
    reflexivity.
Qed.

(** One valid input (lines 59-61).  When exactly one input passes the
    filter and no output path is given, a run that returns has written to
    the input's path with its extension (".mp4" in any case of letters)
    replaced by ".gif" - unless the file name before the extension is empty
    or consists of dots only: [os.path.splitext] then finds no extension,
    and ".gif" is appended to the whole path. *)
Theorem single_input_output_name (w : world)
  (input_paths : list string) (fps : Z) (width : option Z) (quality : string)
  (out : string) (s' : state) (p : string) :
  convert_mp4_to_gif w input_paths None fps width quality initial
    = (Ok out, s') ->
  filter (valid_input w) input_paths = [p] ->
  exists stem ext,
    p = (stem ++ ext)%string /\
    lower ext = ".mp4"%string /\
    out = ((if has_proper_name stem then stem else p) ++ ".gif")%string.
Proof.
  intros Hrun Hv.
  apply convert_success in Hrun.
  destruct Hrun as (first & rest & t & Hv' & _ & Hout & _).
  rewrite Hv in Hv'. injection Hv' as <- <-.
  assert (Hp : valid_input w p = true).
  { assert (Hin : In p (filter (valid_input w) input_paths))
      by (rewrite Hv; left; reflexivity).
    apply filter_In in Hin. tauto. }
  unfold valid_input in Hp. apply andb_prop in Hp. destruct Hp as [_ Hp].
  apply endswith_inv in Hp. destruct Hp as [pre Hp].
  apply lower_split in Hp. destruct Hp as (stem & ext & -> & _ & Hext).
  exists stem, ext. split; [reflexivity|]. split; [exact Hext|].
  destruct ext as [|c0 [|c1 [|c2 [|c3 [|c4 ext]]]]]; try discriminate.
  simpl in Hext. injection Hext as H0 H1 H2 H3.
  apply lower_ascii_dot in H0. subst c0.
  rewrite Hout. unfold default_output_path.
  rewrite (splitext_ext_known posix_sep c1 c2 c3 eq_refl
             (plain_of_lower c1 _ H1 ltac:(discriminate) ltac:(discriminate))
             (plain_of_lower c2 _ H2 ltac:(discriminate) ltac:(discriminate))
             (plain_of_lower c3 _ H3 ltac:(discriminate) ltac:(discriminate))
             stem).
  unfold has_proper_name.
  destruct (has_non_dot stem _ _); reflexivity.
Qed.

Lemma single_input_output_name_witness :
  exists stem ext,
    "clips/First.MP4"%string = (stem ++ ext)%string /\
    lower ext = ".mp4"%string /\
    "clips/First.gif"%string
    = ((if has_proper_name stem then stem else "clips/First.MP4") ++ ".gif")%string.
Proof.
  pose (run := convert_mp4_to_gif two_sizes_world
                 ["notes.txt"; "clips/First.MP4"] None 10 None "medium"
                 initial).
  assert (Hrun : run = (Ok "clips/First.gif", snd run))
    by (vm_compute; reflexivity).
  exact (single_input_output_name two_sizes_world
           ["notes.txt"; "clips/First.MP4"] 10 None "medium"
           "clips/First.gif" (snd run) "clips/First.MP4" Hrun eq_refl).
Defined.

End GifCreatorMore.



(* ================================================================== *)
(** * gif_looper.py: further properties *)
(* ================================================================== *)

Module GifLooperMore.
Import Py GifLooper PyFacts PyMore GifLooperSpec.
Local Open Scope list_scope.

(** ** The run of [make_gif_loop], whatever the world *)

Lemma make_gif_loop_any (w : world) (input_path : string)
  (output_path : option string) :
  let out := match output_path with
             | Some o => o
             | None => default_output_path w input_path
             end in
  make_gif_loop w input_path output_path [] =
  if negb (path_exists w input_path) then
    (Raise (mkExn FileNotFoundError
              ("Input file not found: " ++ input_path)%string), [])
  else
    match image_open w input_path with
    | Raise e => (Raise (processing_failure e), [])
    | Ok img =>
        match read_frames (img_slots img) [] [] with
        | Raise e =>
            (Raise (processing_failure e),
             OpenedImage input_path :: format_warning img
             ++ [ClosedImage input_path])
        | Ok ([], _) =>
            (Raise (mkExn Exception
                      "Error processing GIF: No frames found in the input file"),
             OpenedImage input_path :: format_warning img
             ++ [ClosedImage input_path])
        | Ok (first :: others, durations) =>
            match save_raises w with
            | Some e =>
                (Raise (processing_failure e),
                 OpenedImage input_path :: format_warning img
                 ++ [ClosedImage input_path])
            | None =>
                (match getsize_raises w with
                 | Some e => Raise (processing_failure e)
                 | None => Ok out
                 end,
                 OpenedImage input_path :: format_warning img
                 ++ [Saved out first others durations 0 true]
                 ++ [ClosedImage input_path])
            end
        end
    end.
Proof.
  intros out. destruct (path_exists w input_path) eqn:Hex.
  2:{ unfold make_gif_loop. rewrite Hex. reflexivity. }
  cbn [negb]. destruct (image_open w input_path) as [img|e] eqn:Hop.
  2:{ unfold make_gif_loop. rewrite Hex. cbn [negb].
      unfold try_except, with_image_open, bind, lift, raise. rewrite Hop.
      unfold processing_failure. destruct (is_Exception e); reflexivity. }
  rewrite (make_gif_loop_run w input_path output_path img [] Hex Hop).
  fold out. rewrite loop_body_run. unfold processing_failure.
  destruct (read_frames (img_slots img) [] []) as [[[|f fs] ds]|e]; simpl.
  - reflexivity.
  - destruct (save_raises w) as [e|]; simpl.
    + destruct (is_Exception e); rewrite <- ?app_assoc; reflexivity.
    + destruct (getsize_raises w) as [e|]; simpl;
        [destruct (is_Exception e)|]; rewrite <- ?app_assoc; reflexivity.
  - destruct (is_Exception e); reflexivity.
Qed.

(** ** One save, while the input is open *)

(** The shape of every run (lines 43-91, 118-130).  Either nothing is
    opened and the call fails; or the input is opened, at most one file is
    saved, and the input is closed last, after the save.  A save carries
    the complete list of frames and durations read, repeat count 0 and
    [optimize=True].  The call returns (the output path) exactly when a
    file was saved and [getsize] did not fail, and that is exactly when
    [main] exits with status 0. *)
Theorem saves_once_while_open (w : world) (input_path : string)
  (output_path : option string) :
  let out := match output_path with
             | Some o => o
             | None => default_output_path w input_path
             end in
  let r := fst (make_gif_loop w input_path output_path []) in
  let tr := snd (make_gif_loop w input_path output_path []) in
  ((tr = [] /\ saved_paths tr = []) \/
   exists img saved,
     image_open w input_path = Ok img /\
     tr = OpenedImage input_path :: format_warning img ++ saved
          ++ [ClosedImage input_path] /\
     (saved = [] \/
      exists first others durations,
        saved = [Saved out first others durations 0 true] /\
        read_frames (img_slots img) [] [] = Ok (first :: others, durations))) /\
  (r = Ok out <-> saved_paths tr = [out] /\ getsize_raises w = None) /\
  (fst (main w input_path output_path) = 0 <-> r = Ok out).
Proof.
  intros out r tr. subst r tr.
  rewrite main_run.
  pose proof (make_gif_loop_any w input_path output_path) as H.
  cbv zeta in H. fold out in H. rewrite H. clear H.
  destruct (negb (path_exists w input_path)).
  { simpl. split; [left; split; reflexivity|].
    split; split; try discriminate. intros [? _]. discriminate. }
  destruct (image_open w input_path) as [img|e].
  2:{ simpl. split; [left; split; reflexivity|].
      split; split; try discriminate. intros [? _]. discriminate. }
  assert (Hnone : saved_paths (OpenedImage input_path :: format_warning img
                               ++ [ClosedImage input_path]) = []).
  { unfold saved_paths. simpl. rewrite flat_map_app.
    fold (saved_paths (format_warning img)).
    rewrite format_warning_not_saved. reflexivity. }
  assert (Hone : forall first others durations,
            saved_paths (OpenedImage input_path :: format_warning img
                         ++ [Saved out first others durations 0 true]
                         ++ [ClosedImage input_path]) = [out]).
  { intros. unfold saved_paths. simpl. rewrite flat_map_app.
    fold (saved_paths (format_warning img)).
    rewrite format_warning_not_saved. reflexivity. }
  destruct (read_frames (img_slots img) [] []) as [[[|f fs] ds]|e] eqn:Er.
  - cbn [fst snd]. rewrite Hnone. split.
    + right. exists img, []. split; [reflexivity|].
      split; [reflexivity|left; reflexivity].
    + split; split; try discriminate. intros [? _]. discriminate.
  - destruct (save_raises w) as [e|].
    + cbn [fst snd]. rewrite Hnone. split.
      * right. exists img, []. split; [reflexivity|].
        split; [reflexivity|left; reflexivity].
      * split; split; try discriminate. intros [? _]. discriminate.
    + cbn [fst snd]. rewrite Hone. split.
      * right. exists img, [Saved out f fs ds 0 true].
        split; [reflexivity|]. split; [reflexivity|].
        right. exists f, fs, ds. split; [reflexivity|exact Er].
      * destruct (getsize_raises w) as [e|].
        -- split; split; try discriminate. intros [_ ?]. discriminate.
        -- split; split; auto.
  - cbn [fst snd]. rewrite Hnone. split.
    + right. exists img, []. split; [reflexivity|].
      split; [reflexivity|left; reflexivity].
    + split; split; try discriminate. intros [? _]. discriminate.
Qed.

(** ** The default output is a new file *)

(** A run saves to no path other than the output path. *)
Lemma saved_paths_of_run (w : world) (input_path : string)
  (output_path : option string) :
  saved_paths (snd (make_gif_loop w input_path output_path [])) = [] \/
  saved_paths (snd (make_gif_loop w input_path output_path [])) =
    [match output_path with
     | Some o => o
     | None => default_output_path w input_path
     end].
Proof.
  pose proof (make_gif_loop_any w input_path output_path) as H.
  cbv zeta in H. rewrite H. clear H.
  destruct (negb (path_exists w input_path)); [left; reflexivity|].
  destruct (image_open w input_path) as [img|e]; [|left; reflexivity].
  assert (Hnone : saved_paths (OpenedImage input_path :: format_warning img
                               ++ [ClosedImage input_path]) = []).
  { unfold saved_paths. simpl. rewrite flat_map_app.
    fold (saved_paths (format_warning img)).
    rewrite format_warning_not_saved. reflexivity. }
  destruct (read_frames (img_slots img) [] []) as [[[|f fs] ds]|e];
    [left; exact Hnone| |left; exact Hnone].
  destruct (save_raises w); [left; exact Hnone|].
  right. cbn [snd]. unfold saved_paths. simpl. rewrite flat_map_app.
  fold (saved_paths (format_warning img)).
  rewrite format_warning_not_saved. reflexivity.
Qed.

(** The default output path is never the input path (lines 39-41): without
    an explicit output path the rewriter saves to no other path than the
    derived one, so it does not overwrite its input. *)
Theorem default_output_differs_from_input (w : world) (input_path : string) :
  default_output_path w input_path <> input_path /\
  ~ In input_path (saved_paths (snd (make_gif_loop w input_path None []))).
Proof.
  assert (Hne : default_output_path w input_path <> input_path).
  { unfold default_output_path. intros E.
    pose proof (splitext_app (os_sep w) input_path) as Happ.
    rewrite <- Happ in E at 2. apply append_inv_l in E.
    destruct (splitext_ext (os_sep w) input_path) as [H|[rest H]];
      rewrite H in E; discriminate. }
  split; [exact Hne|].
  destruct (saved_paths_of_run w input_path None) as [H|H]; rewrite H.
  - intros [].
  - intros [E|[]]. exact (Hne E).
Qed.

(** ** A sequence that ends early *)

Lemma read_frames_until (fs : list frame) (e : exn) (rest : list slot) :
  forall frames durations,
    read_frames (map Decoded fs ++ Broken e :: rest) frames durations =
    if exn_class_eqb (exn_cls e) EOFError
    then Ok (frames ++ map frame_pixels fs,
             durations ++ map duration_or_default fs)
    else Raise e.
Proof.
  induction fs as [|f fs IH]; intros frames durations; simpl.
  - rewrite !app_nil_r. reflexivity.
  - rewrite IH, <- !app_assoc. reflexivity.
Qed.

(** The first position that fails (lines 54-68, 90-91).  Let the decoder
    deliver the frames [first :: others] and then fail.  If the failure is
    an [EOFError], the frames delivered are saved, with their durations, and
    whatever the file holds after that position is ignored.  If it is any
    other [Exception], nothing is saved, though frames were read, and the
    call fails with "Error processing GIF: " and the decoder's message. *)
Theorem frames_up_to_first_failure (w : world) (input_path : string)
  (output_path : option string) (img : image) (first : frame)
  (others : list frame) (e : exn) (rest : list slot) :
  path_exists w input_path = true ->
  image_open w input_path = Ok img ->
  img_slots img = map Decoded (first :: others) ++ Broken e :: rest ->
  save_raises w = None ->
  is_Exception e = true ->
  let out := match output_path with
             | Some o => o
             | None => default_output_path w input_path
             end in
  let tr := snd (make_gif_loop w input_path output_path []) in
  if exn_class_eqb (exn_cls e) EOFError
  then tr = OpenedImage input_path :: format_warning img
            ++ [Saved out (frame_pixels first) (map frame_pixels others)
                  (map duration_or_default (first :: others)) 0 true]
            ++ [ClosedImage input_path]
  else saved_paths tr = [] /\
       fst (make_gif_loop w input_path output_path []) =
       Raise (mkExn Exception ("Error processing GIF: " ++ exn_msg e)%string).
Proof.
  intros Hex Hop Hslots Hsave Hexn out tr. subst tr.
  pose proof (make_gif_loop_any w input_path output_path) as H.
  cbv zeta in H. fold out in H. rewrite H. clear H.
  rewrite Hex, Hop, Hslots, read_frames_until. cbn [negb].
  destruct (exn_class_eqb (exn_cls e) EOFError).
  - cbn [app map]. rewrite Hsave. reflexivity.
  - cbn [fst snd]. unfold processing_failure. rewrite Hexn.
    split; [|reflexivity].
    unfold saved_paths. simpl. rewrite flat_map_app.
    fold (saved_paths (format_warning img)).
    rewrite format_warning_not_saved. reflexivity.
Qed.

Lemma frames_up_to_first_failure_witness :
  saved_paths (snd (make_gif_loop damaged_world "anim.gif" None [])) = [] /\
  fst (make_gif_loop damaged_world "anim.gif" None []) =
  Raise (mkExn Exception "Error processing GIF: image file is truncated").
Proof.
  exact (frames_up_to_first_failure damaged_world "anim.gif" None
           damaged_image (bare_frame 1) [bare_frame 2]
           (mkExn OSError "image file is truncated") []
           eq_refl eq_refl eq_refl eq_refl eq_refl).
Defined.

(** ** The two kinds of failure *)

(** What the caller can tell from a failure (lines 35-36, 90-91).  A
    failed call raises [FileNotFoundError] exactly when the input path does
    not exist, and then nothing has been opened.  Every other [Exception],
    whatever its class inside the [try] block (a [FileNotFoundError] of
    [Image.open], the [ValueError] for an empty sequence, a failure of
    [save]), reaches the caller as a plain [Exception] whose message begins
    with "Error processing GIF: ". *)
Theorem failure_classes (w : world) (input_path : string)
  (output_path : option string) (e : exn) (tr : list event) :
  make_gif_loop w input_path output_path [] = (Raise e, tr) ->
  (exn_cls e = FileNotFoundError <-> path_exists w input_path = false) /\
  (path_exists w input_path = false ->
   tr = [] /\ exn_msg e = ("Input file not found: " ++ input_path)%string) /\
  (path_exists w input_path = true -> is_Exception e = true ->
   exn_cls e = Exception /\
   exists cause, exn_msg e = ("Error processing GIF: " ++ cause)%string).
Proof.
  assert (Hwrap : forall e0,
    exn_cls (processing_failure e0) <> FileNotFoundError /\
    (is_Exception (processing_failure e0) = true ->
     exn_cls (processing_failure e0) = Exception /\
     exists cause,
       exn_msg (processing_failure e0)
       = ("Error processing GIF: " ++ cause)%string)).
  { intros e0. unfold processing_failure.
    destruct (is_Exception e0) eqn:E.
    - split; [discriminate|]. intros _. split; [reflexivity|].
      eexists. reflexivity.
    - split; [|congruence]. unfold is_Exception in E.
      destruct (exn_cls e0); simpl in E; discriminate. }
  pose proof (make_gif_loop_any w input_path output_path) as H.
  cbv zeta in H. rewrite H. clear H.
  destruct (path_exists w input_path) eqn:Hex; cbn [negb].
  2:{ intros H. injection H as <- <-. simpl.
      split; [split; reflexivity|]. split; [split; reflexivity|]. discriminate. }
  assert (Hgoal : forall e0,
    e = processing_failure e0 ->
    (exn_cls e = FileNotFoundError <-> true = false) /\
    (true = false ->
     tr = [] /\ exn_msg e = ("Input file not found: " ++ input_path)%string) /\
    (true = true -> is_Exception e = true ->
     exn_cls e = Exception /\
     exists cause, exn_msg e = ("Error processing GIF: " ++ cause)%string)).
  { intros e0 ->. destruct (Hwrap e0) as [Hne Hw].
    split; [split; [intros E; contradiction|discriminate]|].
    split; [discriminate|]. intros _. exact Hw. }
  assert (Hempty :
    mkExn Exception "Error processing GIF: No frames found in the input file"
    = processing_failure (mkExn ValueError "No frames found in the input file"))
    by reflexivity.
  destruct (image_open w input_path) as [img|e0].
  2:{ intros H. injection H as <- _. apply (Hgoal e0). reflexivity. }
  destruct (read_frames (img_slots img) [] []) as [[[|f fs] ds]|e0].
  - intros H. injection H as <- _. eapply Hgoal. exact Hempty.
  - destruct (save_raises w) as [e0|].
    + intros H. injection H as <- _. apply (Hgoal e0). reflexivity.
    + destruct (getsize_raises w) as [e0|]; [|discriminate].
      intros H. injection H as <- _. apply (Hgoal e0). reflexivity.
  - intros H. injection H as <- _. apply (Hgoal e0). reflexivity.
Qed.

Lemma failure_classes_witness :
  exn_cls (mkExn FileNotFoundError "Input file not found: gone.gif")
    = FileNotFoundError <->
  path_exists missing_world "gone.gif" = false.
Proof.
  exact (proj1 (failure_classes missing_world "gone.gif" None
                  (mkExn FileNotFoundError "Input file not found: gone.gif")
                  [] eq_refl)).
Defined.

End GifLooperMore.
